(** * Celestron AUX protocol: frame codec and command exchange

    A shallow embedding of [src/celestron_aux.h] and [src/celestron_aux.cpp]
    (namespace [CelestronAux]): the [Packet] class (frame construction,
    serialisation, parsing, checksum) and the [Communicator] class (the
    bounded-retry request/response exchange over a [HardwareSerial]).

    Conventions of the embedding.
    - A [uint8_t] is a [Z] in [0, 256); a [uint32_t] / [size_t] is a [Z] in
      [0, 2^32) (the target is a 32-bit ESP32).  Every narrowing the source
      performs is written out with [u8] / [u32].
    - [Buffer] ([std::vector<uint8_t>]) is a [list Z].  [operator[]] outside
      the vector's bounds is undefined behaviour in C++: every indexed access
      is checked here and answers [None] out of range, so a function that
      returns [Some _] performed in-bounds accesses only.
    - The unscoped enums [Target] and [Command] are their underlying integer
      values: [static_cast<Target>(packet[2])] keeps any byte, named or not. *)

From Stdlib Require Import ZArith Lia.
From stdpp Require Import base tactics option list.

Local Open Scope Z_scope.

Abbreviation Buffer := (list Z) (only parsing).

(** ** Fixed-width integers *)

Definition u8 (z : Z) : Z := z mod 256.
Definition u32 (z : Z) : Z := z mod 2 ^ 32.

Definition is_u8 (z : Z) : Prop := 0 <= z < 256.

(** [const uint8_t AUX_HDR = 0x3B;  // Packet preamble] *)
Definition AUX_HDR : Z := 0x3B.

(** ** [std::vector<uint8_t>] primitives *)

(** [v.size()] *)
Definition vsize (v : Buffer) : Z := Z.of_nat (length v).

(** [v[i]] as an rvalue. *)
Definition vget (v : Buffer) (i : Z) : option Z :=
  if decide (0 <= i < vsize v) then v !! Z.to_nat i else None.

(** [v[i] = x] *)
Definition vset (v : Buffer) (i : Z) (x : Z) : option Buffer :=
  if decide (0 <= i < vsize v) then Some (<[Z.to_nat i := x]> v) else None.

(** [v.resize(n)]: truncates, or pads with value-initialised (zero) bytes. *)
Definition vresize (v : Buffer) (n : Z) : Buffer :=
  take (Z.to_nat n) v ++ replicate (Z.to_nat n - length v)%nat 0.

(** [v.back() = x] *)
Definition vset_back (v : Buffer) (x : Z) : option Buffer :=
  vset v (vsize v - 1) x.

(** [Buffer(v.begin() + a, v.end() - b)]; the iterator range must be valid. *)
Definition vrange (v : Buffer) (a b : Z) : option Buffer :=
  if decide (0 <= a /\ 0 <= b /\ a + b <= vsize v)
  then Some (take (Z.to_nat (vsize v - a - b)) (drop (Z.to_nat a) v))
  else None.

(** ** The enumerations *)

Module Command.
Definition MC_GET_POSITION : Z := 0x01.
Definition MC_GOTO_FAST : Z := 0x02.
Definition MC_SET_POSITION : Z := 0x04.
Definition MC_SET_POS_GUIDERATE : Z := 0x06.
Definition MC_SET_NEG_GUIDERATE : Z := 0x07.
Definition MC_LEVEL_START : Z := 0x0b.
Definition MC_SET_POS_BACKLASH : Z := 0x10.
Definition MC_SET_NEG_BACKLASH : Z := 0x11.
Definition MC_SLEW_DONE : Z := 0x13.
Definition MC_GOTO_SLOW : Z := 0x17.
Definition MC_SEEK_INDEX : Z := 0x19.
Definition MC_MOVE_POS : Z := 0x24.
Definition MC_MOVE_NEG : Z := 0x25.
Definition MC_GET_POS_BACKLASH : Z := 0x40.
Definition MC_GET_NEG_BACKLASH : Z := 0x41.
Definition GET_VER : Z := 0xfe.
Definition FOC_CALIB_ENABLE : Z := 42.
Definition FOC_CALIB_DONE : Z := 43.
Definition FOC_GET_HS_POSITIONS : Z := 44.

(** The enumerators of [enum Command], in declaration order. *)
Definition enumerators : list Z :=
  [ MC_GET_POSITION; MC_GOTO_FAST; MC_SET_POSITION; MC_SET_POS_GUIDERATE;
    MC_SET_NEG_GUIDERATE; MC_LEVEL_START; MC_SET_POS_BACKLASH;
    MC_SET_NEG_BACKLASH; MC_SLEW_DONE; MC_GOTO_SLOW; MC_SEEK_INDEX;
    MC_MOVE_POS; MC_MOVE_NEG; MC_GET_POS_BACKLASH; MC_GET_NEG_BACKLASH;
    GET_VER; FOC_CALIB_ENABLE; FOC_CALIB_DONE; FOC_GET_HS_POSITIONS ].
End Command.

Module Target.
Definition ANY : Z := 0x00.
Definition MB : Z := 0x01.
Definition HC : Z := 0x04.
Definition HCP : Z := 0x0d.
Definition AZM : Z := 0x10.
Definition ALT : Z := 0x11.
Definition FOCUSER : Z := 0x12.
Definition APP : Z := 0x20.
Definition NEX_REMOTE : Z := 0x22.
Definition GPS : Z := 0xb0.
Definition WiFi : Z := 0xb5.
Definition BAT : Z := 0xb6.
Definition CHG : Z := 0xb7.
Definition LIGHT : Z := 0xbf.

(** The enumerators of [enum Target], in declaration order. *)
Definition enumerators : list Z :=
  [ ANY; MB; HC; HCP; AZM; ALT; FOCUSER; APP; NEX_REMOTE; GPS; WiFi; BAT;
    CHG; LIGHT ].
End Target.

(** ** class [Packet] *)

Module Packet.

(** The data members: [uint32_t length; Target source; Target destination;
    Command command; Buffer data;] *)
Record t : Type := mk {
  length : Z;
  source : Z;
  destination : Z;
  command : Z;
  data : Buffer
}.

(** [Packet::Packet()] *)
Definition Packet_default : t :=
  {| length := 0; source := Target.APP; destination := Target.FOCUSER;
     command := Command.GET_VER; data := [] |}.

(** [Packet::Packet(Target, Target, Command, Buffer data)]:
    [this->length = data.size() + 3;] in [size_t] arithmetic. *)
Definition Packet_data (source destination command : Z) (data : Buffer) : t :=
  {| length := u32 (vsize data + 3); source := source;
     destination := destination; command := command; data := data |}.

(** [Packet::Packet(Target, Target, Command)] *)
Definition Packet_nodata (source destination command : Z) : t :=
  {| length := 3; source := source; destination := destination;
     command := command; data := [] |}.

(** The body of the loop of [calculateChecksum]: [sum += packet[i]] for the
    successive indices [i]. *)
Fixpoint checksum_loop (packet : Buffer) (indices : list nat) (sum : Z)
  : option Z :=
  match indices with
  | [] => Some sum
  | i :: rest =>
      b ← vget packet (Z.of_nat i);
      checksum_loop packet rest (sum + b)
  end.

(** [uint8_t Packet::calculateChecksum(Buffer packet)]:
<<
    int sum = 0;
    for (int i = 1; i < packet[1] + 2; i++) sum += packet[i];
    return (-sum & 0xFF);
>>
    [packet] is a by-value copy, so the bound [packet[1] + 2] is the same
    at every test of the condition; it is read (and must be in bounds) even
    when the body never runs.  [sum] stays far below [INT_MAX] (at most 256
    bytes are added). *)
Definition calculateChecksum (packet : Buffer) : option Z :=
  n ← vget packet 1;
  sum ← checksum_loop packet (seq 1 (Z.to_nat (n + 2 - 1))) 0;
  Some (Z.land (- sum) 0xFF).

(** The copy loop of [fillBuffer]: [buf[5 + i] = data[i]] for [i] from the
    given index up to [data.size()]; the list argument is what is left of
    [data] from index [i] on. *)
Fixpoint copy_loop (rest : Buffer) (i : Z) (buf : Buffer) : option Buffer :=
  match rest with
  | [] => Some buf
  | x :: rest' =>
      buf' ← vset buf (5 + i) x;
      copy_loop rest' (i + 1) buf'
  end.

(** [void Packet::fillBuffer(Buffer &buf)].  [buf] is an in/out parameter:
    its previous content survives [resize] wherever it is not overwritten. *)
Definition fillBuffer (p : t) (buf : Buffer) : option Buffer :=
  let buf := vresize buf (u32 (length p + 3)) in
  buf ← vset buf 0 AUX_HDR;
  buf ← vset buf 1 (u8 (length p));
  buf ← vset buf 2 (u8 (source p));
  buf ← vset buf 3 (u8 (destination p));
  buf ← vset buf 4 (u8 (command p));
  buf ← copy_loop (data p) 0 buf;
  c ← calculateChecksum buf;
  vset_back buf c.

(** What [parse] reports.  The source returns a [bool] and tells the
    failures apart by the diagnostic it prints:
    - [TooSmall]: "Parse error: packet too small"
    - [InvalidHeader]: "Parse error: invalid header"
    - [SizeMismatch]: "Parse error: size mismatch"
    - [ChecksumMismatch]: "Parse error: checksum mismatch"
    - [Parsed]: "RX: ..." and [return true]. *)
Inductive status : Set :=
| Parsed
| TooSmall
| InvalidHeader
| SizeMismatch
| ChecksumMismatch.

(** The [bool] that [parse] returns. *)
Definition returned (s : status) : bool :=
  match s with Parsed => true | _ => false end.

(** [bool Packet::parse(Buffer packet)].  The result pairs the status with
    the object's members after the call. *)
Definition parse (p : t) (packet : Buffer) : option (status * t) :=
  if decide (vsize packet < 6) then Some (TooSmall, p) else
  b0 ← vget packet 0;
  if decide (b0 ≠ AUX_HDR) then Some (InvalidHeader, p) else
  b1 ← vget packet 1;
  let p := {| length := b1; source := source p;
              destination := destination p; command := command p;
              data := data p |} in
  if decide (vsize packet ≠ u32 (length p + 3)) then Some (SizeMismatch, p)
  else
  b2 ← vget packet 2;
  b3 ← vget packet 3;
  b4 ← vget packet 4;
  d ← vrange packet 5 1;
  let p := {| length := length p; source := b2; destination := b3;
              command := b4; data := d |} in
  calculatedChecksum ← calculateChecksum packet;
  receivedChecksum ← vget packet (u32 (length p + 2));
  if decide (calculatedChecksum ≠ receivedChecksum)
  then Some (ChecksumMismatch, p)
  else Some (Parsed, p).

End Packet.

(** ** Outcomes of the stateful code

    The exchange code runs against a serial port and the millisecond clock.
    A computation either completes with a value, performs an out-of-bounds
    vector access (undefined behaviour in the source), or is still looping
    when the iteration budget given to one of its loops is used up. *)

Inductive result (A : Type) : Type :=
| Ret (a : A)
| OutOfBounds
| OutOfFuel.
Arguments Ret {A} a.
Arguments OutOfBounds {A}.
Arguments OutOfFuel {A}.

#[global] Instance result_ret : MRet result := @Ret.
#[global] Instance result_bind : MBind result := fun A B f m =>
  match m with
  | Ret a => f a
  | OutOfBounds => OutOfBounds
  | OutOfFuel => OutOfFuel
  end.

(** A checked vector access inside stateful code. *)
Definition checked {A : Type} (o : option A) : result A :=
  match o with Some a => Ret a | None => OutOfBounds end.

(** ** The environment: [HardwareSerial], [millis()], [delay()]

    The port and the clock are outside the repository; this is the contract
    the code is run against.
    - Time is counted in milliseconds since boot and only [delay] lets it
      pass; [millis()] is that count as a [uint32_t].
    - The receive line is a FIFO of bytes, each with the instant it reaches
      the UART; a byte is readable once the clock has reached its instant and
      every byte before it has been read.
    - The peer is scripted: the k-th call of [write] accepts at most a given
      number of bytes and makes the peer put the given bytes on the receive
      line, each a given number of milliseconds after the call. *)

Module Serial.

Record reaction : Type := mk_reaction {
  accepts : Z;
  answer : list (Z * Z)
}.

Record t : Type := mk {
  now : Z;
  rx : list (Z * Z);
  written : list Buffer;
  line : list reaction
}.

(** [millis()] *)
Definition millis (w : t) : Z := u32 (now w).

(** [delay(ms)] *)
Definition delay (ms : Z) (w : t) : t :=
  {| now := now w + ms; rx := rx w; written := written w; line := line w |}.

(** [serial.available()]: whether a byte can be read now (the source only
    tests the count against zero). *)
Definition available (w : t) : bool :=
  match rx w with
  | (at_, _) :: _ => bool_decide (at_ <= now w)
  | [] => false
  end.

(** [serial.read()]: the next byte, or -1 when none is available. *)
Definition read (w : t) : Z * t :=
  match rx w with
  | (at_, b) :: rest =>
      if bool_decide (at_ <= now w)
      then (b, {| now := now w; rx := rest; written := written w;
                  line := line w |})
      else (-1, w)
  | [] => (-1, w)
  end.

(** [serial.write(buf.data(), buf.size())]: the number of bytes written.
    Once the script is used up the port accepts everything and the peer
    stays silent. *)
Definition write (buf : Buffer) (w : t) : Z * t :=
  match line w with
  | r :: rest =>
      let n := Z.max 0 (Z.min (accepts r) (vsize buf)) in
      (n, {| now := now w;
             rx := rx w ++ map (fun '(after, b) => (now w + after, b))
                               (answer r);
             written := written w ++ [take (Z.to_nat n) buf];
             line := rest |})
  | [] =>
      (vsize buf, {| now := now w; rx := rx w;
                     written := written w ++ [buf]; line := [] |})
  end.

(** [serial.flush()]: waits for the transmit buffer to drain.  The time the
    transmission of a frame takes (about half a millisecond per byte at
    19200 baud) is not modelled: the clock of a port is exact for the waits
    of the receiver, and short by the transmission times of the frames
    written. *)
Definition flush (w : t) : t := w.

End Serial.

(** ** class [Communicator] *)

Module Communicator.

(** The data member [Target source]. *)
Record t : Type := mk { source : Z }.

(** [static const uint32_t TIMEOUT_MS = 2000;  // 2 second timeout] *)
Definition TIMEOUT_MS : Z := 2000.
(** [static const uint32_t RETRY_COUNT = 3;    // Retry failed commands] *)
Definition RETRY_COUNT : Z := 3.

(** [Communicator::Communicator()] *)
Definition Communicator_default : t := {| source := Target.APP |}.

(** [Communicator::Communicator(Target source)] *)
Definition Communicator_source (source : Z) : t := {| source := source |}.

(** [void Communicator::flushSerial(serial)]:
    [while (serial.available()) serial.read();] *)
Fixpoint flushSerial_loop (fuel : nat) (w : Serial.t) : result Serial.t :=
  match fuel with
  | O => OutOfFuel
  | S fuel' =>
      if Serial.available w
      then flushSerial_loop fuel' (snd (Serial.read w))
      else Ret w
  end.

Definition flushSerial (w : Serial.t) : result Serial.t :=
  flushSerial_loop (S (List.length (Serial.rx w))) w.

(** [bool Communicator::sendPacket(serial, dest, cmd, data)] *)
Definition sendPacket (c : t) (dest cmd : Z) (data : Buffer) (w : Serial.t)
  : result (bool * Serial.t) :=
  let packet := Packet.Packet_data (source c) dest cmd data in
  txBuffer ← checked (Packet.fillBuffer packet []);
  w ← flushSerial w;
  let '(bytesWritten, w) := Serial.write txBuffer w in
  if decide (bytesWritten ≠ vsize txBuffer) then Ret (false, w)
  else Ret (true, Serial.flush w).

(** The collecting loop of [readPacket]:
<<
    while (millis() - startTime < 100) {
        if (serial.available()) {
            rawData.push_back(serial.read());
            startTime = millis();
        }
        delay(1);
    }
>>
    The subtraction is between [uint32_t] values. *)
Fixpoint collect_loop (fuel : nat) (rawData : Buffer) (startTime : Z)
    (w : Serial.t) : result (Buffer * Serial.t) :=
  match fuel with
  | O => OutOfFuel
  | S fuel' =>
      if decide (u32 (Serial.millis w - startTime) < 100) then
        if Serial.available w then
          let '(b, w) := Serial.read w in
          let rawData := rawData ++ [u8 b] in
          let startTime := Serial.millis w in
          collect_loop fuel' rawData startTime (Serial.delay 1 w)
        else collect_loop fuel' rawData startTime (Serial.delay 1 w)
      else Ret (rawData, w)
  end.

(** Iterations that always suffice: every byte on the line costs at most
    100 idle turns and the turn that reads it; then 100 idle turns and the
    test that leaves the loop. *)
Definition collect_fuel (w : Serial.t) : nat :=
  (101 * S (List.length (Serial.rx w)) + 1)%nat.

(** [for (i = 0; i < rawData.size(); i++) packet.push_back(rawData[i]);]
    The list argument is what is left of [rawData]. *)
Fixpoint push_back_loop (rest : Buffer) (packet : Buffer) : Buffer :=
  match rest with
  | [] => packet
  | x :: rest' => push_back_loop rest' (packet ++ [x])
  end.

(** The candidate frame that [readPacket] builds from the collected bytes
    ("Build packet - check if it has header or not"). *)
Definition build_packet (rawData : Buffer) : option Buffer :=
  first ← vget rawData 0;
  if decide (first = AUX_HDR) then Some rawData
  else Some (push_back_loop rawData ([] ++ [AUX_HDR])).

(** Why [readPacket] answers as it does:
    - [NoData]: "No data received", [return false];
    - [PacketSizeMismatch]: "DEBUG: Packet size mismatch", [return false];
    - [Decoded s]: the result of [reply.parse(packet)]. *)
Inductive read_status : Set :=
| NoData
| PacketSizeMismatch
| Decoded (s : Packet.status).

(** The [bool] that [readPacket] returns. *)
Definition returned (s : read_status) : bool :=
  match s with Decoded s => Packet.returned s | _ => false end.

(** [readPacket] from "Build packet" on, for non-empty [rawData]. *)
Definition finalize (reply : Packet.t) (rawData : Buffer)
  : option (read_status * Packet.t) :=
  packet ← build_packet rawData;
  length ← vget packet 1;
  let expectedSize := u32 (length + 3) in
  if decide (vsize packet ≠ expectedSize)
  then Some (PacketSizeMismatch, reply)
  else '(s, reply) ← Packet.parse reply packet; Some (Decoded s, reply).

(** [bool Communicator::readPacket(serial, Packet &reply)] *)
Definition readPacket (reply : Packet.t) (w : Serial.t)
  : result (read_status * Packet.t * Serial.t) :=
  let startTime := Serial.millis w in
  '(rawData, w) ← collect_loop (collect_fuel w) [] startTime w;
  if decide (rawData = []) then Ret (NoData, reply, w)
  else '(s, reply) ← checked (finalize reply rawData); Ret (s, reply, w).

(** One turn of the loop of [sendCommand], by the way it ends:
    - [SendFailed]: "Send failed on attempt %d", [continue];
    - [ReadFailed s]: "Read failed on attempt %d", [continue];
    - [InvalidResponse p]: "Invalid response on attempt %d", [continue];
    - [Accepted p]: [reply = responsePacket.data; return true]. *)
Inductive attempt : Type :=
| SendFailed
| ReadFailed (s : read_status)
| InvalidResponse (responsePacket : Packet.t)
| Accepted (responsePacket : Packet.t).

(** The body of the [while] loop of [sendCommand]. *)
Definition sendCommand_body (c : t) (dest cmd : Z) (data : Buffer)
    (w : Serial.t) : result (attempt * Serial.t) :=
  '(sent, w) ← sendPacket c dest cmd data w;
  if negb sent then Ret (SendFailed, w)
  else
    '(s, responsePacket, w) ← readPacket Packet.Packet_default w;
    if negb (returned s) then Ret (ReadFailed s, w)
    else if decide (Packet.command responsePacket ≠ cmd
                    \/ Packet.destination responsePacket ≠ Target.APP
                    \/ Packet.source responsePacket ≠ dest)
    then Ret (InvalidResponse responsePacket, w)
    else Ret (Accepted responsePacket, w).

(** The loop of [sendCommand]: [while (retryCount++ < RETRY_COUNT) {...}].
    [retryCount] is an [int] compared with a [uint32_t]. *)
Fixpoint sendCommand_loop (fuel : nat) (c : t) (dest cmd : Z)
    (data reply : Buffer) (retryCount : Z) (w : Serial.t)
  : result (bool * Buffer * Serial.t) :=
  match fuel with
  | O => OutOfFuel
  | S fuel' =>
      let continues := bool_decide (u32 retryCount < RETRY_COUNT) in
      let retryCount := retryCount + 1 in
      if continues then
        '(a, w) ← sendCommand_body c dest cmd data w;
        match a with
        | Accepted responsePacket =>
            Ret (true, Packet.data responsePacket, w)
        | _ => sendCommand_loop fuel' c dest cmd data reply retryCount w
        end
      else Ret (false, reply, w)
  end.

(** [bool Communicator::sendCommand(serial, dest, cmd, data, Buffer &reply)]:
    the returned [bool], [reply] after the call, and the port. *)
Definition sendCommand (c : t) (dest cmd : Z) (data reply : Buffer)
    (w : Serial.t) : result (bool * Buffer * Serial.t) :=
  sendCommand_loop (Z.to_nat RETRY_COUNT + 1) c dest cmd data reply 0 w.

(** [bool Communicator::sendCommand(serial, dest, cmd, Buffer &reply)] *)
Definition sendCommand_nodata (c : t) (dest cmd : Z) (reply : Buffer)
    (w : Serial.t) : result (bool * Buffer * Serial.t) :=
  let emptyData := [] in
  sendCommand c dest cmd emptyData reply w.

(** [bool Communicator::commandBlind(serial, dest, cmd, data)] *)
Definition commandBlind (c : t) (dest cmd : Z) (data : Buffer)
    (w : Serial.t) : result (bool * Serial.t) :=
  sendPacket c dest cmd data w.

End Communicator.

(** ** Arduino [String] and the C library

    An Arduino [String] is the characters of a NUL-terminated buffer: a
    [list ascii] without the NUL character.  [isspace], [isdigit], [toupper]
    and [strtol] are those of the C locale. *)

From Stdlib Require Import Ascii.

#[global] Instance ascii_eq_decision : EqDecision ascii := ascii_dec.

(** A character of a [String]: anything but NUL. *)
Definition is_char (c : ascii) : Prop := c ≠ zero.

(** [isspace(c)]: space, and the five controls from tab to carriage return. *)
Definition isspace (c : ascii) : bool :=
  let n := nat_of_ascii c in
  ((n =? 32) || ((9 <=? n) && (n <=? 13)))%nat.

(** [isdigit(c)] *)
Definition isdigit (c : ascii) : bool :=
  let n := nat_of_ascii c in ((48 <=? n) && (n <=? 57))%nat.

(** [toupper(c)] *)
Definition toupper (c : ascii) : ascii :=
  let n := nat_of_ascii c in
  if ((97 <=? n) && (n <=? 122))%nat then ascii_of_nat (n - 32) else c.

(** The value of a character as a digit of [strtol]: the decimal digits,
    then the letters of either case from 10 on. *)
Definition digit_value (c : ascii) : option Z :=
  let n := nat_of_ascii c in
  if ((48 <=? n) && (n <=? 57))%nat then Some (Z.of_nat n - 48)
  else if ((97 <=? n) && (n <=? 122))%nat then Some (Z.of_nat n - 87)
  else if ((65 <=? n) && (n <=? 90))%nat then Some (Z.of_nat n - 55)
  else None.

(** The digits of [strtol]: the value of the longest run of digits of the
    base at the front of the string, after the value accumulated so far. *)
Fixpoint strtol_digits (base : Z) (s : list ascii) (acc : Z) : Z :=
  match s with
  | [] => acc
  | c :: rest =>
      match digit_value c with
      | Some d =>
          if decide (d < base) then strtol_digits base rest (base * acc + d)
          else acc
      | None => acc
      end
  end.

(** The white space [strtol] skips first. *)
Fixpoint strtol_spaces (s : list ascii) : list ascii :=
  match s with
  | c :: rest => if isspace c then strtol_spaces rest else s
  | [] => []
  end.

(** After the white space: an optional sign. *)
Definition strtol_sign (s : list ascii) : bool * list ascii :=
  match s with
  | "-"%char :: rest => (true, rest)
  | "+"%char :: rest => (false, rest)
  | _ => (false, s)
  end.

(** After the sign, in base 16: an optional [0x] or [0X]. *)
Definition strtol_prefix (base : Z) (s : list ascii) : list ascii :=
  if decide (base = 16) then
    match s with
    | "0"%char :: "x"%char :: rest => rest
    | "0"%char :: "X"%char :: rest => rest
    | _ => s
    end
  else s.

(** [strtol(s, NULL, base)] for base 10 or 16 and a 32-bit [long]: white
    space, sign, prefix, digits; the result saturates at [LONG_MIN] and
    [LONG_MAX]. *)
Definition strtol (s : list ascii) (base : Z) : Z :=
  let s := strtol_spaces s in
  let '(negative, s) := strtol_sign s in
  let magnitude := strtol_digits base (strtol_prefix base s) 0 in
  if negative then Z.max (- 2 ^ 31) (- magnitude)
  else Z.min (2 ^ 31 - 1) magnitude.

(** The digits of [utoa] in base 16. *)
Definition utoa_digit (d : Z) : ascii :=
  nth (Z.to_nat d)
    ["0"; "1"; "2"; "3"; "4"; "5"; "6"; "7"; "8"; "9"; "a"; "b"; "c"; "d"; "e";
     "f"]%char "0"%char.

(** [String(value, HEX)] for an [unsigned char]: [utoa] in base 16, one or
    two lower-case digits. *)
Definition String_HEX (value : Z) : list ascii :=
  if decide (value < 16) then [utoa_digit value]
  else [utoa_digit (value / 16); utoa_digit (value mod 16)].

(** [s.replace(" ", "")]: every space removed. *)
Definition String_remove_spaces (s : list ascii) : list ascii :=
  filter (fun c => c ≠ " "%char) s.

(** [s.toUpperCase()] *)
Definition String_toUpperCase (s : list ascii) : list ascii := map toupper s.

(** [s.substring(left, right)] for [left <= right]: the characters from
    [left] up to but not including [right], as far as the string goes. *)
Definition String_substring (s : list ascii) (left right : nat) : list ascii :=
  take (right - left) (drop left s).

(** ** class [Packet]: the hexadecimal utilities *)

(** The loop of [bufferToHex]:
<<
    for (size_t i = 0; i < data.size(); i++) {
        if (i > 0) result += " ";
        if (data[i] < 16) result += "0";
        result += String(data[i], HEX);
    }
>>
    The list argument is what is left of [data] from index [i] on. *)
Fixpoint bufferToHex_loop (rest : Buffer) (i : Z) (result : list ascii)
  : list ascii :=
  match rest with
  | [] => result
  | x :: rest' =>
      let result := if decide (i > 0) then result ++ [" "%char] else result in
      let result := if decide (x < 16) then result ++ ["0"%char] else result in
      let result := result ++ String_HEX x in
      bufferToHex_loop rest' (i + 1) result
  end.

(** [String Packet::bufferToHex(Buffer data)] *)
Definition bufferToHex (data : Buffer) : list ascii :=
  bufferToHex_loop data 0 [].

(** The loop of [hexToBuffer], over the successive values of [i]:
<<
    for (size_t i = 0; i < hex.length(); i += 2) {
        if (i + 1 < hex.length()) {
            String byteStr = hex.substring(i, i + 2);
            result.push_back(strtol(byteStr.c_str(), NULL, 16));
        }
    }
>>
    [push_back] narrows the [long] to a [uint8_t]. *)
Fixpoint hexToBuffer_loop (hex : list ascii) (indices : list nat)
    (result : Buffer) : Buffer :=
  match indices with
  | [] => result
  | i :: rest =>
      if decide (i + 1 < length hex)%nat then
        let byteStr := String_substring hex i (i + 2) in
        hexToBuffer_loop hex rest (result ++ [u8 (strtol byteStr 16)])
      else hexToBuffer_loop hex rest result
  end.

(** The values [i] takes in that loop: 0, 2, 4, ... below the length. *)
Definition even_indices (len : nat) : list nat :=
  map (fun k => 2 * k)%nat (seq 0 (Nat.div2 (S len))).

(** [Buffer Packet::hexToBuffer(String hex)] *)
Definition hexToBuffer (hex : list ascii) : Buffer :=
  let hex := String_remove_spaces hex in
  let hex := String_toUpperCase hex in
  hexToBuffer_loop hex (even_indices (length hex)) [].

(** ** class [Communicator]: [waitForHeader]

    Private, and called from nowhere. *)

(** The loop of [waitForHeader]:
<<
    while (millis() - startTime < timeoutMs) {
        if (serial.available()) {
            uint8_t byte = serial.read();
            if (byte == CelestronAux::AUX_HDR) return true;
        }
        delay(1);
    }
    return false;
>> *)
Fixpoint waitForHeader_loop (fuel : nat) (startTime timeoutMs : Z)
    (w : Serial.t) : result (bool * Serial.t) :=
  match fuel with
  | O => OutOfFuel
  | S fuel' =>
      if decide (u32 (Serial.millis w - startTime) < timeoutMs) then
        if Serial.available w then
          let '(b, w) := Serial.read w in
          let byte := u8 b in
          if decide (byte = AUX_HDR) then Ret (true, w)
          else waitForHeader_loop fuel' startTime timeoutMs (Serial.delay 1 w)
        else waitForHeader_loop fuel' startTime timeoutMs (Serial.delay 1 w)
      else Ret (false, w)
  end.

(** [bool Communicator::waitForHeader(serial, uint32_t timeoutMs)].  Every
    turn of the loop that does not return lets a millisecond pass, so
    [timeoutMs] turns and the test that leaves the loop suffice. *)
Definition waitForHeader (timeoutMs : Z) (w : Serial.t)
  : result (bool * Serial.t) :=
  let startTime := Serial.millis w in
  waitForHeader_loop (Z.to_nat timeoutMs + 1) startTime timeoutMs w.

(** * The focuser controller

    A shallow embedding of the focuser functions of [src/main.cpp]: the
    globals they share are a record that is passed along, the AUX port
    ([auxSerial]) is the [Serial.t] of the exchange.  What the functions
    print on the USB port is left out. *)

(** [String::trim()]: the white space of [isspace] is removed at both
    ends. *)
Definition String_trim (s : list ascii) : list ascii :=
  rev (strtol_spaces (rev (strtol_spaces s))).

(** [String::toInt()]: [atol] of the buffer, that is, [strtol] in base 10. *)
Definition String_toInt (s : list ascii) : Z := strtol s 10.

Module Main.

(** The globals of the focuser state:
<<
    uint32_t currentPosition = 0;
    uint32_t targetPosition = 0;
    uint8_t currentSpeed = 5;  // Default speed (1-9)
    bool isMoving = false;
    bool focuserConnected = false;
>> *)
Record state : Type := mk {
  currentPosition : Z;
  targetPosition : Z;
  currentSpeed : Z;
  isMoving : bool;
  focuserConnected : bool
}.

Definition initial : state :=
  {| currentPosition := 0; targetPosition := 0; currentSpeed := 5;
     isMoving := false; focuserConnected := false |}.

(** [CelestronAux::Communicator communicator;] *)
Definition communicator : Communicator.t := Communicator.Communicator_default.

(** [bool getFocuserPosition()] *)
Definition getFocuserPosition (st : state) (w : Serial.t)
  : result (bool * state * Serial.t) :=
  let reply : Buffer := [] in
  '(ok, reply, w) ← Communicator.sendCommand_nodata communicator
                      Target.FOCUSER Command.MC_GET_POSITION reply w;
  if (ok : bool) then
    if decide (vsize reply >= 3) then
      reply0 ← checked (vget reply 0);
      reply1 ← checked (vget reply 1);
      reply2 ← checked (vget reply 2);
      let position :=
        u32 (Z.shiftl reply0 16 + Z.shiftl reply1 8 + reply2) in
      Ret (true,
           {| currentPosition := position;
              targetPosition := targetPosition st;
              currentSpeed := currentSpeed st;
              isMoving := isMoving st;
              focuserConnected := focuserConnected st |}, w)
    else Ret (false, st, w)
  else Ret (false, st, w).

(** [bool moveFocuser(uint8_t direction, uint8_t speed)] *)
Definition moveFocuser (direction speed : Z) (w : Serial.t)
  : result (bool * Serial.t) :=
  let cmd := if decide (direction = 1) then Command.MC_MOVE_POS
             else Command.MC_MOVE_NEG in
  let data := [speed] in
  let reply : Buffer := [] in
  '(ok, _, w) ← Communicator.sendCommand communicator Target.FOCUSER cmd
                  data reply w;
  Ret (ok, w).

(** [bool gotoPosition(uint32_t position)] *)
Definition gotoPosition (position : Z) (w : Serial.t)
  : result (bool * Serial.t) :=
  let data := [u8 (Z.land (Z.shiftr position 16) 0xFF);
               u8 (Z.land (Z.shiftr position 8) 0xFF);
               u8 (Z.land position 0xFF)] in
  Communicator.commandBlind communicator Target.FOCUSER Command.MC_GOTO_FAST
    data w.

(** [bool stepFocuser(uint8_t direction, uint32_t steps, uint8_t speed)].
    The local [targetPosition] hides the global of that name. *)
Definition stepFocuser (direction steps speed : Z) (st : state) (w : Serial.t)
  : result (bool * Serial.t) :=
  let startPosition := currentPosition st in
  let targetPosition :=
    if decide (direction = 1) then u32 (startPosition + steps)
    else if decide (steps > startPosition) then 0
         else u32 (startPosition - steps) in
  gotoPosition targetPosition w.

(** [bool stopFocuser()] *)
Definition stopFocuser (w : Serial.t) : result (bool * Serial.t) :=
  let data := [0] in
  Communicator.commandBlind communicator Target.FOCUSER Command.MC_MOVE_POS
    data w.

(** [bool setSpeed(uint8_t speed)] *)
Definition setSpeed (speed : Z) : bool :=
  if decide (speed < 1 \/ speed > 9) then false else true.

(** [bool checkFocuserStatus()] *)
Definition checkFocuserStatus (st : state) (w : Serial.t)
  : result (bool * state * Serial.t) :=
  if negb (isMoving st) then Ret (true, st, w)
  else
    let reply : Buffer := [] in
    '(ok, reply, w) ← Communicator.sendCommand_nodata communicator
                        Target.FOCUSER Command.MC_SLEW_DONE reply w;
    if (ok : bool) then
      if negb (bool_decide (reply = [])) then
        status ← checked (vget reply 0);
        let stillMoving := bool_decide (status ≠ 0xFF) in
        if negb stillMoving then
          let st := {| currentPosition := currentPosition st;
                       targetPosition := targetPosition st;
                       currentSpeed := currentSpeed st;
                       isMoving := false;
                       focuserConnected := focuserConnected st |} in
          '(_, st, w) ← getFocuserPosition st w;
          Ret (true, st, w)
        else Ret (true, st, w)
      else Ret (true, st, w)
    else Ret (true, st, w).

(** [uint32_t parsePosition(String value)] *)
Definition parsePosition (value : list ascii) : Z :=
  let value := String_trim value in
  if decide (length value = 0%nat) then 0
  else if negb (forallb isdigit value) then 0
  else u32 (String_toInt value).

(** [void handleGotoCommand(String value)] *)
Definition handleGotoCommand (value : list ascii) (st : state) (w : Serial.t)
  : result (state * Serial.t) :=
  if negb (focuserConnected st) then Ret (st, w)
  else
    let position := parsePosition value in
    if decide (position = 0 /\ value ≠ ["0"%char]) then Ret (st, w)
    else
      '(sent, w) ← gotoPosition position w;
      if (sent : bool) then
        Ret ({| currentPosition := currentPosition st;
                targetPosition := position;
                currentSpeed := currentSpeed st;
                isMoving := true;
                focuserConnected := focuserConnected st |}, w)
      else Ret (st, w).

(** [#define MAX_COMMAND_LEN  32] *)
Definition MAX_COMMAND_LEN : nat := 32.

(** What [processCommands] does with a command that is ready:
    - [Single c]: [handleCommand(commandBuffer[0])];
    - [Goto value]: [handleGotoCommand(commandBuffer.substring(1))];
    - [Unknown buffer]: [printError("Unknown command: " + commandBuffer)]. *)
Inductive dispatched : Type :=
| Single (command : ascii)
| Goto (value : list ascii)
| Unknown (commandBuffer : list ascii).

(** "Process command if ready": the choice between the handlers. *)
Definition dispatch (commandBuffer : list ascii) : dispatched :=
  match commandBuffer with
  | [c] => Single c
  | "g"%char :: value => Goto value
  | _ => Unknown commandBuffer
  end.

(** [void processCommands()], on the characters that the USB port has
    available during the call, in their order: the handlers called, in their
    order, and the globals [commandBuffer] and [commandReady] after the
    call.
<<
    while (Serial.available()) {
        char c = Serial.read();
        if (c == '\n' || c == '\r') {
            if (commandBuffer.length() > 0) commandReady = true;
        } else if (c >= 32 && c <= 126) {
            commandBuffer += c;
            if (commandBuffer.length() >= MAX_COMMAND_LEN)
                commandBuffer = commandBuffer.substring(0, MAX_COMMAND_LEN - 1);
        }
        if (commandReady) { ...; commandBuffer = ""; commandReady = false; }
    }
>> *)
Fixpoint processCommands (available : list ascii)
    (commandBuffer : list ascii) (commandReady : bool)
  : list dispatched * list ascii * bool :=
  match available with
  | [] => ([], commandBuffer, commandReady)
  | c :: available' =>
      let n := nat_of_ascii c in
      let '(commandBuffer, commandReady) :=
        if ((n =? 10) || (n =? 13))%nat then
          if decide (0 < length commandBuffer)%nat
          then (commandBuffer, true)
          else (commandBuffer, commandReady)
        else if ((32 <=? n) && (n <=? 126))%nat then
          let commandBuffer := commandBuffer ++ [c] in
          if decide (MAX_COMMAND_LEN <= length commandBuffer)%nat
          then (String_substring commandBuffer 0 (MAX_COMMAND_LEN - 1),
                commandReady)
          else (commandBuffer, commandReady)
        else (commandBuffer, commandReady) in
      if commandReady then
        let call := dispatch commandBuffer in
        let '(calls, commandBuffer, commandReady) :=
          processCommands available' [] false in
        (call :: calls, commandBuffer, commandReady)
      else processCommands available' commandBuffer commandReady
  end.

End Main.

(** * Notions used in the statements *)

(** Sum of a run of bytes. *)
Definition sum_bytes (l : list Z) : Z := foldr Z.add 0 l.

(** The checksum in the words of the wire format: the two's complement,
    modulo 256, of the sum of the bytes it covers. *)
Definition checksum_of (covered : list Z) : Z := (- sum_bytes covered) mod 256.

(** The wire format in the words of the specification: sentinel, length
    ([3 + payload.length]), source, destination, command, payload, checksum
    over everything between the sentinel and the checksum. *)
Definition frame (s d c : Z) (payload : list Z) : list Z :=
  let len := vsize payload + 3 in
  [AUX_HDR; len; s; d; c] ++ payload
    ++ [checksum_of ([len; s; d; c] ++ payload)].

(** The byte at an index of a buffer (0 past its end). *)
Definition byte_at (bytes : list Z) (i : nat) : Z := default 0 (bytes !! i).

(** The bytes the checksum covers: indices 1 to [length + 1], where [length]
    is the byte at index 1. *)
Definition covered (bytes : list Z) : list Z :=
  take (Z.to_nat (byte_at bytes 1 + 1)) (drop 1 bytes).

(** The decoder in the words of the specification: the four checks, in
    order, each with its error. *)
Definition decode_status (bytes : list Z) : Packet.status :=
  if decide (vsize bytes < 6) then Packet.TooSmall
  else if decide (byte_at bytes 0 ≠ AUX_HDR) then Packet.InvalidHeader
  else if decide (vsize bytes ≠ byte_at bytes 1 + 3) then Packet.SizeMismatch
  else if decide (Some (checksum_of (covered bytes)) ≠ last bytes)
       then Packet.ChecksumMismatch
  else Packet.Parsed.

(** The fields [parse] has extracted once the size check has passed. *)
Definition extracted (bytes : list Z) : Packet.t :=
  {| Packet.length := byte_at bytes 1; Packet.source := byte_at bytes 2;
     Packet.destination := byte_at bytes 3; Packet.command := byte_at bytes 4;
     Packet.data := take (length bytes - 6) (drop 5 bytes) |}.

(** What [parse] leaves in the packet, by status. *)
Definition packet_after (p : Packet.t) (bytes : list Z) (s : Packet.status)
  : Packet.t :=
  match s with
  | Packet.TooSmall | Packet.InvalidHeader => p
  | Packet.SizeMismatch =>
      {| Packet.length := byte_at bytes 1; Packet.source := Packet.source p;
         Packet.destination := Packet.destination p;
         Packet.command := Packet.command p; Packet.data := Packet.data p |}
  | Packet.ChecksumMismatch | Packet.Parsed => extracted bytes
  end.

(** No byte of the receive line becomes readable before the instant [t]. *)
Definition silent_until (t : Z) (w : Serial.t) : Prop :=
  match Serial.rx w with
  | [] => True
  | (at_, _) :: _ => t <= at_
  end.

(** The port after [n] consecutive turns of the loop of [sendCommand],
    whatever their outcomes. *)
Fixpoint after_attempts (n : nat) (c : Communicator.t) (dest cmd : Z)
    (data : Buffer) (w : Serial.t) : result Serial.t :=
  match n with
  | O => Ret w
  | S n' =>
      '(_, w) ← Communicator.sendCommand_body c dest cmd data w;
      after_attempts n' c dest cmd data w
  end.

(** A port on which nothing is pending and whose peer never answers. *)
Definition dead_line (t : Z) (written : list (list Z)) : Serial.t :=
  Serial.mk t [] written [].

(** A response in the words of the specification: it carries the command
    that was sent, comes from the addressed device and is addressed to the
    communicator's own local address. *)
Definition expected_response (c : Communicator.t) (dest cmd : Z)
    (response : Packet.t) : Prop :=
  Packet.command response = cmd
  /\ Packet.source response = dest
  /\ Packet.destination response = Communicator.source c.

(** The candidate frame of the receiver's compatibility rule: the collected
    bytes, with the sentinel put in front when they do not start with it. *)
Definition candidate_frame (first : Z) (rest : list Z) : list Z :=
  if decide (first = AUX_HDR) then first :: rest
  else AUX_HDR :: first :: rest.

(** * Scripted ports

    Concrete ports on which the exchange is run: the request for the
    focuser's version, and peers that answer it in various ways. *)

Module Scenario.

(** [GET_VER] from [APP] to [FOCUSER], as the default communicator sends
    it. *)
Definition request : list Z := [0x3B; 0x03; 0x20; 0x12; 0xFE; 0xCD].

(** The same request from a communicator constructed with [Target::HC]. *)
Definition request_from_HC : list Z := [0x3B; 0x03; 0x04; 0x12; 0xFE; 0xE9].

(** A well-formed frame from [FOCUSER] to [APP] that answers another
    command ([MC_GET_POSITION]); one byte per millisecond from [after]
    milliseconds on. *)
Definition other_answer (after : Z) : list (Z * Z) :=
  [(after, 0x3B); (after + 1, 0x03); (after + 2, 0x12); (after + 3, 0x20);
   (after + 4, 0x01); (after + 5, 0xCA)].

(** The focuser's answer to [GET_VER], addressed to [APP]: version 7.1. *)
Definition version_answer (after : Z) : list (Z * Z) :=
  [(after, 0x3B); (after + 1, 0x05); (after + 2, 0x12); (after + 3, 0x20);
   (after + 4, 0xFE); (after + 5, 0x07); (after + 6, 0x01);
   (after + 7, 0xC3)].

(** The same answer addressed to [HC]. *)
Definition version_answer_to_HC (after : Z) : list (Z * Z) :=
  [(after, 0x3B); (after + 1, 0x05); (after + 2, 0x12); (after + 3, 0x04);
   (after + 4, 0xFE); (after + 5, 0x07); (after + 6, 0x01);
   (after + 7, 0xDF)].

(** What [parse] makes of these answers. *)
Definition other_packet : Packet.t := Packet.mk 3 0x12 0x20 0x01 [].
Definition version_packet : Packet.t :=
  Packet.mk 5 0x12 0x20 0xFE [0x07; 0x01].

(** A peer that first sends the stray answer, then the right one, each
    starting 5 ms after the request; and the port after each step of the
    two exchanges. *)
Definition stray_then_right : Serial.t :=
  Serial.mk 0 [] []
    [Serial.mk_reaction 6 (other_answer 5);
     Serial.mk_reaction 6 (version_answer 5)].
Definition stray_then_right_sent1 : Serial.t :=
  Serial.mk 0 (other_answer 5) [request]
    [Serial.mk_reaction 6 (version_answer 5)].
Definition stray_then_right_read1 : Serial.t :=
  Serial.mk 110 [] [request] [Serial.mk_reaction 6 (version_answer 5)].
Definition stray_then_right_sent2 : Serial.t :=
  Serial.mk 110 (version_answer 115) [request; request] [].
Definition stray_then_right_read2 : Serial.t :=
  Serial.mk 222 [] [request; request] [].

(** A peer that answers every request at once with a frame addressed to
    the given target. *)
Definition answers_to_APP : Serial.t :=
  Serial.mk 0 [] []
    [Serial.mk_reaction 6 (version_answer 5);
     Serial.mk_reaction 6 (version_answer 5);
     Serial.mk_reaction 6 (version_answer 5)].
Definition answers_to_HC : Serial.t :=
  Serial.mk 0 [] []
    [Serial.mk_reaction 6 (version_answer_to_HC 5);
     Serial.mk_reaction 6 (version_answer_to_HC 5);
     Serial.mk_reaction 6 (version_answer_to_HC 5)].

(** A peer whose answer to the first request starts after 350 ms. *)
Definition slow_peer : Serial.t :=
  Serial.mk 0 [] [] [Serial.mk_reaction 6 (version_answer 350)].

(** A line on which a byte arrives every 50 ms, sixty times over. *)
Definition babbling : Serial.t :=
  Serial.mk 0 (map (fun k => (50 * (Z.of_nat k + 1), 0x00)) (seq 0 60)) [] [].

(** A line on which a lone sentinel byte is pending. *)
Definition lone_sentinel : Serial.t := Serial.mk 0 [(0, 0x3B)] [] [].

(** The stray answer addressed to [HC], and what [parse] makes of it and of
    the version addressed to [HC]. *)
Definition other_answer_to_HC (after : Z) : list (Z * Z) :=
  [(after, 0x3B); (after + 1, 0x03); (after + 2, 0x12); (after + 3, 0x04);
   (after + 4, 0x01); (after + 5, 0xE6)].
Definition other_packet_to_HC : Packet.t := Packet.mk 3 0x12 0x04 0x01 [].
Definition version_packet_to_HC : Packet.t :=
  Packet.mk 5 0x12 0x04 0xFE [0x07; 0x01].

(** A peer of a communicator constructed with [Target::HC]: it first sends
    the stray answer, then the right one, both addressed to [HC], each
    starting 5 ms after the request; and the port after each step of the
    two exchanges. *)
Definition stray_then_right_HC : Serial.t :=
  Serial.mk 0 [] []
    [Serial.mk_reaction 6 (other_answer_to_HC 5);
     Serial.mk_reaction 6 (version_answer_to_HC 5)].
Definition stray_then_right_HC_sent1 : Serial.t :=
  Serial.mk 0 (other_answer_to_HC 5) [request_from_HC]
    [Serial.mk_reaction 6 (version_answer_to_HC 5)].
Definition stray_then_right_HC_read1 : Serial.t :=
  Serial.mk 110 [] [request_from_HC]
    [Serial.mk_reaction 6 (version_answer_to_HC 5)].
Definition stray_then_right_HC_sent2 : Serial.t :=
  Serial.mk 110 (version_answer_to_HC 115)
    [request_from_HC; request_from_HC] [].
Definition stray_then_right_HC_read2 : Serial.t :=
  Serial.mk 222 [] [request_from_HC; request_from_HC] [].

End Scenario.

(** * Notions used in the further statements *)

(** A byte as two lower-case hexadecimal digits. *)
Definition hex_pair (b : Z) : list ascii :=
  [utoa_digit (b / 16); utoa_digit (b mod 16)].

(** The 256 characters. *)
Definition all_ascii : list ascii := map ascii_of_nat (seq 0 256).

(** The value of a character as a hexadecimal digit, if it is one. *)
Definition xdigit_value (c : ascii) : option Z :=
  match digit_value c with
  | Some d => if decide (d < 16) then Some d else None
  | None => None
  end.

(** Two hexadecimal digits, of either case, are read by [hexToBuffer] as the
    byte they denote. *)
Definition pair_decodes (a b : ascii) : bool :=
  match xdigit_value a, xdigit_value b with
  | Some va, Some vb => u8 (strtol [toupper a; toupper b] 16) =? 16 * va + vb
  | _, _ => true
  end.

(** The value of the hexadecimal digit at an index of a text (0 if there is
    none). *)
Definition digit_at (text : list ascii) (i : nat) : Z :=
  default 0 (text !! i ≫= xdigit_value).

(** The error [parse] reports for a valid frame in which the byte at an
    index has been changed. *)
Definition corruption_status (i : nat) : Packet.status :=
  match i with
  | O => Packet.InvalidHeader
  | S O => Packet.SizeMismatch
  | _ => Packet.ChecksumMismatch
  end.


(** The receive loop of [readPacket] in terms of arrivals.  The loop starts
    at [now] with its timer at [t0]; a byte is taken as soon as it has
    arrived and the loop is there to take it, then the loop is busy for one
    millisecond; the loop ends 100 ms after the last byte was taken (after
    [t0] if none was) when the next byte has not been taken by then.  The
    result: the bytes taken, the instant at which the loop ends, and what is
    left on the line. *)
Fixpoint assemble (rx : list (Z * Z)) (t0 now : Z)
  : list Z * Z * list (Z * Z) :=
  match rx with
  | [] => ([], t0 + 100, [])
  | (at_, b) :: rest =>
      let t := Z.max now at_ in
      if decide (t < t0 + 100) then
        let '(bytes, t_end, remaining) := assemble rest t (t + 1) in
        (u8 b :: bytes, t_end, remaining)
      else ([], t0 + 100, rx)
  end.

(** What the peer puts on the line in answer to the next write. *)
Definition next_answer (w : Serial.t) : list (Z * Z) :=
  match Serial.line w with
  | r :: _ =>
      map (fun '(after, b) => (Serial.now w + after, b)) (Serial.answer r)
  | [] => []
  end.

(** The frame of a request of a communicator. *)
Definition request_frame (c : Communicator.t) (dest cmd : Z)
    (data : list Z) : list Z :=
  frame (u8 (Communicator.source c)) (u8 dest) (u8 cmd) data.

(** The number that a string of decimal digits denotes. *)
Definition decimal (digits : list ascii) : Z :=
  fold_left (fun acc c => 10 * acc + (Z.of_nat (nat_of_ascii c) - 48))
    digits 0.

(** ** Scripted focusers *)

(** Bytes that arrive one per millisecond from [after] milliseconds on. *)
Definition timed (after : Z) (bytes : list Z) : list (Z * Z) :=
  imap (fun i b => (after + Z.of_nat i, b)) bytes.

(** A focuser that answers a request for its position with 100000, 5 ms
    after the request. *)
Definition focuser_at_100000 : Serial.t :=
  Serial.mk 0 [] []
    [Serial.mk_reaction 9
       (timed 5 (frame Target.FOCUSER Target.APP Command.MC_GET_POSITION
                   [0x01; 0x86; 0xA0]))].

(** A focuser that answers that the slew is done, and then gives its
    position. *)
Definition focuser_arrived : Serial.t :=
  Serial.mk 0 [] []
    [Serial.mk_reaction 6
       (timed 5 (frame Target.FOCUSER Target.APP Command.MC_SLEW_DONE
                   [0xFF]));
     Serial.mk_reaction 6
       (timed 5 (frame Target.FOCUSER Target.APP Command.MC_GET_POSITION
                   [0x01; 0x86; 0xA0]))].

(** A printable character, and an end of line. *)
Definition printable (c : ascii) : bool :=
  let n := nat_of_ascii c in ((32 <=? n) && (n <=? 126))%nat.
Definition end_of_line (c : ascii) : bool :=
  let n := nat_of_ascii c in ((n =? 10) || (n =? 13))%nat.
(** * Properties *)

Example literal_vector :
  Packet.fillBuffer (Packet.Packet_data 0x20 0x12 0xFE []) []
  = Some [0x3B; 0x03; 0x20; 0x12; 0xFE; 0xCD].
Proof. reflexivity. Qed.

Example literal_vector_parse :
  Packet.parse Packet.Packet_default [0x3B; 0x03; 0x20; 0x12; 0xFE; 0xCD]
  = Some (Packet.Parsed, Packet.mk 3 0x20 0x12 0xFE []).
Proof. reflexivity. Qed.

(** ** Vector primitives *)

Lemma vget_lookup (v : list Z) (n : nat) : vget v (Z.of_nat n) = v !! n.
Proof.
  unfold vget, vsize. rewrite Nat2Z.id. case_decide as H; [done|].
  symmetry. apply lookup_ge_None. lia.
Qed.

Lemma vget_nonneg (v : list Z) (i : Z) :
  0 <= i -> vget v i = v !! Z.to_nat i.
Proof. intros Hi. rewrite <- (Z2Nat.id i) at 1 by done. apply vget_lookup. Qed.

Lemma vget_is_Some (v : list Z) (i : Z) :
  is_Some (vget v i) <-> 0 <= i < vsize v.
Proof.
  unfold vget, vsize. case_decide as H.
  - split; [done|]. intros _. apply lookup_lt_is_Some. lia.
  - split; [|done]. intros [x Hx]. discriminate.
Qed.

Lemma vset_middle (pre post : list Z) (y x : Z) (i : Z) :
  i = vsize pre -> vset (pre ++ y :: post) i x = Some (pre ++ x :: post).
Proof.
  intros ->. unfold vset, vsize. rewrite decide_True.
  - rewrite Nat2Z.id.
    rewrite insert_app_r_alt by lia. by rewrite Nat.sub_diag.
  - rewrite length_app. cbn [length]. lia.
Qed.

Lemma vsize_app (l k : list Z) : vsize (l ++ k) = vsize l + vsize k.
Proof. unfold vsize. rewrite length_app. lia. Qed.

Lemma vsize_cons (x : Z) (l : list Z) : vsize (x :: l) = 1 + vsize l.
Proof. unfold vsize. cbn [length]. lia. Qed.

Lemma vsize_nonneg (l : list Z) : 0 <= vsize l.
Proof. unfold vsize. lia. Qed.

Lemma length_vresize (v : list Z) (n : Z) : length (vresize v n) = Z.to_nat n.
Proof.
  unfold vresize. rewrite length_app, length_take, length_replicate. lia.
Qed.

Lemma u32_small (z : Z) : 0 <= z < 2 ^ 32 -> u32 z = z.
Proof. intros H. unfold u32. by apply Z.mod_small. Qed.

Lemma u8_small (z : Z) : is_u8 z -> u8 z = z.
Proof. intros H. unfold u8. by apply Z.mod_small. Qed.

Lemma land_0xFF (z : Z) : Z.land z 0xFF = z mod 256.
Proof. change 0xFF with (Z.ones 8). by rewrite Z.land_ones. Qed.

(** ** The checksum *)

Lemma sum_bytes_app (l k : list Z) :
  sum_bytes (l ++ k) = sum_bytes l + sum_bytes k.
Proof. unfold sum_bytes. induction l as [|x l IH]; cbn; lia. Qed.

Lemma checksum_loop_sum (packet : list Z) (k a : nat) (sum : Z) :
  (a + k <= length packet)%nat ->
  Packet.checksum_loop packet (seq a k) sum
  = Some (sum + sum_bytes (take k (drop a packet))).
Proof.
  revert a sum. induction k as [|k IH]; intros a sum Hlen.
  - cbn [seq Packet.checksum_loop take]. rewrite take_0.
    unfold sum_bytes. cbn [foldr]. by rewrite Z.add_0_r.
  - cbn [seq Packet.checksum_loop]. rewrite vget_lookup.
    destruct (lookup_lt_is_Some_2 packet a) as [b Hb]; [lia|].
    rewrite Hb. cbn [mbind option_bind]. rewrite IH by lia.
    rewrite (drop_S _ _ _ Hb). cbn [take]. f_equal.
    change (sum_bytes (b :: ?l)) with (b + sum_bytes l). lia.
Qed.

(** [calculateChecksum] covers the bytes at indices 1 to [packet[1] + 1]. *)
Lemma calculateChecksum_covered (packet : list Z) (n : Z) :
  packet !! 1%nat = Some n -> 0 <= n -> n + 2 <= vsize packet ->
  Packet.calculateChecksum packet
  = Some (checksum_of (take (Z.to_nat (n + 1)) (drop 1 packet))).
Proof.
  intros H1 Hn Hsz. unfold Packet.calculateChecksum.
  rewrite vget_nonneg by lia. change (Z.to_nat 1) with 1%nat.
  rewrite H1. cbn [mbind option_bind].
  replace (n + 2 - 1) with (n + 1) by lia.
  rewrite checksum_loop_sum by (unfold vsize in Hsz; lia).
  cbn [mbind option_bind]. by rewrite land_0xFF, Z.add_0_l.
Qed.

(** ** The frame layout *)

Lemma vset_in_bounds (v : list Z) (i x : Z) :
  0 <= i < vsize v -> vset v i x = Some (<[Z.to_nat i := x]> v).
Proof. intros H. unfold vset. by rewrite decide_True. Qed.

(** Writes at the literal indices of the frame header. *)
Ltac vset_literal l :=
  unfold vset; rewrite decide_True
    by (rewrite !vsize_cons; pose proof (vsize_nonneg l); lia);
  reflexivity.

Lemma vset_0 (a x : Z) (l : list Z) : vset (a :: l) 0 x = Some (x :: l).
Proof. vset_literal l. Qed.

Lemma vset_1 (a b x : Z) (l : list Z) :
  vset (a :: b :: l) 1 x = Some (a :: x :: l).
Proof. vset_literal l. Qed.

Lemma vset_2 (a b c x : Z) (l : list Z) :
  vset (a :: b :: c :: l) 2 x = Some (a :: b :: x :: l).
Proof. vset_literal l. Qed.

Lemma vset_3 (a b c d x : Z) (l : list Z) :
  vset (a :: b :: c :: d :: l) 3 x = Some (a :: b :: c :: x :: l).
Proof. vset_literal l. Qed.

Lemma vset_4 (a b c d e x : Z) (l : list Z) :
  vset (a :: b :: c :: d :: e :: l) 4 x = Some (a :: b :: c :: d :: x :: l).
Proof. vset_literal l. Qed.

Lemma split_header_body_tail (l : list Z) (m : nat) :
  length l = (5 + m + 1)%nat ->
  exists a0 a1 a2 a3 a4 old z,
    l = [a0; a1; a2; a3; a4] ++ old ++ [z] /\ length old = m.
Proof.
  intros Hl.
  destruct l as [|a0 [|a1 [|a2 [|a3 [|a4 rest]]]]]; cbn in Hl; try lia.
  destruct (decide (rest = [])) as [->|Hne]; [cbn in Hl; lia|].
  destruct (exists_last Hne) as (old & z & ->).
  exists a0, a1, a2, a3, a4, old, z. split; [done|].
  rewrite length_app in Hl. cbn in Hl. lia.
Qed.

Lemma copy_loop_overwrites (payload pre old post : list Z) (i : Z) :
  vsize pre = 5 + i -> length old = length payload ->
  Packet.copy_loop payload i (pre ++ old ++ post)
  = Some (pre ++ payload ++ post).
Proof.
  revert pre old i.
  induction payload as [|x payload IH]; intros pre old i Hpre Hold.
  - destruct old; [done | discriminate].
  - destruct old as [|o old]; [discriminate|].
    cbn [Packet.copy_loop]. cbn [app].
    rewrite (vset_middle pre (old ++ post) o x) by lia.
    cbn [mbind option_bind].
    change (pre ++ x :: old ++ post) with (pre ++ [x] ++ old ++ post).
    rewrite (app_assoc pre [x] (old ++ post)), (IH (pre ++ [x]) old (i + 1)).
    + by rewrite <- app_assoc.
    + rewrite vsize_app. unfold vsize at 2. cbn [length]. lia.
    + cbn [length] in Hold. lia.
Qed.

(** [fillBuffer] returns for every payload that fits a [size_t]-indexed
    vector together with the six framing bytes: the header fields, the
    payload and a checksum over the bytes that the (truncated) length byte
    designates.  The trailing byte itself is never among them. *)
Lemma fillBuffer_layout (s d c : Z) (payload buf0 : list Z) :
  vsize payload + 6 < 2 ^ 32 ->
  Packet.fillBuffer (Packet.Packet_data s d c payload) buf0
  = Some ([AUX_HDR; u8 (vsize payload + 3); u8 s; u8 d; u8 c] ++ payload
          ++ [checksum_of
                (take (Z.to_nat (u8 (vsize payload + 3) + 1))
                   ([u8 (vsize payload + 3); u8 s; u8 d; u8 c] ++ payload))]).
Proof.
  intros Hlen. pose proof (vsize_nonneg payload) as Hnn.
  unfold Packet.fillBuffer, Packet.Packet_data.
  cbn [Packet.length Packet.source Packet.destination Packet.command
       Packet.data].
  rewrite (u32_small (vsize payload + 3)) by lia.
  rewrite (u32_small (vsize payload + 3 + 3)) by lia.
  assert (Hlenbyte : 0 <= u8 (vsize payload + 3) < 256
                     /\ u8 (vsize payload + 3) <= vsize payload + 3).
  { unfold u8. split; [by apply Z.mod_pos_bound|].
    apply Z.mod_le; lia. }
  generalize dependent (u8 (vsize payload + 3)). intros len Hlenbyte.
  generalize (u8 s) (u8 d) (u8 c). clear s d c. intros s d c.
  destruct (split_header_body_tail (vresize buf0 (vsize payload + 3 + 3))
              (length payload))
    as (a0 & a1 & a2 & a3 & a4 & old & z & -> & Hold).
  { rewrite length_vresize. unfold vsize. lia. }
  cbn [app].
  rewrite vset_0; cbn [mbind option_bind].
  rewrite vset_1; cbn [mbind option_bind].
  rewrite vset_2; cbn [mbind option_bind].
  rewrite vset_3; cbn [mbind option_bind].
  rewrite vset_4; cbn [mbind option_bind].
  change (AUX_HDR :: len :: s :: d :: c :: old ++ [z])
    with ([AUX_HDR; len; s; d; c] ++ old ++ [z]).
  rewrite copy_loop_overwrites by done. cbn [mbind option_bind].
  rewrite (calculateChecksum_covered _ len); [|done|lia|].
  2:{ rewrite !vsize_app. unfold vsize. cbn [length]. unfold vsize in *. lia. }
  cbn [mbind option_bind].
  change (drop 1 ([AUX_HDR; len; s; d; c] ++ payload ++ [z]))
    with ([len; s; d; c] ++ payload ++ [z]).
  rewrite (app_assoc [len; s; d; c] payload [z]).
  rewrite take_app_le.
  2:{ rewrite length_app. cbn [length]. unfold vsize in *. lia. }
  unfold vset_back.
  change ([AUX_HDR; len; s; d; c] ++ payload ++ [z])
    with ((AUX_HDR :: len :: s :: d :: c :: payload) ++ [z]).
  rewrite vset_middle.
  - done.
  - rewrite !vsize_app. unfold vsize. cbn [length]. lia.
Qed.

(** For a payload of at most 252 bytes [fillBuffer] writes exactly the frame
    of the wire format, whatever the buffer held before. *)
Lemma fillBuffer_frame (s d c : Z) (payload buf0 : list Z) :
  vsize payload <= 252 ->
  Packet.fillBuffer (Packet.Packet_data s d c payload) buf0
  = Some (frame (u8 s) (u8 d) (u8 c) payload).
Proof.
  intros Hlen. pose proof (vsize_nonneg payload) as Hnn.
  rewrite fillBuffer_layout by lia. unfold frame. cbv zeta.
  rewrite (u8_small (vsize payload + 3)) by (unfold is_u8; lia).
  rewrite take_ge; [done|].
  rewrite length_app. cbn [length]. unfold vsize. lia.
Qed.

(** [parse] accepts every frame of the wire format and reads its four
    fields back, whatever the receiving object held before. *)
Lemma parse_frame (q : Packet.t) (s d c : Z) (payload : list Z) :
  vsize payload <= 252 ->
  Packet.parse q (frame s d c payload)
  = Some (Packet.Parsed, Packet.mk (vsize payload + 3) s d c payload).
Proof.
  intros Hlen. pose proof (vsize_nonneg payload) as Hnn.
  unfold frame. cbn zeta. set (len := vsize payload + 3).
  set (chk := checksum_of _). cbn [app].
  set (packet := AUX_HDR :: len :: s :: d :: c :: payload ++ [chk]).
  assert (Hsz : vsize packet = vsize payload + 6).
  { unfold packet, vsize. cbn [length]. rewrite length_app. cbn [length].
    lia. }
  unfold Packet.parse. rewrite decide_False by lia.
  rewrite !(vget_nonneg packet) by lia.
  change (packet !! Z.to_nat 0) with (Some AUX_HDR).
  cbn [mbind option_bind]. rewrite decide_False by (intros H; by apply H).
  change (packet !! Z.to_nat 1) with (Some len).
  cbn [mbind option_bind Packet.length].
  rewrite (u32_small (len + 3)) by lia.
  rewrite decide_False by lia.
  change (packet !! Z.to_nat 2) with (Some s).
  change (packet !! Z.to_nat 3) with (Some d).
  change (packet !! Z.to_nat 4) with (Some c).
  cbn [mbind option_bind].
  unfold vrange. rewrite decide_True by lia.
  rewrite Hsz.
  replace (Z.to_nat (vsize payload + 6 - 5 - 1)) with (length payload)
    by (unfold vsize; lia).
  change (drop (Z.to_nat 5) packet) with (payload ++ [chk]).
  rewrite (take_app_length payload [chk]).
  cbn [mbind option_bind Packet.length].
  rewrite (calculateChecksum_covered _ len); [|done|lia|lia].
  cbn [mbind option_bind].
  replace (Z.to_nat (len + 1)) with (4 + length payload)%nat
    by (unfold len, vsize; lia).
  change (take (4 + length payload) (drop 1 packet))
    with (len :: s :: d :: c :: take (length payload) (payload ++ [chk])).
  rewrite (take_app_length payload [chk]).
  rewrite (u32_small (len + 2)) by lia.
  rewrite vget_nonneg by lia.
  replace (Z.to_nat (len + 2)) with (5 + length payload)%nat
    by (unfold len, vsize; lia).
  change (packet !! (5 + length payload)%nat)
    with ((payload ++ [chk]) !! length payload).
  rewrite (list_lookup_middle payload [] chk (length payload)) by done.
  cbn [mbind option_bind]. by rewrite decide_False by (intros H; by apply H).
Qed.

Lemma Target_is_u8 (x : Z) : x ∈ Target.enumerators -> is_u8 x.
Proof.
  unfold Target.enumerators. intros H.
  repeat (apply elem_of_cons in H as [->|H]; [by compute|]).
  by apply elem_of_nil in H.
Qed.

Lemma Command_is_u8 (x : Z) : x ∈ Command.enumerators -> is_u8 x.
Proof.
  unfold Command.enumerators. intros H.
  repeat (apply elem_of_cons in H as [->|H]; [by compute|]).
  by apply elem_of_nil in H.
Qed.

(** ** Round trip *)

(** C1. For every source and destination of [enum Target], every command of
    [enum Command] and every payload of 0 to 252 bytes, [fillBuffer] produces
    a buffer and [parse] applied to that buffer succeeds and recovers exactly
    the source, the destination, the command and the payload (whatever the
    output buffer and the receiving packet held before). *)
Theorem parse_fillBuffer_roundtrip
    (s d c : Z) (payload buf0 : list Z) (q : Packet.t) :
  s ∈ Target.enumerators -> d ∈ Target.enumerators ->
  c ∈ Command.enumerators -> (length payload <= 252)%nat ->
  exists buf p,
    Packet.fillBuffer (Packet.Packet_data s d c payload) buf0 = Some buf
    /\ Packet.parse q buf = Some (Packet.Parsed, p)
    /\ Packet.source p = s /\ Packet.destination p = d
    /\ Packet.command p = c /\ Packet.data p = payload.
Proof.
  intros Hs%Target_is_u8 Hd%Target_is_u8 Hc%Command_is_u8 Hlen.
  assert (Hsz : vsize payload <= 252) by (unfold vsize; lia).
  exists (frame s d c payload), (Packet.mk (vsize payload + 3) s d c payload).
  split.
  - rewrite fillBuffer_frame by done. by rewrite !u8_small.
  - split; [by apply parse_frame | done].
Qed.

Lemma parse_fillBuffer_roundtrip_witness :
  (Target.APP ∈ Target.enumerators /\ Target.FOCUSER ∈ Target.enumerators
   /\ Command.MC_GOTO_FAST ∈ Command.enumerators
   /\ (length [0x01; 0x86; 0xA0]%Z <= 252)%nat)
  /\ exists buf p,
    Packet.fillBuffer
      (Packet.Packet_data Target.APP Target.FOCUSER Command.MC_GOTO_FAST
         [0x01; 0x86; 0xA0]) [0xFF; 0xFF] = Some buf
    /\ Packet.parse Packet.Packet_default buf = Some (Packet.Parsed, p)
    /\ Packet.source p = Target.APP /\ Packet.destination p = Target.FOCUSER
    /\ Packet.command p = Command.MC_GOTO_FAST
    /\ Packet.data p = [0x01; 0x86; 0xA0].
Proof.
  assert (H : Target.APP ∈ Target.enumerators
              /\ Target.FOCUSER ∈ Target.enumerators
              /\ Command.MC_GOTO_FAST ∈ Command.enumerators
              /\ (length [0x01; 0x86; 0xA0]%Z <= 252)%nat).
  { repeat split; [| | |cbn; lia];
      apply (bool_decide_unpack _); vm_compute; exact I. }
  split; [exact H|].
  destruct H as (Hs & Hd & Hc & Hlen).
  exact (parse_fillBuffer_roundtrip _ _ _ _ [0xFF; 0xFF] Packet.Packet_default
           Hs Hd Hc Hlen).
Defined.

(** ** Encoding and the payload bound *)

(** C3, as the code has it.  [fillBuffer] succeeds for every payload (that
    fits, with the six framing bytes, a vector of the 32-bit target) and
    returns [payload.length + 6] bytes; for a payload of at most 252 bytes
    they are the frame of the wire format for the packet's (byte-sized)
    source, destination and command.  The codec has no payload-too-large
    failure: neither the constructor nor [fillBuffer] reports an error. *)
Theorem fillBuffer_succeeds (s d c : Z) (payload buf0 : list Z) :
  vsize payload + 6 < 2 ^ 32 ->
  exists buf,
    Packet.fillBuffer (Packet.Packet_data s d c payload) buf0 = Some buf
    /\ vsize buf = vsize payload + 6
    /\ (vsize payload <= 252 -> buf = frame (u8 s) (u8 d) (u8 c) payload).
Proof.
  intros Hfits. rewrite fillBuffer_layout by done.
  eexists. split; [done|]. split.
  - rewrite !vsize_app. unfold vsize. cbn [length]. lia.
  - intros Hlen. pose proof (fillBuffer_frame s d c payload buf0 Hlen) as H.
    rewrite fillBuffer_layout in H by done.
    apply (inj Some) in H. exact H.
Qed.

Lemma fillBuffer_succeeds_witness :
  vsize [0x05] + 6 < 2 ^ 32
  /\ exists buf,
    Packet.fillBuffer
      (Packet.Packet_data Target.APP Target.FOCUSER Command.MC_MOVE_POS [0x05])
      [] = Some buf
    /\ vsize buf = vsize [0x05] + 6
    /\ (vsize [0x05] <= 252 ->
        buf = frame (u8 Target.APP) (u8 Target.FOCUSER)
                (u8 Command.MC_MOVE_POS) [0x05]).
Proof.
  assert (H : vsize [0x05] + 6 < 2 ^ 32) by reflexivity.
  split; [exact H|].
  exact (fillBuffer_succeeds Target.APP Target.FOCUSER Command.MC_MOVE_POS
           [0x05] [] H).
Defined.

(** C3, as the specification has it, fails: a payload of 253 bytes is not
    refused.  [fillBuffer] returns a 259-byte buffer whose length byte has
    wrapped to 0. *)
Lemma fillBuffer_oversized_payload :
  length (replicate 253 0) = 253%nat
  /\ Packet.fillBuffer
       (Packet.Packet_data Target.APP Target.FOCUSER Command.GET_VER
          (replicate 253 0)) []
     = Some ([0x3B; 0x00; 0x20; 0x12; 0xFE] ++ replicate 253 0 ++ [0x00]).
Proof. split; vm_compute; reflexivity. Qed.

(** ** Decoding *)

(** [parse] is total on byte buffers; its status is the specification's and
    the packet it leaves is [packet_after]. *)
Lemma parse_spec (p : Packet.t) (bytes : list Z) :
  Forall is_u8 bytes ->
  Packet.parse p bytes
  = Some (decode_status bytes, packet_after p bytes (decode_status bytes)).
Proof.
  intros Hbytes. unfold Packet.parse, decode_status.
  case_decide as Hsize; [done|].
  destruct bytes as [|b0 [|b1 [|b2 [|b3 [|b4 rest]]]]];
    try (unfold vsize in Hsize; cbn [length] in Hsize; lia).
  set (bytes := b0 :: b1 :: b2 :: b3 :: b4 :: rest) in *.
  assert (Hb1 : is_u8 b1).
  { apply (Forall_lookup_1 _ _ 1%nat b1) in Hbytes; done. }
  unfold is_u8 in Hb1.
  rewrite !(vget_nonneg bytes) by lia.
  change (bytes !! Z.to_nat 0) with (Some b0).
  change (bytes !! Z.to_nat 1) with (Some b1).
  change (bytes !! Z.to_nat 2) with (Some b2).
  change (bytes !! Z.to_nat 3) with (Some b3).
  change (bytes !! Z.to_nat 4) with (Some b4).
  change (byte_at bytes 0) with b0. change (byte_at bytes 1) with b1.
  cbn [mbind option_bind Packet.length].
  case_decide as Hhdr; [done|].
  rewrite (u32_small (b1 + 3)) by lia.
  case_decide as Hmismatch; [done|].
  unfold vrange. rewrite decide_True by lia. cbn [mbind option_bind].
  rewrite (calculateChecksum_covered bytes b1) by (done || lia).
  cbn [mbind option_bind Packet.length].
  rewrite (u32_small (b1 + 2)) by lia.
  rewrite vget_nonneg by lia.
  replace (Z.to_nat (b1 + 2)) with (pred (length bytes))
    by (unfold vsize in Hmismatch; lia).
  rewrite <- last_lookup.
  change (take _ (drop 1 bytes)) with (covered bytes).
  assert (Hdata :
    take (Z.to_nat (vsize bytes - 5 - 1)) (drop (Z.to_nat 5) bytes)
    = take (length bytes - 6) (drop 5 bytes)).
  { f_equal. unfold vsize. lia. }
  rewrite Hdata.
  destruct (last bytes) as [z|] eqn:Hlast.
  - cbn [mbind option_bind].
    destruct (decide (checksum_of (covered bytes) = z)) as [->|Hne].
    + rewrite decide_False by (intros H; by apply H).
      by rewrite decide_False by (intros H; by apply H).
    + rewrite decide_True by done.
      by rewrite decide_True by congruence.
  - by apply last_None in Hlast.
Qed.

(** C4. For every byte buffer [parse] returns, and it succeeds if and only
    if the buffer has at least 6 bytes, starts with the sentinel 0x3B, has
    [buffer[1] + 3] bytes in all, and the checksum over bytes 1 to
    [length + 1] equals the last byte.  Otherwise it reports the error of the
    first check that fails, the checks being made in this order: too short,
    bad header, size mismatch, checksum mismatch. *)
Theorem parse_succeeds_iff (p : Packet.t) (bytes : list Z) :
  Forall is_u8 bytes ->
  exists s p',
    Packet.parse p bytes = Some (s, p')
    /\ s = decode_status bytes
    /\ (Packet.returned s = true <->
          6 <= vsize bytes /\ byte_at bytes 0 = AUX_HDR
          /\ vsize bytes = byte_at bytes 1 + 3
          /\ Some (checksum_of (covered bytes)) = last bytes).
Proof.
  intros Hbytes.
  exists (decode_status bytes), (packet_after p bytes (decode_status bytes)).
  split; [by apply parse_spec|]. split; [done|].
  unfold decode_status.
  destruct (decide (vsize bytes < 6)) as [Ha|Ha];
    [cbn [Packet.returned]; split; [discriminate | lia]|].
  destruct (decide (byte_at bytes 0 ≠ AUX_HDR)) as [Hb|Hb];
    [cbn [Packet.returned]; split; [discriminate | tauto]|].
  destruct (decide (vsize bytes ≠ byte_at bytes 1 + 3)) as [Hc|Hc];
    [cbn [Packet.returned]; split; [discriminate | tauto]|].
  destruct (decide (Some (checksum_of (covered bytes)) ≠ last bytes))
    as [Hd|Hd]; [cbn [Packet.returned]; split; [discriminate | tauto]|].
  cbn [Packet.returned]. split; [intros _|done].
  apply dec_stable in Hb. apply dec_stable in Hc. apply dec_stable in Hd.
  repeat split; (lia || done).
Qed.

Lemma parse_succeeds_iff_witness :
  Forall is_u8 [0x3B; 0x03; 0x20; 0x12; 0xFE; 0xCD]
  /\ exists s p',
    Packet.parse Packet.Packet_default [0x3B; 0x03; 0x20; 0x12; 0xFE; 0xCD]
    = Some (s, p')
    /\ s = decode_status [0x3B; 0x03; 0x20; 0x12; 0xFE; 0xCD]
    /\ (Packet.returned s = true <->
          6 <= vsize [0x3B; 0x03; 0x20; 0x12; 0xFE; 0xCD]
          /\ byte_at [0x3B; 0x03; 0x20; 0x12; 0xFE; 0xCD] 0 = AUX_HDR
          /\ vsize [0x3B; 0x03; 0x20; 0x12; 0xFE; 0xCD]
             = byte_at [0x3B; 0x03; 0x20; 0x12; 0xFE; 0xCD] 1 + 3
          /\ Some (checksum_of (covered [0x3B; 0x03; 0x20; 0x12; 0xFE; 0xCD]))
             = last [0x3B; 0x03; 0x20; 0x12; 0xFE; 0xCD]).
Proof.
  assert (H : Forall is_u8 [0x3B; 0x03; 0x20; 0x12; 0xFE; 0xCD]).
  { repeat (constructor; [by compute|]). constructor. }
  split; [exact H|].
  exact (parse_succeeds_iff Packet.Packet_default _ H).
Defined.

(** The four errors, one buffer each, in the order of the checks: a short
    buffer with a bad header is too short; a long enough buffer with a bad
    header and a wrong size has a bad header; and so on. *)
Example parse_errors_in_order :
  Packet.parse Packet.Packet_default [0x00; 0x09; 0x20; 0x12; 0xFE]
  = Some (Packet.TooSmall, Packet.Packet_default)
  /\ Packet.parse Packet.Packet_default [0x00; 0x09; 0x20; 0x12; 0xFE; 0x00]
     = Some (Packet.InvalidHeader, Packet.Packet_default)
  /\ fst <$> Packet.parse Packet.Packet_default
               [0x3B; 0x09; 0x20; 0x12; 0xFE; 0x00]
     = Some Packet.SizeMismatch
  /\ fst <$> Packet.parse Packet.Packet_default
               [0x3B; 0x03; 0x20; 0x12; 0xFE; 0x00]
     = Some Packet.ChecksumMismatch.
Proof. repeat split. Qed.

(** ** What a failed [parse] leaves behind *)

(** C7, as the code has it.  A failed [parse] always returns [false].  When
    the failure is a too-short buffer or a bad header, the packet's fields
    are as before the call.  On a size mismatch [length] has already been
    overwritten with byte 1 of the buffer (the other fields are as before);
    on a checksum mismatch all five fields hold what was extracted from the
    buffer. *)
Theorem parse_failure_fields
    (p p' : Packet.t) (bytes : list Z) (s : Packet.status) :
  Forall is_u8 bytes ->
  Packet.parse p bytes = Some (s, p') ->
  Packet.returned s = false ->
  match s with
  | Packet.TooSmall | Packet.InvalidHeader => p' = p
  | Packet.SizeMismatch =>
      Packet.length p' = byte_at bytes 1
      /\ Packet.source p' = Packet.source p
      /\ Packet.destination p' = Packet.destination p
      /\ Packet.command p' = Packet.command p
      /\ Packet.data p' = Packet.data p
  | Packet.ChecksumMismatch =>
      Packet.length p' = byte_at bytes 1
      /\ Packet.source p' = byte_at bytes 2
      /\ Packet.destination p' = byte_at bytes 3
      /\ Packet.command p' = byte_at bytes 4
      /\ Packet.data p' = take (length bytes - 6) (drop 5 bytes)
  | Packet.Parsed => False
  end.
Proof.
  intros Hbytes Hparse Hret. rewrite parse_spec in Hparse by done.
  injection Hparse as <- <-.
  destruct (decode_status bytes); cbn in Hret |- *; done.
Qed.

Lemma parse_failure_fields_witness :
  (Forall is_u8 [0x3B; 0x09; 0x20; 0x12; 0xFE; 0x00]
   /\ Packet.parse Packet.Packet_default [0x3B; 0x09; 0x20; 0x12; 0xFE; 0x00]
      = Some (Packet.SizeMismatch,
              Packet.mk 9 Target.APP Target.FOCUSER Command.GET_VER [])
   /\ Packet.returned Packet.SizeMismatch = false)
  /\ Packet.length (Packet.mk 9 Target.APP Target.FOCUSER Command.GET_VER [])
     = byte_at [0x3B; 0x09; 0x20; 0x12; 0xFE; 0x00] 1
  /\ Packet.source (Packet.mk 9 Target.APP Target.FOCUSER Command.GET_VER [])
     = Packet.source Packet.Packet_default
  /\ Packet.destination
       (Packet.mk 9 Target.APP Target.FOCUSER Command.GET_VER [])
     = Packet.destination Packet.Packet_default
  /\ Packet.command (Packet.mk 9 Target.APP Target.FOCUSER Command.GET_VER [])
     = Packet.command Packet.Packet_default
  /\ Packet.data (Packet.mk 9 Target.APP Target.FOCUSER Command.GET_VER [])
     = Packet.data Packet.Packet_default.
Proof.
  assert (H : Forall is_u8 [0x3B; 0x09; 0x20; 0x12; 0xFE; 0x00]).
  { repeat (constructor; [by compute|]). constructor. }
  split; [split; [exact H | split; reflexivity]|].
  exact (parse_failure_fields Packet.Packet_default _ _ Packet.SizeMismatch
           H eq_refl eq_refl).
Defined.

(** C7, as the specification has it, fails: a frame whose checksum is wrong
    makes [parse] return [false] after it has overwritten every field of a
    freshly constructed packet. *)
Lemma parse_failure_overwrites_fields :
  Packet.parse Packet.Packet_default [0x3B; 0x04; 0x12; 0x20; 0x01; 0x07; 0x00]
  = Some (Packet.ChecksumMismatch, Packet.mk 4 0x12 0x20 0x01 [0x07])
  /\ Packet.returned Packet.ChecksumMismatch = false
  /\ Packet.length (Packet.mk 4 0x12 0x20 0x01 [0x07])
     ≠ Packet.length Packet.Packet_default
  /\ Packet.source (Packet.mk 4 0x12 0x20 0x01 [0x07])
     ≠ Packet.source Packet.Packet_default
  /\ Packet.destination (Packet.mk 4 0x12 0x20 0x01 [0x07])
     ≠ Packet.destination Packet.Packet_default
  /\ Packet.command (Packet.mk 4 0x12 0x20 0x01 [0x07])
     ≠ Packet.command Packet.Packet_default
  /\ Packet.data (Packet.mk 4 0x12 0x20 0x01 [0x07])
     ≠ Packet.data Packet.Packet_default.
Proof. repeat split; discriminate. Qed.

(** ** The port and the clock *)

Lemma result_bind_Ret {A B : Type} (m : result A) (f : A -> result B) (b : B) :
  m ≫= f = Ret b -> exists a, m = Ret a /\ f a = Ret b.
Proof. destruct m as [a| |]; cbn; [eauto | discriminate | discriminate]. Qed.

Lemma elapsed_since (t0 : Z) (w : Serial.t) :
  0 <= Serial.now w - t0 < 2 ^ 32 ->
  u32 (Serial.millis w - u32 t0) = Serial.now w - t0.
Proof.
  intros H. unfold Serial.millis, u32.
  rewrite Zminus_mod_idemp_l, Zminus_mod_idemp_r. by apply Z.mod_small.
Qed.

Lemma delay_0 (w : Serial.t) : Serial.delay 0 w = w.
Proof. destruct w. unfold Serial.delay. cbn. f_equal. lia. Qed.

Lemma delay_delay (a b : Z) (w : Serial.t) :
  Serial.delay a (Serial.delay b w) = Serial.delay (b + a) w.
Proof. destruct w. unfold Serial.delay. cbn. f_equal. lia. Qed.

Lemma silent_not_available (t : Z) (w : Serial.t) :
  silent_until t w -> Serial.now w < t -> Serial.available w = false.
Proof.
  unfold silent_until, Serial.available.
  destruct (Serial.rx w) as [|[at_ b] rest]; [done|].
  intros H1 H2. apply bool_decide_eq_false. lia.
Qed.

Lemma read_keeps (w : Serial.t) :
  Serial.now (Serial.read w).2 = Serial.now w
  /\ Serial.written (Serial.read w).2 = Serial.written w
  /\ Serial.line (Serial.read w).2 = Serial.line w.
Proof.
  unfold Serial.read. destruct (Serial.rx w) as [|[at_ b] rest]; [done|].
  by case_bool_decide.
Qed.

Lemma write_written (buf : list Z) (w : Serial.t) :
  length (Serial.written (Serial.write buf w).2)
  = S (length (Serial.written w)).
Proof.
  unfold Serial.write. destruct (Serial.line w); cbn;
    rewrite length_app; cbn; lia.
Qed.

(** ** The loops over the port *)

Lemma flushSerial_loop_keeps (fuel : nat) :
  forall w w' : Serial.t,
    Communicator.flushSerial_loop fuel w = Ret w' ->
    Serial.now w' = Serial.now w
    /\ Serial.written w' = Serial.written w
    /\ Serial.line w' = Serial.line w.
Proof.
  induction fuel as [|fuel IH]; intros w w' H; cbn in H; [discriminate|].
  destruct (Serial.available w).
  - apply IH in H as (-> & -> & ->). apply read_keeps.
  - by injection H as <-.
Qed.

Lemma flushSerial_loop_total (fuel : nat) :
  forall w : Serial.t,
    (length (Serial.rx w) < fuel)%nat ->
    exists w', Communicator.flushSerial_loop fuel w = Ret w'.
Proof.
  induction fuel as [|fuel IH]; intros w Hfuel; [lia|].
  cbn [Communicator.flushSerial_loop].
  destruct (Serial.available w) eqn:Hav; [|eauto].
  apply IH. unfold Serial.available in Hav. unfold Serial.read.
  destruct (Serial.rx w) as [|[at_ b] rest] eqn:Hrx; [done|].
  rewrite Hav. cbn in *. lia.
Qed.

Lemma collect_loop_keeps (fuel : nat) :
  forall (rawData rawData' : list Z) (startTime : Z) (w w' : Serial.t),
    Communicator.collect_loop fuel rawData startTime w = Ret (rawData', w') ->
    Serial.written w' = Serial.written w /\ Serial.line w' = Serial.line w.
Proof.
  induction fuel as [|fuel IH]; intros rawData rawData' startTime w w' H;
    cbn [Communicator.collect_loop] in H; [discriminate|].
  case_decide; [|by injection H as <- <-].
  destruct (Serial.available w).
  - destruct (Serial.read w) as [b w1] eqn:Hread.
    apply IH in H as [-> ->]. cbn.
    pose proof (read_keeps w) as (_ & Hw & Hl). rewrite Hread in Hw, Hl.
    done.
  - apply IH in H as [-> ->]. done.
Qed.

Lemma collect_loop_total (fuel : nat) :
  forall (rawData : list Z) (t0 : Z) (w : Serial.t),
    0 <= Serial.now w - t0 <= 100 ->
    (101 * length (Serial.rx w) + Z.to_nat (100 - (Serial.now w - t0))
     < fuel)%nat ->
    exists rawData' w',
      Communicator.collect_loop fuel rawData (u32 t0) w = Ret (rawData', w').
Proof.
  induction fuel as [|fuel IH]; intros rawData t0 w Ht Hfuel; [lia|].
  cbn [Communicator.collect_loop]. rewrite elapsed_since by lia.
  case_decide as Hlt; [|eauto].
  destruct (Serial.available w) eqn:Hav.
  - unfold Serial.available in Hav. unfold Serial.read.
    destruct w as [t rx wr ln]. cbn in *.
    destruct rx as [|[at_ b] rest]; [done|]. rewrite Hav.
    change (Serial.millis (Serial.mk t rest wr ln)) with (u32 t).
    apply IH; cbn in *; lia.
  - apply IH; destruct w; cbn in *; lia.
Qed.

(** While nothing arrives the collecting loop only watches the clock: it
    leaves once 100 ms have passed since [startTime]. *)
Lemma collect_loop_idle (k : nat) :
  forall (fuel : nat) (rawData : list Z) (t0 : Z) (w : Serial.t),
    (k < fuel)%nat ->
    0 <= Serial.now w - t0 ->
    Serial.now w - t0 + Z.of_nat k = 100 ->
    silent_until (Serial.now w + Z.of_nat k) w ->
    Communicator.collect_loop fuel rawData (u32 t0) w
    = Ret (rawData, Serial.delay (Z.of_nat k) w).
Proof.
  induction k as [|k IH]; intros fuel rawData t0 w Hfuel Hpos Hk Hsilent;
    (destruct fuel as [|fuel]; [lia|]); cbn [Communicator.collect_loop];
    rewrite elapsed_since by lia.
  - rewrite decide_False by lia. by rewrite delay_0.
  - rewrite decide_True by lia.
    rewrite (silent_not_available _ _ Hsilent) by lia.
    rewrite (IH fuel rawData t0 (Serial.delay 1 w)).
    + rewrite delay_delay. do 3 f_equal. lia.
    + lia.
    + destruct w; cbn in *; lia.
    + destruct w; cbn in *; lia.
    + destruct w as [t rx wr ln]. unfold silent_until in *. cbn in *.
      destruct rx as [|[at_ b] rest]; [done|]. lia.
Qed.

(** ** The read phase *)

(** [readPacket] never writes. *)
Lemma readPacket_written (reply reply' : Packet.t) (w w' : Serial.t)
    (s : Communicator.read_status) :
  Communicator.readPacket reply w = Ret (s, reply', w') ->
  Serial.written w' = Serial.written w.
Proof.
  unfold Communicator.readPacket. intros H.
  apply result_bind_Ret in H as ([rawData w1] & Hcollect & H).
  apply collect_loop_keeps in Hcollect as [Hw _].
  case_decide.
  - by injection H as <- <- <-.
  - apply result_bind_Ret in H as ([s1 r1] & _ & H). by injection H as <- <- <-.
Qed.

(** The collecting loop never runs out of its iteration budget. *)
Lemma readPacket_terminates (reply : Packet.t) (w : Serial.t) :
  Communicator.readPacket reply w ≠ OutOfFuel.
Proof.
  unfold Communicator.readPacket. cbv zeta.
  change (Serial.millis w) with (u32 (Serial.now w)).
  destruct (collect_loop_total (Communicator.collect_fuel w) []
              (Serial.now w) w) as (rawData & w' & ->).
  - lia.
  - unfold Communicator.collect_fuel. lia.
  - cbn [mbind result_bind]. case_decide; [done|].
    by destruct (Communicator.finalize reply rawData) as [[s r]|].
Qed.


(** ** One exchange

    The request is fixed: a communicator, the addressed device, the command
    and its payload. *)

Section Exchange.

Context (c : Communicator.t) (dest cmd : Z) (data : list Z).

(** Every call of [sendPacket] that returns has called [write] once. *)
Lemma sendPacket_written (w w' : Serial.t) (sent : bool) :
  Communicator.sendPacket c dest cmd data w = Ret (sent, w') ->
  length (Serial.written w') = S (length (Serial.written w)).
Proof.
  unfold Communicator.sendPacket. intros H.
  apply result_bind_Ret in H as (txBuffer & _ & H).
  apply result_bind_Ret in H as (w1 & Hflush & H).
  apply flushSerial_loop_keeps in Hflush as (_ & Hw & _).
  pose proof (write_written txBuffer w1) as Hwr.
  destruct (Serial.write txBuffer w1) as [n w2]. cbn in Hwr.
  case_decide; injection H as <- <-; unfold Serial.flush; congruence.
Qed.

Lemma sendPacket_terminates (w : Serial.t) :
  Communicator.sendPacket c dest cmd data w ≠ OutOfFuel.
Proof.
  unfold Communicator.sendPacket.
  destruct (Packet.fillBuffer _ []) as [txBuffer|]; [|done].
  cbn [checked mbind result_bind]. unfold Communicator.flushSerial.
  destruct (flushSerial_loop_total (S (length (Serial.rx w))) w) as [w' ->];
    [lia|].
  cbn [mbind result_bind]. destruct (Serial.write txBuffer w').
  by case_decide.
Qed.

(** Every turn of the loop of [sendCommand] writes exactly one frame. *)
Lemma sendCommand_body_written (w w' : Serial.t) (a : Communicator.attempt) :
  Communicator.sendCommand_body c dest cmd data w = Ret (a, w') ->
  length (Serial.written w') = S (length (Serial.written w)).
Proof.
  unfold Communicator.sendCommand_body. intros H.
  apply result_bind_Ret in H as ([sent w1] & Hsend & H).
  apply sendPacket_written in Hsend.
  destruct sent; cbn [negb] in H.
  - apply result_bind_Ret in H as ([[s r] w2] & Hread & H).
    apply readPacket_written in Hread.
    destruct (negb (Communicator.returned s)); [|case_decide];
      injection H as <- <-; congruence.
  - injection H as <- <-. done.
Qed.

Lemma sendCommand_body_terminates (w : Serial.t) :
  Communicator.sendCommand_body c dest cmd data w ≠ OutOfFuel.
Proof.
  unfold Communicator.sendCommand_body.
  pose proof (sendPacket_terminates w) as Hsend.
  destruct (Communicator.sendPacket c dest cmd data w) as [[sent w1]| |];
    [|done|done].
  cbn [mbind result_bind]. destruct sent; cbn [negb]; [|done].
  pose proof (readPacket_terminates Packet.Packet_default w1) as Hread.
  destruct (Communicator.readPacket Packet.Packet_default w1)
    as [[[s r] w2]| |]; [|done|done].
  cbn [mbind result_bind]. destruct (negb _); [done|]. by case_decide.
Qed.

(** What the body of the loop accepts: a parsed frame that carries the sent
    command, comes from the addressed device and is addressed to
    [Target::APP]. *)
Lemma sendCommand_body_accepts (w w1 w2 : Serial.t) (p : Packet.t) :
  Communicator.sendPacket c dest cmd data w = Ret (true, w1) ->
  Communicator.readPacket Packet.Packet_default w1
  = Ret (Communicator.Decoded Packet.Parsed, p, w2) ->
  Packet.command p = cmd -> Packet.source p = dest ->
  Packet.destination p = Target.APP ->
  Communicator.sendCommand_body c dest cmd data w
  = Ret (Communicator.Accepted p, w2).
Proof.
  intros Hsend Hread Hcmd Hsrc Hdst. unfold Communicator.sendCommand_body.
  rewrite Hsend. cbn [mbind result_bind negb]. rewrite Hread.
  cbn [mbind result_bind negb Communicator.returned Packet.returned].
  rewrite decide_False; [done|]. intros [H|[H|H]]; by apply H.
Qed.

(** A parsed frame that fails the validation is an invalid response, which
    the loop of [sendCommand] handles by [continue]. *)
Lemma sendCommand_body_rejects (w w1 w2 : Serial.t) (p : Packet.t) :
  Communicator.sendPacket c dest cmd data w = Ret (true, w1) ->
  Communicator.readPacket Packet.Packet_default w1
  = Ret (Communicator.Decoded Packet.Parsed, p, w2) ->
  Packet.command p ≠ cmd \/ Packet.destination p ≠ Target.APP
  \/ Packet.source p ≠ dest ->
  Communicator.sendCommand_body c dest cmd data w
  = Ret (Communicator.InvalidResponse p, w2).
Proof.
  intros Hsend Hread Hbad. unfold Communicator.sendCommand_body.
  rewrite Hsend. cbn [mbind result_bind negb]. rewrite Hread.
  cbn [mbind result_bind negb Communicator.returned Packet.returned].
  by rewrite decide_True.
Qed.

Lemma after_attempts_written (n : nat) :
  forall w w' : Serial.t,
    after_attempts n c dest cmd data w = Ret w' ->
    length (Serial.written w') = (length (Serial.written w) + n)%nat.
Proof.
  induction n as [|n IH]; intros w w' H; cbn in H.
  - injection H as <-. lia.
  - apply result_bind_Ret in H as ([a w1] & Hbody & H).
    apply sendCommand_body_written in Hbody. apply IH in H. lia.
Qed.



(** *** The retry loop *)


(** A turn that does not accept a response leads to the next test of the
    loop condition: a failed send, a failed read and an invalid response are
    all handled by [continue]. *)
Lemma sendCommand_loop_continue (fuel : nat) (reply : list Z)
    (retryCount : Z) (w w' : Serial.t) (a : Communicator.attempt) :
  0 <= retryCount < Communicator.RETRY_COUNT ->
  Communicator.sendCommand_body c dest cmd data w = Ret (a, w') ->
  (forall p, a ≠ Communicator.Accepted p) ->
  Communicator.sendCommand_loop (S fuel) c dest cmd data reply retryCount w
  = Communicator.sendCommand_loop fuel c dest cmd data reply (retryCount + 1)
      w'.
Proof.
  intros H Hbody Ha. cbn [Communicator.sendCommand_loop].
  rewrite u32_small by (unfold Communicator.RETRY_COUNT in H; lia).
  rewrite bool_decide_eq_true_2 by lia.
  rewrite Hbody. cbn [mbind result_bind].
  destruct a; try done. by destruct (Ha responsePacket).
Qed.

(** An accepted response ends the call at once. *)
Lemma sendCommand_loop_accept (fuel : nat) (reply : list Z)
    (retryCount : Z) (w w' : Serial.t) (p : Packet.t) :
  0 <= retryCount < Communicator.RETRY_COUNT ->
  Communicator.sendCommand_body c dest cmd data w
  = Ret (Communicator.Accepted p, w') ->
  Communicator.sendCommand_loop (S fuel) c dest cmd data reply retryCount w
  = Ret (true, Packet.data p, w').
Proof.
  intros H Hbody. cbn [Communicator.sendCommand_loop].
  rewrite u32_small by (unfold Communicator.RETRY_COUNT in H; lia).
  rewrite bool_decide_eq_true_2 by lia.
  by rewrite Hbody.
Qed.


Lemma sendCommand_loop_terminates (fuel : nat) (reply : list Z) :
  forall (retryCount : Z) (w : Serial.t),
    0 <= retryCount <= Communicator.RETRY_COUNT ->
    Communicator.RETRY_COUNT - retryCount < Z.of_nat fuel ->
    Communicator.sendCommand_loop fuel c dest cmd data reply retryCount w
    ≠ OutOfFuel.
Proof.
  unfold Communicator.RETRY_COUNT.
  induction fuel as [|fuel IH]; intros retryCount w Hrc Hfuel.
  { cbn in Hfuel. lia. }
  cbn [Communicator.sendCommand_loop]. cbv zeta. rewrite u32_small by lia.
  case_bool_decide as Hlt; [|discriminate].
  pose proof (sendCommand_body_terminates w) as Hbody.
  destruct (Communicator.sendCommand_body c dest cmd data w)
    as [[a w1]| |]; [|done|done].
  cbn [mbind result_bind].
  unfold Communicator.RETRY_COUNT in Hlt.
  destruct a; try (apply IH; lia). done.
Qed.

(** No loop of the exchange runs out of its iteration budget: [sendCommand]
    always returns, unless it reads out of bounds. *)
Lemma sendCommand_terminates (reply : list Z) (w : Serial.t) :
  Communicator.sendCommand c dest cmd data reply w ≠ OutOfFuel.
Proof.
  unfold Communicator.sendCommand. apply sendCommand_loop_terminates;
    unfold Communicator.RETRY_COUNT; lia.
Qed.

(** Whatever the port does, a call of [sendCommand] that returns has made at
    most [RETRY_COUNT] writes. *)
Lemma sendCommand_loop_written (fuel : nat) (reply : list Z) :
  forall (retryCount : Z) (w w' : Serial.t) (ok : bool) (reply' : list Z),
    0 <= retryCount <= Communicator.RETRY_COUNT ->
    Communicator.sendCommand_loop fuel c dest cmd data reply retryCount w
    = Ret (ok, reply', w') ->
    Z.of_nat (length (Serial.written w'))
    <= Z.of_nat (length (Serial.written w))
       + (Communicator.RETRY_COUNT - retryCount).
Proof.
  unfold Communicator.RETRY_COUNT.
  induction fuel as [|fuel IH]; intros retryCount w w' ok reply' Hrc H;
    [discriminate|].
  cbn [Communicator.sendCommand_loop] in H. cbv zeta in H.
  rewrite u32_small in H by lia.
  case_bool_decide as Hlt; [|injection H as <- <- <-; lia].
  unfold Communicator.RETRY_COUNT in Hlt.
  apply result_bind_Ret in H as ([a w1] & Hbody & H).
  apply sendCommand_body_written in Hbody.
  destruct a; try (apply IH in H; lia).
  injection H as <- <- <-. lia.
Qed.

Lemma sendCommand_written (reply reply' : list Z) (w w' : Serial.t)
    (ok : bool) :
  Communicator.sendCommand c dest cmd data reply w = Ret (ok, reply', w') ->
  (length (Serial.written w') <= length (Serial.written w) + 3)%nat.
Proof.
  unfold Communicator.sendCommand. intros H.
  apply sendCommand_loop_written in H;
    unfold Communicator.RETRY_COUNT in *; lia.
Qed.

(** A call that returns [false] leaves the caller's [reply] as it was. *)
Lemma sendCommand_loop_failure_keeps_reply (fuel : nat) (reply : list Z) :
  forall (retryCount : Z) (w w' : Serial.t) (reply' : list Z),
    Communicator.sendCommand_loop fuel c dest cmd data reply retryCount w
    = Ret (false, reply', w') ->
    reply' = reply.
Proof.
  induction fuel as [|fuel IH]; intros retryCount w w' reply' H;
    [discriminate|].
  cbn [Communicator.sendCommand_loop] in H. cbv zeta in H.
  case_bool_decide; [|by injection H as <- <-].
  apply result_bind_Ret in H as ([a w1] & _ & H).
  destruct a; try (by apply IH in H). discriminate.
Qed.

End Exchange.

(** ** The retry bound *)



(** The same exchange, run: three identical frames written, 300 ms spent,
    the caller's buffer untouched. *)
Example sendCommand_dead_line :
  Communicator.sendCommand Communicator.Communicator_default
    Target.FOCUSER Command.GET_VER [] [0x55] (dead_line 0 [])
  = Ret (false, [0x55],
         dead_line 300
           [[0x3B; 0x03; 0x20; 0x12; 0xFE; 0xCD];
            [0x3B; 0x03; 0x20; 0x12; 0xFE; 0xCD];
            [0x3B; 0x03; 0x20; 0x12; 0xFE; 0xCD]]).
Proof. vm_compute. reflexivity. Qed.

(** A peer that answers at once: success on the first attempt, one write. *)
Example sendCommand_first_attempt :
  Communicator.sendCommand Communicator.Communicator_default
    Target.FOCUSER Command.GET_VER [] [] Scenario.answers_to_APP
  = Ret (true, [0x07; 0x01],
         Serial.mk 112 [] [Scenario.request]
           [Serial.mk_reaction 6 (Scenario.version_answer 5);
            Serial.mk_reaction 6 (Scenario.version_answer 5)]).
Proof. vm_compute. reflexivity. Qed.

(** ** Retrying after a stray response *)

(** With the local address [APP], which is the one of the communicator the
    firmware constructs: if the response to the first attempt is a
    well-formed frame whose command is not the one sent, and the response to
    the second attempt is the expected one (same command, from the addressed
    device, to the communicator's local address), then [sendCommand] returns
    [true] with the payload of the second response.  It stops there: the
    port is as the second read left it and has seen two writes. *)
Lemma sendCommand_retries_after_mismatch
    (c : Communicator.t) (dest cmd : Z) (data reply : list Z)
    (w w1 w2 w3 w4 : Serial.t) (p1 p2 : Packet.t) :
  Communicator.source c = Target.APP ->
  Communicator.sendPacket c dest cmd data w = Ret (true, w1) ->
  Communicator.readPacket Packet.Packet_default w1
  = Ret (Communicator.Decoded Packet.Parsed, p1, w2) ->
  Packet.command p1 ≠ cmd ->
  Communicator.sendPacket c dest cmd data w2 = Ret (true, w3) ->
  Communicator.readPacket Packet.Packet_default w3
  = Ret (Communicator.Decoded Packet.Parsed, p2, w4) ->
  expected_response c dest cmd p2 ->
  Communicator.sendCommand c dest cmd data reply w
  = Ret (true, Packet.data p2, w4)
  /\ length (Serial.written w4) = (length (Serial.written w) + 2)%nat.
Proof.
  intros Hc Hsend1 Hread1 Hp1 Hsend2 Hread2 (Hcmd & Hsrc & Hdst).
  rewrite Hc in Hdst.
  pose proof (sendCommand_body_rejects c dest cmd data w w1 w2 p1
                Hsend1 Hread1 (or_introl Hp1)) as Hbody1.
  pose proof (sendCommand_body_accepts c dest cmd data w2 w3 w4 p2
                Hsend2 Hread2 Hcmd Hsrc Hdst) as Hbody2.
  split.
  - unfold Communicator.sendCommand.
    change (Z.to_nat Communicator.RETRY_COUNT + 1)%nat with 4%nat.
    assert (H0 : 0 <= 0 < Communicator.RETRY_COUNT) by (by compute).
    assert (H1 : 0 <= 0 + 1 < Communicator.RETRY_COUNT) by (by compute).
    assert (Hne : forall p, Communicator.InvalidResponse p1
                            ≠ Communicator.Accepted p) by discriminate.
    rewrite (sendCommand_loop_continue _ _ _ _ _ _ _ _ _ _ H0 Hbody1 Hne).
    by rewrite (sendCommand_loop_accept _ _ _ _ _ _ _ _ _ _ H1 Hbody2).
  - apply sendCommand_body_written in Hbody1, Hbody2. lia.
Qed.

Lemma sendCommand_retries_after_mismatch_witness :
  (Communicator.source Communicator.Communicator_default = Target.APP
   /\ Communicator.sendPacket Communicator.Communicator_default
        Target.FOCUSER Command.GET_VER [] Scenario.stray_then_right
      = Ret (true, Scenario.stray_then_right_sent1)
   /\ Communicator.readPacket Packet.Packet_default
        Scenario.stray_then_right_sent1
      = Ret (Communicator.Decoded Packet.Parsed, Scenario.other_packet,
             Scenario.stray_then_right_read1)
   /\ Packet.command Scenario.other_packet ≠ Command.GET_VER
   /\ Communicator.sendPacket Communicator.Communicator_default
        Target.FOCUSER Command.GET_VER [] Scenario.stray_then_right_read1
      = Ret (true, Scenario.stray_then_right_sent2)
   /\ Communicator.readPacket Packet.Packet_default
        Scenario.stray_then_right_sent2
      = Ret (Communicator.Decoded Packet.Parsed, Scenario.version_packet,
             Scenario.stray_then_right_read2)
   /\ expected_response Communicator.Communicator_default
        Target.FOCUSER Command.GET_VER Scenario.version_packet)
  /\ Communicator.sendCommand Communicator.Communicator_default
       Target.FOCUSER Command.GET_VER [] [] Scenario.stray_then_right
     = Ret (true, [0x07; 0x01], Scenario.stray_then_right_read2)
  /\ length (Serial.written Scenario.stray_then_right_read2)
     = (length (Serial.written Scenario.stray_then_right) + 2)%nat.
Proof.
  split.
  - repeat split; try (vm_compute; reflexivity). discriminate.
  - refine (sendCommand_retries_after_mismatch
              Communicator.Communicator_default Target.FOCUSER Command.GET_VER
              [] [] Scenario.stray_then_right Scenario.stray_then_right_sent1
              Scenario.stray_then_right_read1 Scenario.stray_then_right_sent2
              Scenario.stray_then_right_read2 Scenario.other_packet
              Scenario.version_packet eq_refl _ _ _ _ _ _);
      try (vm_compute; reflexivity); [discriminate|].
    repeat split.
Defined.

(** C6, run on the code.  For a communicator constructed with [Target::HC]
    the first attempt is answered by a well-formed frame whose command is
    not the one sent, and the second attempt by the expected response: the
    command sent, from the addressed device, to the communicator's local
    address [HC].  [sendCommand] does not succeed on the second attempt: it
    compares the destination of the response with [Target::APP], rejects
    the expected response, makes a third attempt that nothing answers, and
    returns [false] after three writes, [reply] untouched. *)
Theorem sendCommand_rejects_expected_second_response :
  Communicator.sendPacket (Communicator.Communicator_source Target.HC)
    Target.FOCUSER Command.GET_VER [] Scenario.stray_then_right_HC
  = Ret (true, Scenario.stray_then_right_HC_sent1)
  /\ Communicator.readPacket Packet.Packet_default
       Scenario.stray_then_right_HC_sent1
     = Ret (Communicator.Decoded Packet.Parsed, Scenario.other_packet_to_HC,
            Scenario.stray_then_right_HC_read1)
  /\ Packet.command Scenario.other_packet_to_HC ≠ Command.GET_VER
  /\ Communicator.sendPacket (Communicator.Communicator_source Target.HC)
       Target.FOCUSER Command.GET_VER [] Scenario.stray_then_right_HC_read1
     = Ret (true, Scenario.stray_then_right_HC_sent2)
  /\ Communicator.readPacket Packet.Packet_default
       Scenario.stray_then_right_HC_sent2
     = Ret (Communicator.Decoded Packet.Parsed,
            Scenario.version_packet_to_HC,
            Scenario.stray_then_right_HC_read2)
  /\ expected_response (Communicator.Communicator_source Target.HC)
       Target.FOCUSER Command.GET_VER Scenario.version_packet_to_HC
  /\ Communicator.sendCommand (Communicator.Communicator_source Target.HC)
       Target.FOCUSER Command.GET_VER [] [] Scenario.stray_then_right_HC
     = Ret (false, [],
            Serial.mk 322 []
              [Scenario.request_from_HC; Scenario.request_from_HC;
               Scenario.request_from_HC] []).
Proof.
  split; [vm_compute; reflexivity|].
  split; [vm_compute; reflexivity|].
  split; [by compute|].
  split; [vm_compute; reflexivity|].
  split; [vm_compute; reflexivity|].
  split; [by repeat split|].
  vm_compute; reflexivity.
Qed.

(** ** Validation of the response *)

(** With the default communicator, whose local address is [APP], the
    validation of the code is the one of the specification. *)
Lemma validation_default_communicator (dest cmd : Z) (p : Packet.t) :
  expected_response Communicator.Communicator_default dest cmd p
  <-> ~ (Packet.command p ≠ cmd \/ Packet.destination p ≠ Target.APP
         \/ Packet.source p ≠ dest).
Proof.
  unfold expected_response. cbn [Communicator.source
    Communicator.Communicator_default]. split.
  - intros (H1 & H2 & H3) [H|[H|H]]; by apply H.
  - intros H. repeat split; apply dec_stable; intros Hne; apply H; tauto.
Qed.

(** C2, run on the code.  A communicator constructed with the local address
    [HC] sends its request with source [HC], yet accepts an answer addressed
    to [APP] (first exchange: success on the first attempt) and rejects, three
    times, the answer addressed to itself (second exchange: failure after
    three attempts).  The validation compares the response's destination
    with the constant [Target::APP], not with the communicator's [source]. *)
Theorem sendCommand_validates_against_APP :
  Communicator.source (Communicator.Communicator_source Target.HC)
  ≠ Target.APP
  /\ Packet.destination Scenario.version_packet = Target.APP
  /\ Communicator.sendCommand (Communicator.Communicator_source Target.HC)
       Target.FOCUSER Command.GET_VER [] [] Scenario.answers_to_APP
     = Ret (true, Packet.data Scenario.version_packet,
            Serial.mk 112 [] [Scenario.request_from_HC]
              [Serial.mk_reaction 6 (Scenario.version_answer 5);
               Serial.mk_reaction 6 (Scenario.version_answer 5)])
  /\ Communicator.sendCommand (Communicator.Communicator_source Target.HC)
       Target.FOCUSER Command.GET_VER [] [] Scenario.answers_to_HC
     = Ret (false, [],
            Serial.mk 336 []
              [Scenario.request_from_HC; Scenario.request_from_HC;
               Scenario.request_from_HC] []).
Proof. repeat split; try discriminate; vm_compute; reflexivity. Qed.

(** ** The candidate frame *)

Lemma push_back_loop_app (rest packet : list Z) :
  Communicator.push_back_loop rest packet = packet ++ rest.
Proof.
  revert packet. induction rest as [|x rest IH]; intros packet; cbn.
  - by rewrite app_nil_r.
  - by rewrite IH, <- app_assoc.
Qed.

Lemma build_packet_candidate (first : Z) (rest : list Z) :
  Communicator.build_packet (first :: rest)
  = Some (candidate_frame first rest)
  /\ candidate_frame first rest
     = if decide (first = AUX_HDR) then first :: rest
       else AUX_HDR :: first :: rest.
Proof.
  split; [|done].
  unfold Communicator.build_packet, candidate_frame.
  rewrite vget_nonneg by lia. change (Z.to_nat 0) with 0%nat.
  cbn [lookup list_lookup mbind option_bind].
  destruct (decide (first = AUX_HDR)); [done|].
  by rewrite push_back_loop_app.
Qed.

(** C8. For collected bytes [first :: rest], the frame the receiver builds is
    the sentinel followed by the collected bytes when [first] is not the
    sentinel, and the collected bytes themselves when it is; that frame is
    what the receiver checks the size of and hands to [parse]. *)
Theorem build_packet_prepends_sentinel
    (first : Z) (rest : list Z) (reply : Packet.t) :
  Communicator.build_packet (first :: rest)
  = Some (if decide (first = AUX_HDR) then first :: rest
          else AUX_HDR :: first :: rest)
  /\ Communicator.finalize reply (first :: rest)
     = (length ← vget (candidate_frame first rest) 1;
        if decide (vsize (candidate_frame first rest) ≠ u32 (length + 3))
        then Some (Communicator.PacketSizeMismatch, reply)
        else '(s, reply) ← Packet.parse reply (candidate_frame first rest);
             Some (Communicator.Decoded s, reply)).
Proof.
  destruct (build_packet_candidate first rest) as [Hbuild Hcand].
  split; [by rewrite Hbuild, Hcand|].
  unfold Communicator.finalize. by rewrite Hbuild.
Qed.

Example build_packet_examples :
  Communicator.build_packet [0x05; 0x12; 0x20; 0xFE; 0x07; 0x01; 0xC3]
  = Some [0x3B; 0x05; 0x12; 0x20; 0xFE; 0x07; 0x01; 0xC3]
  /\ Communicator.build_packet [0x3B; 0x05; 0x12; 0x20; 0xFE; 0x07; 0x01; 0xC3]
     = Some [0x3B; 0x05; 0x12; 0x20; 0xFE; 0x07; 0x01; 0xC3].
Proof. split; reflexivity. Qed.

(** ** The read of the length byte *)

(** Except for a lone sentinel, the candidate frame has at least two bytes
    and the read of its length byte is in bounds. *)
Lemma length_read_in_bounds (first : Z) (rest : list Z) :
  first :: rest ≠ [AUX_HDR] ->
  is_Some (vget (candidate_frame first rest) 1).
Proof.
  intros Hne. apply vget_is_Some. unfold candidate_frame.
  case_decide as Hfirst.
  - destruct rest as [|x rest]; [by subst first|].
    rewrite !vsize_cons. pose proof (vsize_nonneg rest). lia.
  - rewrite !vsize_cons. pose proof (vsize_nonneg rest). lia.
Qed.

(** For collected bytes other than a lone sentinel the rest of [readPacket]
    is defined: it answers with a size mismatch or with what [parse] says. *)
Lemma finalize_defined (reply : Packet.t) (first : Z) (rest : list Z) :
  Forall is_u8 (first :: rest) -> first :: rest ≠ [AUX_HDR] ->
  is_Some (Communicator.finalize reply (first :: rest)).
Proof.
  intros Hbytes Hne.
  assert (Hcand : Forall is_u8 (candidate_frame first rest)).
  { unfold candidate_frame. case_decide; [done|].
    constructor; [by compute | done]. }
  destruct (build_packet_candidate first rest) as [Hbuild _].
  unfold Communicator.finalize. rewrite Hbuild. cbn [mbind option_bind].
  destruct (length_read_in_bounds first rest Hne) as [len ->].
  cbn [mbind option_bind]. case_decide; [done|].
  rewrite parse_spec by done. done.
Qed.

(** C10, run on the code.  When the collected bytes are the lone sentinel,
    the candidate frame is that single byte and [packet[1]] is read past its
    end; [readPacket] on a line that delivers just that byte has undefined
    behaviour. *)
Theorem lone_sentinel_length_read_out_of_bounds :
  Communicator.build_packet [AUX_HDR] = Some [AUX_HDR]
  /\ vsize [AUX_HDR] = 1
  /\ vget [AUX_HDR] 1 = None
  /\ Communicator.finalize Packet.Packet_default [AUX_HDR] = None
  /\ Communicator.readPacket Packet.Packet_default Scenario.lone_sentinel
     = OutOfBounds.
Proof. repeat split; vm_compute; reflexivity. Qed.

(** ** The deadline of the read phase *)

(** C9, run on the code.  [readPacket] takes no deadline and [TIMEOUT_MS] is
    used nowhere: with an answer whose first byte comes 350 ms after the
    request, well within [TIMEOUT_MS], the read phase returns "no data" 100 ms
    after it started, and [sendCommand] has failed all three attempts after
    300 ms, the answer still unread on the line. *)
Theorem readPacket_gives_up_after_quiet_interval :
  Communicator.readPacket Packet.Packet_default
    (Serial.mk 0 (Scenario.version_answer 350) [Scenario.request] [])
  = Ret (Communicator.NoData, Packet.Packet_default,
         Serial.mk 100 (Scenario.version_answer 350) [Scenario.request] [])
  /\ Communicator.sendCommand Communicator.Communicator_default
       Target.FOCUSER Command.GET_VER [] [] Scenario.slow_peer
     = Ret (false, [],
            Serial.mk 300 (Scenario.version_answer 350)
              [Scenario.request; Scenario.request; Scenario.request] [])
  /\ 350 < Communicator.TIMEOUT_MS.
Proof. repeat split; vm_compute; reflexivity. Qed.

(** Nor does [TIMEOUT_MS] bound the read phase from above: while bytes keep
    coming less than 100 ms apart, [readPacket] keeps collecting. *)
Example readPacket_outlasts_TIMEOUT_MS :
  exists reply w,
    Communicator.readPacket Packet.Packet_default Scenario.babbling
    = Ret (Communicator.PacketSizeMismatch, reply, w)
    /\ Serial.now w = 3100
    /\ Communicator.TIMEOUT_MS < Serial.now w.
Proof. do 2 eexists. split; [vm_compute; reflexivity|]. by compute. Qed.

(** * Further properties *)

Example bufferToHex_request :
  bufferToHex [0x3B; 0x03; 0x20; 0x12; 0xFE; 0xCD]
  = ["3"; "b"; " "; "0"; "3"; " "; "2"; "0"; " "; "1"; "2"; " "; "f"; "e";
     " "; "c"; "d"]%char.
Proof. reflexivity. Qed.

Example hexToBuffer_examples :
  hexToBuffer ["3"; "b"; " "; "0"; "3"; " "; "F"; "E"]%char = [0x3B; 0x03; 0xFE]
  /\ hexToBuffer ["3"; " "; "B"; "0"; "3"; "f"; "e"; "7"]%char
     = [0x3B; 0x03; 0xFE]
  /\ hexToBuffer ["z"; "z"; "1"; "g"; "-"; "1"; "+"; "2"; "0"; "x"]%char
     = [0x00; 0x01; 0xFF; 0x02; 0x00].
Proof. repeat split. Qed.

(** ** Characters *)

Lemma all_ascii_complete (c : ascii) : c ∈ all_ascii.
Proof.
  unfold all_ascii. apply list_elem_of_fmap.
  exists (nat_of_ascii c). split; [by rewrite ascii_nat_embedding|].
  apply elem_of_seq. pose proof (nat_ascii_bounded c). lia.
Qed.

(** A property checked on the 256 characters holds of every character. *)
Lemma ascii_forallb (P : ascii -> bool) :
  forallb P all_ascii = true -> forall c, P c = true.
Proof.
  intros H c. rewrite forallb_forall in H. apply H.
  apply list_elem_of_In, all_ascii_complete.
Qed.

Lemma pair_decodes_all (a b : ascii) : pair_decodes a b = true.
Proof.
  revert b. apply ascii_forallb. revert a. apply ascii_forallb.
  vm_compute. reflexivity.
Qed.

Lemma xdigit_not_space (c : ascii) (v : Z) :
  xdigit_value c = Some v -> c ≠ " "%char.
Proof. intros H ->. discriminate. Qed.

Lemma utoa_digit_value (d : Z) :
  0 <= d < 16 -> xdigit_value (utoa_digit d) = Some d.
Proof.
  intros H. rewrite <- (Z2Nat.id d) by lia.
  assert (Hn : (Z.to_nat d < 16)%nat) by lia.
  clear H. generalize dependent (Z.to_nat d). clear d. intros n Hn.
  do 16 (destruct n as [|n]; [reflexivity|]). lia.
Qed.

(** ** [hexToBuffer] *)

Lemma hexToBuffer_loop_app (hex : list ascii) (l1 l2 : list nat)
    (result : list Z) :
  hexToBuffer_loop hex (l1 ++ l2) result
  = hexToBuffer_loop hex l2 (hexToBuffer_loop hex l1 result).
Proof.
  revert result. induction l1 as [|i l1 IH]; intros result; [done|].
  cbn [app hexToBuffer_loop]. by case_decide.
Qed.

Lemma hexToBuffer_loop_inside (hex : list ascii) (ks : list nat) :
  forall result : list Z,
    Forall (fun k => 2 * k + 1 < length hex)%nat ks ->
    hexToBuffer_loop hex (map (fun k => 2 * k)%nat ks) result
    = result ++ map (fun k => u8 (strtol (String_substring hex (2 * k)
                                              (2 * k + 2)) 16)) ks.
Proof.
  induction ks as [|k ks IH]; intros result Hks.
  - by rewrite app_nil_r.
  - apply Forall_cons in Hks as [Hk Hks].
    cbn [map hexToBuffer_loop]. rewrite decide_True by lia.
    rewrite IH by done. by rewrite <- app_assoc.
Qed.

Lemma hexToBuffer_loop_outside (hex : list ascii) (ks : list nat) :
  forall result : list Z,
    Forall (fun k => ~ (2 * k + 1 < length hex)%nat) ks ->
    hexToBuffer_loop hex (map (fun k => 2 * k)%nat ks) result = result.
Proof.
  induction ks as [|k ks IH]; intros result Hks; [done|].
  apply Forall_cons in Hks as [Hk Hks].
  cbn [map hexToBuffer_loop]. rewrite decide_False by lia. by apply IH.
Qed.

Lemma half_bounds (n : nat) : (2 * (n / 2) <= n < 2 * (n / 2) + 2)%nat.
Proof.
  pose proof (Nat.div_mod_eq n 2). pose proof (Nat.mod_upper_bound n 2). lia.
Qed.

(** The loop pushes one byte for each complete pair of characters. *)
Lemma hexToBuffer_loop_pairs (hex : list ascii) :
  hexToBuffer_loop hex (even_indices (length hex)) []
  = map (fun k => u8 (strtol (String_substring hex (2 * k) (2 * k + 2)) 16))
      (seq 0 (length hex / 2)).
Proof.
  unfold even_indices. rewrite Nat.div2_div.
  pose proof (half_bounds (length hex)) as Hlen.
  pose proof (half_bounds (S (length hex))) as Hsucc.
  replace (S (length hex) / 2)%nat
    with (length hex / 2 + (S (length hex) / 2 - length hex / 2))%nat by lia.
  rewrite seq_app, map_app, hexToBuffer_loop_app.
  rewrite (hexToBuffer_loop_inside hex (seq 0 (length hex / 2)) []).
  - apply hexToBuffer_loop_outside. apply Forall_forall.
    intros k Hk%elem_of_seq. lia.
  - apply Forall_forall. intros k Hk%elem_of_seq. lia.
Qed.

Lemma substring_pair (text : list ascii) (i : nat) (a b : ascii) :
  text !! i = Some a -> text !! S i = Some b ->
  String_substring text i (i + 2) = [a; b].
Proof.
  intros Ha Hb. unfold String_substring.
  replace (i + 2 - i)%nat with 2%nat by lia.
  rewrite (drop_S _ _ _ Ha), (drop_S _ _ _ Hb). done.
Qed.

(** X3. [hexToBuffer] never fails and yields one byte for every two
    characters other than spaces; an odd character at the end is dropped. *)
Theorem hexToBuffer_length (hex : list ascii) :
  Forall is_char hex ->
  length (hexToBuffer hex) = (length (String_remove_spaces hex) / 2)%nat.
Proof.
  intros _. unfold hexToBuffer. cbv zeta. rewrite hexToBuffer_loop_pairs.
  rewrite length_map, length_seq. unfold String_toUpperCase.
  by rewrite length_map.
Qed.

Lemma hexToBuffer_length_witness :
  Forall is_char ["3"; "b"; " "; "0"; "3"; " "; "f"]%char
  /\ length (hexToBuffer ["3"; "b"; " "; "0"; "3"; " "; "f"]%char)
     = (length (String_remove_spaces ["3"; "b"; " "; "0"; "3"; " "; "f"]%char)
        / 2)%nat.
Proof.
  assert (H : Forall is_char ["3"; "b"; " "; "0"; "3"; " "; "f"]%char).
  { repeat (constructor; [discriminate|]). constructor. }
  split; [exact H|]. exact (hexToBuffer_length _ H).
Defined.

Lemma hexToBuffer_nibbles (hex : list ascii) :
  Forall (fun c => is_Some (xdigit_value c)) (String_remove_spaces hex) ->
  hexToBuffer hex
  = map (fun k => 16 * digit_at (String_remove_spaces hex) (2 * k)
                  + digit_at (String_remove_spaces hex) (2 * k + 1))
      (seq 0 (length (String_remove_spaces hex) / 2)).
Proof.
  intros Hdigits. unfold hexToBuffer. cbv zeta.
  set (text := String_remove_spaces hex) in *.
  rewrite hexToBuffer_loop_pairs. unfold String_toUpperCase.
  rewrite length_map. apply map_ext_in. intros k Hk%in_seq.
  pose proof (half_bounds (length text)) as Hlen.
  destruct (lookup_lt_is_Some_2 text (2 * k)) as [a Ha]; [lia|].
  destruct (lookup_lt_is_Some_2 text (S (2 * k))) as [b Hb]; [lia|].
  rewrite (substring_pair _ _ (toupper a) (toupper b)).
  2:{ change (map toupper text) with (toupper <$> text).
      by rewrite list_lookup_fmap, Ha. }
  2:{ change (map toupper text) with (toupper <$> text).
      by rewrite list_lookup_fmap, Hb. }
  unfold digit_at. replace (2 * k + 1)%nat with (S (2 * k)) by lia.
  rewrite Ha, Hb. cbn [mbind option_bind].
  pose proof (pair_decodes_all a b) as Hpair. unfold pair_decodes in Hpair.
  destruct (Forall_lookup_1 _ _ _ _ Hdigits Ha) as [va Hva].
  destruct (Forall_lookup_1 _ _ _ _ Hdigits Hb) as [vb Hvb].
  rewrite Hva, Hvb in Hpair |- *. cbn [default]. by apply Z.eqb_eq.
Qed.

(** X2. When the characters of a text other than spaces are all hexadecimal
    digits, of either case, [hexToBuffer] reads them two by two, the first
    of each pair as the high nibble: spaces may stand anywhere, also inside a
    pair. *)
Theorem hexToBuffer_digits (hex : list ascii) :
  Forall (fun c => is_Some (xdigit_value c)) (String_remove_spaces hex) ->
  hexToBuffer hex
  = map (fun k => 16 * digit_at (String_remove_spaces hex) (2 * k)
                  + digit_at (String_remove_spaces hex) (2 * k + 1))
      (seq 0 (length (String_remove_spaces hex) / 2)).
Proof. apply hexToBuffer_nibbles. Qed.

Lemma hexToBuffer_digits_witness :
  Forall (fun c => is_Some (xdigit_value c))
    (String_remove_spaces ["3"; " "; "B"; "0"; "3"; "f"; "e"; "7"]%char)
  /\ hexToBuffer ["3"; " "; "B"; "0"; "3"; "f"; "e"; "7"]%char
     = map (fun k =>
              16 * digit_at (String_remove_spaces
                               ["3"; " "; "B"; "0"; "3"; "f"; "e"; "7"]%char)
                     (2 * k)
              + digit_at (String_remove_spaces
                            ["3"; " "; "B"; "0"; "3"; "f"; "e"; "7"]%char)
                  (2 * k + 1))
         (seq 0 (length (String_remove_spaces
                           ["3"; " "; "B"; "0"; "3"; "f"; "e"; "7"]%char) / 2)).
Proof.
  assert (H : Forall (fun c => is_Some (xdigit_value c))
    (String_remove_spaces ["3"; " "; "B"; "0"; "3"; "f"; "e"; "7"]%char)).
  { vm_compute. repeat (constructor; [eexists; reflexivity|]). constructor. }
  split; [exact H|]. exact (hexToBuffer_digits _ H).
Defined.

(** ** [bufferToHex] *)

Lemma String_HEX_padded (x : Z) (result : list ascii) :
  is_u8 x ->
  (if decide (x < 16) then result ++ ["0"%char] else result) ++ String_HEX x
  = result ++ hex_pair x.
Proof.
  intros Hx. unfold String_HEX, hex_pair, is_u8 in *. case_decide as Hlt.
  - rewrite <- app_assoc. rewrite Z.div_small, Z.mod_small by lia. done.
  - done.
Qed.

Lemma bufferToHex_loop_separated (rest : list Z) :
  forall (i : Z) (result : list ascii),
    0 < i -> Forall is_u8 rest ->
    bufferToHex_loop rest i result
    = result ++ flat_map (fun x => " "%char :: hex_pair x) rest.
Proof.
  induction rest as [|x rest IH]; intros i result Hi Hrest.
  - by rewrite app_nil_r.
  - apply Forall_cons in Hrest as [Hx Hrest].
    cbn [bufferToHex_loop flat_map]. cbv zeta.
    rewrite (decide_True (P := i > 0)) by lia.
    rewrite String_HEX_padded by done.
    rewrite IH by (done || lia). by rewrite <- !app_assoc.
Qed.

(** The text of a non-empty buffer: the two digits of the first byte, then
    a space and two digits for each further byte. *)
Lemma bufferToHex_cons (x : Z) (rest : list Z) :
  Forall is_u8 (x :: rest) ->
  bufferToHex (x :: rest)
  = hex_pair x ++ flat_map (fun y => " "%char :: hex_pair y) rest.
Proof.
  intros [Hx Hrest]%Forall_cons. unfold bufferToHex.
  cbn [bufferToHex_loop]. cbv zeta.
  rewrite (decide_False (P := 0 > 0)) by lia.
  rewrite (String_HEX_padded x []) by done.
  by rewrite bufferToHex_loop_separated.
Qed.

(** X1. The text of a buffer of [n] bytes has two characters per byte and
    one space between neighbours: [3 n - 1] characters, none for the empty
    buffer. *)
Theorem bufferToHex_length (data : list Z) :
  Forall is_u8 data ->
  length (bufferToHex data) = (3 * length data - 1)%nat.
Proof.
  intros Hdata. destruct data as [|x rest]; [done|].
  rewrite bufferToHex_cons by done. apply Forall_cons in Hdata as [_ Hrest].
  rewrite length_app. cbn [hex_pair length].
  assert (Hflat : length (flat_map (fun y => " "%char :: hex_pair y) rest)
                  = (3 * length rest)%nat).
  { clear Hrest. induction rest as [|y rest IH]; [done|].
    cbn [flat_map length hex_pair app]. rewrite IH. lia. }
  rewrite Hflat. lia.
Qed.

Lemma bufferToHex_length_witness :
  Forall is_u8 [0x3B; 0x03; 0xFE]
  /\ length (bufferToHex [0x3B; 0x03; 0xFE])
     = (3 * length [0x3B; 0x03; 0xFE]%Z - 1)%nat.
Proof.
  assert (H : Forall is_u8 [0x3B; 0x03; 0xFE]).
  { repeat (constructor; [by compute|]). constructor. }
  split; [exact H|]. exact (bufferToHex_length _ H).
Defined.

Lemma hex_pair_digits (b : Z) :
  is_u8 b ->
  xdigit_value (utoa_digit (b / 16)) = Some (b / 16)
  /\ xdigit_value (utoa_digit (b mod 16)) = Some (b mod 16).
Proof.
  unfold is_u8. intros Hb. split; apply utoa_digit_value.
  - split; [apply Z.div_pos; lia | apply Z.div_lt_upper_bound; lia].
  - apply Z.mod_pos_bound. lia.
Qed.

Lemma remove_spaces_hex_pair (b : Z) :
  is_u8 b -> String_remove_spaces (hex_pair b) = hex_pair b.
Proof.
  intros Hb. destruct (hex_pair_digits b Hb) as [Hhi Hlo].
  apply xdigit_not_space in Hhi, Hlo.
  unfold String_remove_spaces, hex_pair.
  rewrite filter_cons_True by done. rewrite filter_cons_True by done. done.
Qed.

Lemma remove_spaces_bufferToHex (data : list Z) :
  Forall is_u8 data ->
  String_remove_spaces (bufferToHex data) = flat_map hex_pair data.
Proof.
  intros Hdata. destruct data as [|x rest]; [done|].
  rewrite bufferToHex_cons by done. apply Forall_cons in Hdata as [Hx Hrest].
  unfold String_remove_spaces. rewrite filter_app.
  fold (String_remove_spaces (hex_pair x)).
  rewrite remove_spaces_hex_pair by done. cbn [flat_map]. f_equal.
  induction rest as [|y rest IH]; [done|].
  apply Forall_cons in Hrest as [Hy Hrest].
  cbn [flat_map app]. rewrite filter_cons_False by (intros H; by apply H).
  rewrite filter_app. fold (String_remove_spaces (hex_pair y)).
  rewrite remove_spaces_hex_pair by done. by rewrite IH.
Qed.

Lemma flat_map_hex_pair_lookup (data : list Z) :
  forall (k : nat) (b : Z),
    data !! k = Some b ->
    flat_map hex_pair data !! (2 * k)%nat = Some (utoa_digit (b / 16))
    /\ flat_map hex_pair data !! (2 * k + 1)%nat
       = Some (utoa_digit (b mod 16)).
Proof.
  induction data as [|x data IH]; intros k b Hk; [done|].
  destruct k as [|k].
  - injection Hk as ->. done.
  - cbn [flat_map hex_pair app].
    replace (2 * S k)%nat with (S (S (2 * k))) by lia.
    replace (S (S (2 * k)) + 1)%nat with (S (S (2 * k + 1))) by lia.
    cbn [lookup list_lookup]. by apply IH.
Qed.

Lemma length_flat_map_hex_pair (data : list Z) :
  length (flat_map hex_pair data) = (2 * length data)%nat.
Proof. induction data as [|x data IH]; cbn [flat_map length hex_pair app]; lia. Qed.

(** X4. Round trip of the hexadecimal utilities: [hexToBuffer] reads back
    every byte buffer from the text [bufferToHex] prints for it. *)
Theorem hexToBuffer_bufferToHex (data : list Z) :
  Forall is_u8 data -> hexToBuffer (bufferToHex data) = data.
Proof.
  intros Hdata. rewrite hexToBuffer_nibbles.
  - rewrite remove_spaces_bufferToHex by done.
    rewrite length_flat_map_hex_pair.
    replace (2 * length data / 2)%nat with (length data)
      by (symmetry; rewrite Nat.mul_comm; apply Nat.div_mul; lia).
    apply list_eq. intros k.
    change (map ?f ?l) with (f <$> l). rewrite list_lookup_fmap.
    destruct (data !! k) as [b|] eqn:Hb.
    + rewrite lookup_seq_lt by (by apply lookup_lt_Some in Hb).
      cbn [fmap option_fmap option_map]. change (0 + k)%nat with k.
      f_equal. unfold digit_at.
      destruct (flat_map_hex_pair_lookup data k b Hb) as [-> ->].
      cbn [mbind option_bind].
      destruct (hex_pair_digits b (Forall_lookup_1 _ _ _ _ Hdata Hb))
        as [-> ->].
      cbn [default id]. pose proof (Z_div_mod_eq_full b 16). lia.
    + rewrite lookup_seq_ge by (by apply lookup_ge_None in Hb). done.
  - rewrite remove_spaces_bufferToHex by done.
    apply Forall_forall. intros c Hc%list_elem_of_In%in_flat_map.
    destruct Hc as (b & Hb & Hc).
    apply list_elem_of_In in Hb.
    destruct (hex_pair_digits b (proj1 (Forall_forall _ _) Hdata b Hb))
      as [Hhi Hlo].
    unfold hex_pair in Hc. cbn in Hc.
    destruct Hc as [<-|[<-|[]]]; eauto.
Qed.

Lemma hexToBuffer_bufferToHex_witness :
  Forall is_u8 [0x3B; 0x03; 0x20; 0x12; 0xFE; 0xCD]
  /\ hexToBuffer (bufferToHex [0x3B; 0x03; 0x20; 0x12; 0xFE; 0xCD])
     = [0x3B; 0x03; 0x20; 0x12; 0xFE; 0xCD].
Proof.
  assert (H : Forall is_u8 [0x3B; 0x03; 0x20; 0x12; 0xFE; 0xCD]).
  { repeat (constructor; [by compute|]). constructor. }
  split; [exact H|]. exact (hexToBuffer_bufferToHex _ H).
Defined.

(** ** Integrity of a frame *)

Lemma checksum_of_cancels (covered : list Z) :
  (sum_bytes covered + checksum_of covered) mod 256 = 0.
Proof.
  unfold checksum_of. rewrite Z.add_mod_idemp_r by lia.
  replace (sum_bytes covered + - sum_bytes covered) with 0 by lia. done.
Qed.

(** X5. In every frame [fillBuffer] produces for a payload of at most 252
    bytes, the bytes after the sentinel (length, source, destination,
    command, payload and checksum) add up to 0 modulo 256. *)
Theorem fillBuffer_sum_zero (s d c : Z) (payload buf0 buf : list Z) :
  vsize payload <= 252 ->
  Packet.fillBuffer (Packet.Packet_data s d c payload) buf0 = Some buf ->
  buf !! 0%nat = Some AUX_HDR /\ sum_bytes (drop 1 buf) mod 256 = 0.
Proof.
  intros Hlen Hfill. rewrite fillBuffer_frame in Hfill by done.
  injection Hfill as <-. split; [done|].
  unfold frame. cbv zeta. cbn [app drop].
  change (vsize payload + 3 :: u8 s :: u8 d :: u8 c :: payload ++ ?l)
    with ((vsize payload + 3 :: u8 s :: u8 d :: u8 c :: payload) ++ l).
  rewrite sum_bytes_app.
  change (sum_bytes [?x]) with (x + 0). rewrite Z.add_0_r.
  apply checksum_of_cancels.
Qed.

Lemma fillBuffer_sum_zero_witness :
  (vsize [0x01; 0x86; 0xA0] <= 252
   /\ Packet.fillBuffer
        (Packet.Packet_data Target.APP Target.FOCUSER Command.MC_GOTO_FAST
           [0x01; 0x86; 0xA0]) []
      = Some [0x3B; 0x06; 0x20; 0x12; 0x02; 0x01; 0x86; 0xA0; 0x9F])
  /\ [0x3B; 0x06; 0x20; 0x12; 0x02; 0x01; 0x86; 0xA0; 0x9F] !! 0%nat
     = Some AUX_HDR
  /\ sum_bytes (drop 1 [0x3B; 0x06; 0x20; 0x12; 0x02; 0x01; 0x86; 0xA0; 0x9F])
     mod 256 = 0.
Proof.
  assert (H1 : vsize [0x01; 0x86; 0xA0] <= 252) by (by compute).
  assert (H2 : Packet.fillBuffer
        (Packet.Packet_data Target.APP Target.FOCUSER Command.MC_GOTO_FAST
           [0x01; 0x86; 0xA0]) []
      = Some [0x3B; 0x06; 0x20; 0x12; 0x02; 0x01; 0x86; 0xA0; 0x9F])
    by reflexivity.
  split; [by split|]. exact (fillBuffer_sum_zero _ _ _ _ _ _ H1 H2).
Defined.

Lemma sum_bytes_insert (l : list Z) (j : nat) (old b : Z) :
  l !! j = Some old -> sum_bytes (<[j := b]> l) = sum_bytes l - old + b.
Proof.
  unfold sum_bytes. revert j.
  induction l as [|x l IH]; intros [|j] Hj; simplify_eq/=; [lia|].
  rewrite (IH j Hj). lia.
Qed.

Lemma checksum_of_insert (l : list Z) (j : nat) (old b : Z) :
  l !! j = Some old -> is_u8 old -> is_u8 b -> b ≠ old ->
  checksum_of (<[j := b]> l) ≠ checksum_of l.
Proof.
  unfold checksum_of, is_u8. intros Hj Hold Hb Hne Heq.
  rewrite (sum_bytes_insert _ _ _ _ Hj) in Heq.
  assert (H : (b - old) mod 256 = 0).
  { replace (b - old) with (- sum_bytes l - - (sum_bytes l - old + b)) by lia.
    rewrite Zminus_mod, Heq, Z.sub_diag. done. }
  apply Z.mod_divide in H; [|lia]. destruct H as [k Hk]. lia.
Qed.

Lemma decode_status_Parsed (bytes : list Z) :
  decode_status bytes = Packet.Parsed ->
  6 <= vsize bytes /\ byte_at bytes 0 = AUX_HDR
  /\ vsize bytes = byte_at bytes 1 + 3
  /\ Some (checksum_of (covered bytes)) = last bytes.
Proof.
  unfold decode_status. intros H.
  destruct (decide (vsize bytes < 6)); [discriminate|].
  destruct (decide (byte_at bytes 0 ≠ AUX_HDR)) as [|H0]; [discriminate|].
  destruct (decide (vsize bytes ≠ byte_at bytes 1 + 3)) as [|H1];
    [discriminate|].
  destruct (decide (Some (checksum_of (covered bytes)) ≠ last bytes))
    as [|H2]; [discriminate|].
  apply dec_stable in H0, H1, H2. repeat split; (lia || done).
Qed.

(** X6. A frame that [parse] accepts is rejected once any one of its bytes
    has been changed: a changed sentinel is an invalid header, a changed
    length byte a size mismatch, and a change of any other byte (source,
    destination, command, payload or checksum) a checksum mismatch. *)
Theorem parse_rejects_changed_byte
    (q p : Packet.t) (bytes : list Z) (i : nat) (old b : Z) :
  Forall is_u8 bytes ->
  Packet.parse q bytes = Some (Packet.Parsed, p) ->
  bytes !! i = Some old -> is_u8 b -> b ≠ old ->
  exists p',
    Packet.parse q (<[i := b]> bytes) = Some (corruption_status i, p')
    /\ Packet.returned (corruption_status i) = false.
Proof.
  intros Hbytes Hparse Hi Hb Hne.
  rewrite parse_spec in Hparse by done. injection Hparse as Hst _.
  apply decode_status_Parsed in Hst as (Hsize & Hhdr & Hlen & Hsum).
  assert (Hold : is_u8 old) by (by apply (Forall_lookup_1 _ _ _ _ Hbytes Hi)).
  assert (Hbytes' : Forall is_u8 (<[i := b]> bytes)) by (by apply Forall_insert).
  exists (packet_after q (<[i := b]> bytes) (corruption_status i)).
  split; [|by destruct i as [|[|j]]].
  rewrite parse_spec by done.
  cut (decode_status (<[i := b]> bytes) = corruption_status i);
    [by intros ->|].
  destruct bytes as [|b0 [|b1 tail]];
    try (unfold vsize in Hsize; cbn [length] in Hsize; lia).
  change (byte_at (b0 :: b1 :: tail) 0) with b0 in Hhdr.
  change (byte_at (b0 :: b1 :: tail) 1) with b1 in Hlen.
  assert (Hb1 : is_u8 b1) by (by apply (Forall_lookup_1 _ _ 1%nat _ Hbytes)).
  assert (Htail : length tail = S (Z.to_nat b1)).
  { unfold vsize in Hlen. cbn [length] in Hlen. unfold is_u8 in Hb1. lia. }
  unfold covered in Hsum.
  change (byte_at (b0 :: b1 :: tail) 1) with b1 in Hsum.
  replace (Z.to_nat (b1 + 1)) with (S (Z.to_nat b1)) in Hsum
    by (unfold is_u8 in Hb1; lia).
  cbn [drop take] in Hsum.
  change (last (b0 :: b1 :: tail)) with (last (b1 :: tail)) in Hsum.
  unfold decode_status.
  rewrite decide_False
    by (unfold vsize in *; rewrite length_insert; cbn [length] in *; lia).
  destruct i as [|[|j]]; cbn [corruption_status].
  - change (<[0%nat := b]> (b0 :: b1 :: tail)) with (b :: b1 :: tail).
    injection Hi as ->. change (byte_at (b :: b1 :: tail) 0) with b.
    by rewrite decide_True by congruence.
  - change (<[1%nat := b]> (b0 :: b1 :: tail)) with (b0 :: b :: tail).
    injection Hi as ->. change (byte_at (b0 :: b :: tail) 0) with b0.
    change (byte_at (b0 :: b :: tail) 1) with b.
    rewrite decide_False by (intros H; by apply H).
    rewrite decide_True; [done|].
    unfold vsize in *. cbn [length] in *. lia.
  - change (<[S (S j) := b]> (b0 :: b1 :: tail))
      with (b0 :: b1 :: <[j := b]> tail).
    change (byte_at (b0 :: b1 :: <[j:=b]> tail) 0) with b0.
    change (byte_at (b0 :: b1 :: <[j:=b]> tail) 1) with b1.
    change ((b0 :: b1 :: tail) !! S (S j)) with (tail !! j) in Hi.
    rewrite decide_False by (intros H; by apply H).
    rewrite decide_False.
    2:{ intros H; apply H. unfold vsize in *. cbn [length] in *.
        rewrite length_insert. lia. }
    rewrite decide_True; [done|].
    unfold covered.
    change (byte_at (b0 :: b1 :: <[j:=b]> tail) 1) with b1.
    replace (Z.to_nat (b1 + 1)) with (S (Z.to_nat b1))
      by (unfold is_u8 in Hb1; lia).
    cbn [drop take].
    change (last (b0 :: b1 :: <[j:=b]> tail))
      with (last (b1 :: <[j:=b]> tail)).
    assert (Hj : (j < length tail)%nat) by (by apply lookup_lt_Some in Hi).
    rewrite !last_lookup in *. cbn [length Init.Nat.pred] in *.
    rewrite length_insert.
    destruct (decide (j = Z.to_nat b1)) as [->|Hjne].
    + rewrite take_insert_ge by lia.
      rewrite Htail in Hsum |- *.
      change ((b1 :: <[Z.to_nat b1:=b]> tail) !! S (Z.to_nat b1))
        with (<[Z.to_nat b1:=b]> tail !! Z.to_nat b1).
      rewrite list_lookup_insert_eq by lia.
      change ((b1 :: tail) !! S (Z.to_nat b1)) with (tail !! Z.to_nat b1)
        in Hsum.
      rewrite Hi in Hsum. congruence.
    + rewrite take_insert_lt by lia.
      rewrite Htail in Hsum |- *.
      change ((b1 :: <[j:=b]> tail) !! S (Z.to_nat b1))
        with (<[j:=b]> tail !! Z.to_nat b1).
      change ((b1 :: tail) !! S (Z.to_nat b1)) with (tail !! Z.to_nat b1)
        in Hsum.
      rewrite list_lookup_insert_ne by done. rewrite <- Hsum.
      intros [= Heq]. revert Heq.
      change (b1 :: <[j:=b]> (take (Z.to_nat b1) tail))
        with (<[S j := b]> (b1 :: take (Z.to_nat b1) tail)).
      apply (checksum_of_insert _ _ old); try done.
      change ((b1 :: take (Z.to_nat b1) tail) !! S j)
        with (take (Z.to_nat b1) tail !! j).
      rewrite lookup_take_lt by lia. done.
Qed.

Lemma parse_rejects_changed_byte_witness :
  (Forall is_u8 [0x3B; 0x03; 0x20; 0x12; 0xFE; 0xCD]
   /\ Packet.parse Packet.Packet_default [0x3B; 0x03; 0x20; 0x12; 0xFE; 0xCD]
      = Some (Packet.Parsed,
              Packet.mk 3 Target.APP Target.FOCUSER Command.GET_VER [])
   /\ [0x3B; 0x03; 0x20; 0x12; 0xFE; 0xCD] !! 4%nat = Some 0xFE
   /\ is_u8 0x01 /\ 0x01 ≠ 0xFE)
  /\ exists p',
    Packet.parse Packet.Packet_default
      (<[4%nat := 0x01]> [0x3B; 0x03; 0x20; 0x12; 0xFE; 0xCD])
    = Some (corruption_status 4, p')
    /\ Packet.returned (corruption_status 4) = false.
Proof.
  assert (Hbytes : Forall is_u8 [0x3B; 0x03; 0x20; 0x12; 0xFE; 0xCD])
    by (repeat constructor; unfold is_u8; lia).
  assert (Hparse :
    Packet.parse Packet.Packet_default [0x3B; 0x03; 0x20; 0x12; 0xFE; 0xCD]
    = Some (Packet.Parsed,
            Packet.mk 3 Target.APP Target.FOCUSER Command.GET_VER []))
    by reflexivity.
  assert (Hb : is_u8 0x01) by (unfold is_u8; lia).
  split; [repeat split; try done; lia|].
  apply (parse_rejects_changed_byte Packet.Packet_default
           (Packet.mk 3 Target.APP Target.FOCUSER Command.GET_VER [])
           [0x3B; 0x03; 0x20; 0x12; 0xFE; 0xCD] 4 0xFE 0x01);
    [exact Hbytes | exact Hparse | reflexivity | exact Hb | lia].
Defined.

(** * Further properties of the exchange *)

Lemma flushSerial_loop_discards (fuel : nat) :
  forall w : Serial.t,
    (length (Serial.rx w) < fuel)%nat ->
    exists dropped w',
      Communicator.flushSerial_loop fuel w = Ret w'
      /\ Serial.rx w = dropped ++ Serial.rx w'
      /\ Forall (fun e => e.1 <= Serial.now w) dropped
      /\ Serial.available w' = false
      /\ Serial.now w' = Serial.now w
      /\ Serial.written w' = Serial.written w
      /\ Serial.line w' = Serial.line w.
Proof.
  induction fuel as [|fuel IH]; intros w Hfuel; [lia|].
  cbn [Communicator.flushSerial_loop].
  destruct (Serial.available w) eqn:Hav.
  - unfold Serial.available in Hav. unfold Serial.read.
    destruct w as [now rx written line]. cbn in *.
    destruct rx as [|[at_ b] rest]; [done|]. rewrite Hav. cbn [snd].
    destruct (IH (Serial.mk now rest written line)) as
      (dropped & w' & Hloop & Hrx & Hdropped & Hav' & Hnow & Hwr & Hline);
      [cbn in *; lia|].
    cbn in *. exists ((at_, b) :: dropped), w'.
    repeat split; try done; try (by rewrite Hrx).
    constructor; [|done]. cbn. by apply bool_decide_eq_true in Hav.
  - exists [], w. repeat split; try done; constructor.
Qed.

(** X7.  [flushSerial] returns, and discards exactly the bytes that have
    arrived and are first in line: afterwards nothing is available, what is
    left on the line is what had not arrived, and neither the clock, nor what
    was written, nor the peer has changed. *)
Theorem flushSerial_discards_arrived (w : Serial.t) :
  exists dropped w',
    Communicator.flushSerial w = Ret w'
    /\ Serial.rx w = dropped ++ Serial.rx w'
    /\ Forall (fun e => e.1 <= Serial.now w) dropped
    /\ Serial.available w' = false
    /\ Serial.now w' = Serial.now w
    /\ Serial.written w' = Serial.written w
    /\ Serial.line w' = Serial.line w.
Proof. apply flushSerial_loop_discards. lia. Qed.

Lemma sendPacket_frame
    (c : Communicator.t) (dest cmd : Z) (data : list Z) (w : Serial.t) :
  vsize data <= 252 ->
  exists (sent : bool) (w' : Serial.t) (k : nat),
    Communicator.commandBlind c dest cmd data w = Ret (sent, w')
    /\ (exists dropped remaining,
          Serial.rx w = dropped ++ remaining
          /\ Forall (fun e => e.1 <= Serial.now w) dropped
          /\ Serial.rx w' = remaining ++ next_answer w)
    /\ Serial.written w'
       = Serial.written w
         ++ [take k (frame (u8 (Communicator.source c)) (u8 dest) (u8 cmd)
                       data)]
    /\ (k <= length data + 6)%nat
    /\ (sent = true <-> k = (length data + 6)%nat).
Proof.
  intros Hlen. unfold Communicator.commandBlind, Communicator.sendPacket.
  rewrite fillBuffer_frame by done. cbn [checked mbind result_bind].
  unfold Communicator.flushSerial.
  destruct (flushSerial_loop_discards (S (length (Serial.rx w))) w)
    as (dropped & w1 & -> & Hrx & Hdropped & _ & Hnow & Hwr & Hline); [lia|].
  cbn [mbind result_bind].
  assert (Hsize : length (frame (u8 (Communicator.source c)) (u8 dest)
                            (u8 cmd) data) = (length data + 6)%nat).
  { unfold frame. cbv zeta. rewrite !length_app. cbn [length]. lia. }
  set (txBuffer := frame _ _ _ data) in *.
  assert (Hleft : forall answer,
             answer = next_answer w ->
             exists dropped remaining,
               Serial.rx w = dropped ++ remaining
               /\ Forall (fun e => e.1 <= Serial.now w) dropped
               /\ Serial.rx w1 ++ answer = remaining ++ next_answer w).
  { intros answer ->. by exists dropped, (Serial.rx w1). }
  unfold Serial.write. rewrite <- Hwr.
  destruct (Serial.line w1) as [|r rest] eqn:Hline1.
  - rewrite decide_False by (intros H; by apply H).
    eexists true, _, (length data + 6)%nat.
    unfold Serial.flush. split; [done|].
    cbn [Serial.now Serial.written Serial.rx].
    split.
    { rewrite <- (app_nil_r (Serial.rx w1)). apply Hleft.
      unfold next_answer. by rewrite <- Hline. }
    rewrite take_ge by lia. done.
  - set (n := Z.max 0 (Z.min (Serial.accepts r) (vsize txBuffer))).
    assert (Hn : 0 <= n <= Z.of_nat (length data + 6))
      by (unfold n, vsize; lia).
    assert (Hanswer :
      map (fun '(after, b) => (Serial.now w1 + after, b)) (Serial.answer r)
      = next_answer w)
      by (unfold next_answer; by rewrite <- Hline, <- Hnow).
    case_decide as Hne.
    + eexists false, _, (Z.to_nat n). split; [done|].
      cbn [Serial.now Serial.written Serial.rx].
      split; [by apply Hleft|].
      repeat split; try done; unfold vsize in *; lia.
    + eexists true, _, (Z.to_nat n). split; [done|].
      unfold Serial.flush. cbn [Serial.now Serial.written Serial.rx].
      split; [by apply Hleft|].
      repeat split; try done; unfold vsize in *; lia.
Qed.

(** X8.  For a payload of at most 252 bytes [commandBlind] (that is,
    [sendPacket]) returns after one write of the frame of the request, with
    the communicator's address as source, or of the prefix of it that the
    port took; it answers [true] exactly when the port took the whole frame.
    It reads nothing after the write: of the received bytes it has taken
    only bytes that had arrived before the call, and what the peer answers
    is left on the line. *)
Theorem commandBlind_writes_frame
    (c : Communicator.t) (dest cmd : Z) (data : list Z) (w : Serial.t) :
  vsize data <= 252 ->
  exists (sent : bool) (w' : Serial.t) (k : nat),
    Communicator.commandBlind c dest cmd data w = Ret (sent, w')
    /\ (exists dropped remaining,
          Serial.rx w = dropped ++ remaining
          /\ Forall (fun e => e.1 <= Serial.now w) dropped
          /\ Serial.rx w' = remaining ++ next_answer w)
    /\ Serial.written w'
       = Serial.written w
         ++ [take k (frame (u8 (Communicator.source c)) (u8 dest) (u8 cmd)
                       data)]
    /\ (k <= length data + 6)%nat
    /\ (sent = true <-> k = (length data + 6)%nat).
Proof. apply sendPacket_frame. Qed.

Lemma commandBlind_writes_frame_witness :
  vsize [0x01; 0x86; 0xA0] <= 252
  /\ exists (sent : bool) (w' : Serial.t) (k : nat),
    Communicator.commandBlind Communicator.Communicator_default
      Target.FOCUSER Command.MC_GOTO_FAST [0x01; 0x86; 0xA0]
      Scenario.answers_to_APP
    = Ret (sent, w')
    /\ (exists dropped remaining,
          Serial.rx Scenario.answers_to_APP = dropped ++ remaining
          /\ Forall (fun e => e.1 <= Serial.now Scenario.answers_to_APP)
               dropped
          /\ Serial.rx w' = remaining ++ next_answer Scenario.answers_to_APP)
    /\ Serial.written w'
       = Serial.written Scenario.answers_to_APP
         ++ [take k (frame (u8 (Communicator.source
                                  Communicator.Communicator_default))
                       (u8 Target.FOCUSER) (u8 Command.MC_GOTO_FAST)
                       [0x01; 0x86; 0xA0])]
    /\ (k <= length [0x01; 0x86; 0xA0]%Z + 6)%nat
    /\ (sent = true <-> k = (length [0x01; 0x86; 0xA0]%Z + 6)%nat).
Proof.
  assert (H : vsize [0x01; 0x86; 0xA0] <= 252) by (vm_compute; discriminate).
  split; [exact H|].
  exact (commandBlind_writes_frame Communicator.Communicator_default
           Target.FOCUSER Command.MC_GOTO_FAST [0x01; 0x86; 0xA0]
           Scenario.answers_to_APP H).
Defined.

(** ** The receive loop, by arrivals *)

(** Turns of the loop during which nothing can be read only let time pass. *)
Lemma collect_loop_skip (k : nat) :
  forall (fuel : nat) (rawData : list Z) (t0 : Z) (w : Serial.t),
    0 <= Serial.now w - t0 ->
    Serial.now w - t0 + Z.of_nat k <= 100 ->
    ((0 < k)%nat -> silent_until (Serial.now w + Z.of_nat k) w) ->
    Communicator.collect_loop (k + fuel) rawData (u32 t0) w
    = Communicator.collect_loop fuel rawData (u32 t0)
        (Serial.delay (Z.of_nat k) w).
Proof.
  induction k as [|k IH]; intros fuel rawData t0 w H0 Hk Hsilent.
  - by rewrite delay_0.
  - cbn [Nat.add Communicator.collect_loop].
    rewrite elapsed_since by lia. rewrite decide_True by lia.
    specialize (Hsilent ltac:(lia)).
    rewrite (silent_not_available _ _ Hsilent) by lia.
    rewrite IH.
    + rewrite delay_delay. do 2 f_equal. lia.
    + cbn. lia.
    + cbn. lia.
    + intros _. unfold silent_until in *. cbn.
      destruct (Serial.rx w) as [|[at_ b] rest]; [done|]. lia.
Qed.

Lemma collect_loop_assemble (rx : list (Z * Z)) :
  forall (fuel : nat) (rawData : list Z) (t0 now : Z)
         (written : list (list Z)) (line : list Serial.reaction),
    0 <= now - t0 <= 100 ->
    (101 * length rx + Z.to_nat (100 - (now - t0)) < fuel)%nat ->
    Communicator.collect_loop fuel rawData (u32 t0)
      (Serial.mk now rx written line)
    = let '(bytes, t_end, remaining) := assemble rx t0 now in
      Ret (rawData ++ bytes, Serial.mk t_end remaining written line).
Proof.
  induction rx as [|[at_ b] rest IH];
    intros fuel rawData t0 now written line Hnow Hfuel.
  - cbn [assemble]. rewrite app_nil_r.
    rewrite (collect_loop_idle (Z.to_nat (100 - (now - t0))));
      cbn [Serial.now length] in *; try lia; [|done].
    rewrite Z2Nat.id by lia. unfold Serial.delay.
    cbn [Serial.now Serial.rx Serial.written Serial.line].
    by replace (now + (100 - (now - t0))) with (t0 + 100) by lia.
  - cbn [assemble]. cbv zeta. cbn [length] in Hfuel.
    destruct (decide (Z.max now at_ < t0 + 100)) as [Hlt|Hge].
    + remember (Z.to_nat (Z.max now at_ - now)) as k eqn:Hk.
      replace fuel with (k + S (fuel - k - 1))%nat by lia.
      rewrite collect_loop_skip; cbn [Serial.now]; try lia;
        [|intros Hk0; unfold silent_until; cbn; lia].
      unfold Serial.delay. cbn [Serial.now Serial.rx Serial.written
                                 Serial.line].
      replace (now + Z.of_nat k) with (Z.max now at_) by lia.
      cbn [Communicator.collect_loop].
      rewrite elapsed_since by (cbn; lia). cbn [Serial.now].
      rewrite decide_True by lia.
      unfold Serial.available, Serial.read. cbn [Serial.rx Serial.now].
      rewrite bool_decide_eq_true_2 by lia. cbv zeta.
      unfold Serial.delay, Serial.millis.
      cbn [Serial.now Serial.rx Serial.written Serial.line].
      rewrite IH by lia.
      destruct (assemble rest (Z.max now at_) (Z.max now at_ + 1))
        as [[bytes t_end] left].
      by rewrite <- app_assoc.
    + rewrite app_nil_r.
      destruct (decide (now = t0 + 100)) as [->|Hne].
      * destruct fuel as [|fuel]; [lia|]. cbn [Communicator.collect_loop].
        rewrite elapsed_since by (cbn; lia). cbn [Serial.now].
        by rewrite decide_False by lia.
      * rewrite (collect_loop_idle (Z.to_nat (100 - (now - t0))));
          cbn [Serial.now] in *; try lia.
        -- rewrite Z2Nat.id by lia. unfold Serial.delay.
           cbn [Serial.now Serial.rx Serial.written Serial.line].
           by replace (now + (100 - (now - t0))) with (t0 + 100) by lia.
        -- unfold silent_until. cbn. lia.
Qed.

Lemma assemble_consumed (rx : list (Z * Z)) :
  forall (t0 now : Z) (bytes : list Z) (t_end : Z) (left : list (Z * Z)),
    now < t0 + 100 ->
    assemble rx t0 now = (bytes, t_end, left) ->
    exists consumed,
      rx = consumed ++ left
      /\ bytes = map (fun e => u8 e.2) consumed
      /\ Forall (fun e => e.1 < t_end) consumed
      /\ now < t_end
      /\ silent_until t_end (Serial.mk t_end left [] []).
Proof.
  induction rx as [|[at_ b] rest IH]; intros t0 now bytes t_end left Hnow H;
    cbn [assemble] in H.
  - injection H as <- <- <-. exists [].
    split; [done|]. split; [done|]. split; [constructor|]. split; [lia|done].
  - cbv zeta in H. case_decide as Hlt.
    + destruct (assemble rest (Z.max now at_) (Z.max now at_ + 1))
        as [[bytes1 t_end1] left1] eqn:Hrec.
      injection H as <- <- <-.
      apply IH in Hrec as (consumed & -> & -> & Hall & Hle & Hsilent);
        [|lia].
      exists ((at_, b) :: consumed).
      split; [done|]. split; [done|].
      split; [constructor; [cbn; lia | done]|]. split; [lia|done].
    + injection H as <- <- <-. exists [].
      split; [done|]. split; [done|]. split; [constructor|]. split; [lia|].
      unfold silent_until. cbn. lia.
Qed.

Lemma readPacket_assemble (reply : Packet.t) (w : Serial.t) :
  Communicator.readPacket reply w
  = let '(bytes, t_end, remaining) :=
      assemble (Serial.rx w) (Serial.now w) (Serial.now w) in
    let w' := Serial.mk t_end remaining (Serial.written w) (Serial.line w) in
    if decide (bytes = []) then Ret (Communicator.NoData, reply, w')
    else '(s, reply) ← checked (Communicator.finalize reply bytes);
         Ret (s, reply, w').
Proof.
  unfold Communicator.readPacket. cbv zeta.
  change (Serial.millis w) with (u32 (Serial.now w)).
  destruct w as [now rx written line]. cbn [Serial.now Serial.rx
    Serial.written Serial.line].
  rewrite collect_loop_assemble;
    [|lia|unfold Communicator.collect_fuel; cbn; lia].
  destruct (assemble rx now now) as [[bytes t_end] left].
  cbn [mbind result_bind app]. done.
Qed.

(** X9.  The receive loop of [readPacket] takes the bytes in the order of
    the line, each as soon as it has arrived and at most one per
    millisecond, and ends 100 ms after the last byte it took: [readPacket]
    is the decoding of the bytes that the description by arrivals
    ([assemble]) gives, and leaves the clock and the line as it does. *)
Theorem readPacket_by_arrivals (reply : Packet.t) (w : Serial.t) :
  Communicator.readPacket reply w
  = let '(bytes, t_end, remaining) :=
      assemble (Serial.rx w) (Serial.now w) (Serial.now w) in
    let w' := Serial.mk t_end remaining (Serial.written w) (Serial.line w) in
    if decide (bytes = []) then Ret (Communicator.NoData, reply, w')
    else '(s, reply) ← checked (Communicator.finalize reply bytes);
         Ret (s, reply, w').
Proof. apply readPacket_assemble. Qed.


(** ** What an accepted answer is *)

(** Bytes that pass the four checks of the decoder are a frame of the wire
    format. *)
Lemma decode_status_frame (bytes : list Z) :
  decode_status bytes = Packet.Parsed ->
  bytes = frame (byte_at bytes 2) (byte_at bytes 3) (byte_at bytes 4)
            (take (length bytes - 6) (drop 5 bytes))
  /\ vsize (take (length bytes - 6) (drop 5 bytes)) = byte_at bytes 1 - 3.
Proof.
  intros H. apply decode_status_Parsed in H as (Hsize & Hhdr & Hlen & Hsum).
  remember (checksum_of (covered bytes)) as ck eqn:Hck.
  symmetry in Hsum. apply last_Some in Hsum as [front ->].
  unfold vsize in *. rewrite length_app in *. cbn [length] in *.
  destruct front as [|b0 [|b1 [|b2 [|b3 [|b4 payload]]]]];
    try (cbn [length] in Hsize; lia).
  cbn [app length] in *.
  change (byte_at (b0 :: _) 0) with b0 in *.
  change (byte_at (b0 :: b1 :: ?l) 1) with b1 in *.
  change (byte_at (b0 :: b1 :: b2 :: ?l) 2) with b2.
  change (byte_at (b0 :: b1 :: b2 :: b3 :: ?l) 3) with b3.
  change (byte_at (b0 :: b1 :: b2 :: b3 :: b4 :: ?l) 4) with b4.
  replace (S (S (S (S (S (length payload))))) + 1 - 6)%nat
    with (length payload) by lia.
  change (drop 5 (b0 :: b1 :: b2 :: b3 :: b4 :: payload ++ [ck]))
    with (payload ++ [ck]).
  rewrite take_app_length. split; [|lia].
  unfold covered in Hck.
  change (byte_at (b0 :: b1 :: ?l) 1) with b1 in Hck.
  change (drop 1 (b0 :: b1 :: b2 :: b3 :: b4 :: payload ++ [ck]))
    with (b1 :: b2 :: b3 :: b4 :: payload ++ [ck]) in Hck.
  replace (Z.to_nat (b1 + 1)) with (4 + length payload)%nat in Hck by lia.
  cbn [Nat.add take] in Hck. rewrite take_app_length in Hck.
  unfold frame, vsize. cbv zeta. cbn [app].
  replace (Z.of_nat (length payload) + 3) with b1 by lia.
  by rewrite Hhdr, Hck.
Qed.

Lemma finalize_Parsed (reply p : Packet.t) (bytes : list Z) :
  Forall is_u8 bytes ->
  Communicator.finalize reply bytes
  = Some (Communicator.Decoded Packet.Parsed, p) ->
  exists packet,
    (packet = bytes \/ packet = AUX_HDR :: bytes)
    /\ decode_status packet = Packet.Parsed
    /\ p = extracted packet.
Proof.
  intros Hbytes H. destruct bytes as [|first rest]; [discriminate|].
  destruct (build_packet_candidate first rest) as [Hbuild Hcand].
  assert (Hu8 : Forall is_u8 (candidate_frame first rest)).
  { rewrite Hcand. case_decide; [done|]. constructor; [by compute|done]. }
  unfold Communicator.finalize in H.
  apply bind_Some in H as (packet & Hb & H).
  rewrite Hbuild in Hb. injection Hb as <-.
  apply bind_Some in H as (len & _ & H).
  destruct (decide (vsize (candidate_frame first rest) ≠ u32 (len + 3)));
    [discriminate|].
  rewrite parse_spec in H by done.
  apply bind_Some in H as ([s1 p1] & [= <- <-] & [= Hst Hp]).
  exists (candidate_frame first rest).
  split; [rewrite Hcand; case_decide; auto|].
  split; [done|]. by rewrite Hst in Hp.
Qed.

Lemma readPacket_inv (reply p : Packet.t) (w w' : Serial.t)
    (s : Communicator.read_status) :
  Communicator.readPacket reply w = Ret (s, p, w') ->
  exists consumed bytes,
    Serial.rx w = consumed ++ Serial.rx w'
    /\ bytes = map (fun e => u8 e.2) consumed
    /\ Forall (fun e => e.1 < Serial.now w') consumed
    /\ Serial.now w < Serial.now w'
    /\ silent_until (Serial.now w') w'
    /\ Serial.written w' = Serial.written w
    /\ Serial.line w' = Serial.line w
    /\ (bytes = [] /\ s = Communicator.NoData /\ p = reply
        \/ bytes ≠ [] /\ Communicator.finalize reply bytes = Some (s, p)).
Proof.
  rewrite readPacket_assemble.
  destruct (assemble (Serial.rx w) (Serial.now w) (Serial.now w))
    as [[bytes t_end] left] eqn:Hasm.
  apply assemble_consumed in Hasm
    as (consumed & Hrx & Hbytes & Hall & Hnow & Hsilent); [|lia].
  cbv zeta. intros H. exists consumed, bytes.
  case_decide as Hempty.
  - injection H as <- <- <-. cbn. repeat split; try done. by left.
  - destruct (Communicator.finalize reply bytes) as [[s1 p1]|];
      [|discriminate].
    cbn [checked mbind result_bind] in H. injection H as <- <- <-. cbn.
    repeat split; try done. by right.
Qed.

Lemma readPacket_Parsed
    (reply p : Packet.t) (w w' : Serial.t) :
  Communicator.readPacket reply w
  = Ret (Communicator.Decoded Packet.Parsed, p, w') ->
  exists consumed packet,
    Serial.rx w = consumed ++ Serial.rx w'
    /\ (packet = map (fun e => u8 e.2) consumed
        \/ packet = AUX_HDR :: map (fun e => u8 e.2) consumed)
    /\ packet = frame (Packet.source p) (Packet.destination p)
                  (Packet.command p) (Packet.data p)
    /\ Packet.length p = vsize (Packet.data p) + 3
    /\ vsize (Packet.data p) <= 252
    /\ Forall is_u8 (Packet.data p)
    /\ Serial.now w < Serial.now w'
    /\ silent_until (Serial.now w') w'
    /\ Serial.written w' = Serial.written w.
Proof.
  intros H. apply readPacket_inv in H
    as (consumed & bytes & Hrx & -> & _ & Hnow & Hsilent & Hwr & _ & H).
  destruct H as [(_ & [=] & _)|[_ H]].
  assert (Hu8 : Forall is_u8 (map (fun e : Z * Z => u8 e.2) consumed)).
  { apply Forall_forall. intros x (e & -> & _)%list_elem_of_fmap.
    unfold is_u8, u8. apply Z.mod_pos_bound. lia. }
  apply finalize_Parsed in H as (packet & Hpacket & Hst & ->); [|done].
  assert (Hu8' : Forall is_u8 packet).
  { destruct Hpacket as [->| ->]; [done|]. constructor; [by compute|done]. }
  pose proof (decode_status_Parsed _ Hst) as (_ & _ & Hlen & _).
  apply decode_status_frame in Hst as [Hframe Hsize].
  exists consumed, packet. cbn [extracted Packet.source Packet.destination
    Packet.command Packet.data Packet.length].
  split; [done|]. split; [done|]. split; [done|]. split; [lia|].
  assert (H1 : is_u8 (byte_at packet 1)).
  { unfold byte_at. destruct (packet !! 1%nat) as [b|] eqn:Hb;
      [by apply (Forall_lookup_1 _ _ _ _ Hu8' Hb) | by compute]. }
  split; [unfold is_u8 in H1; lia|].
  split; [by apply Forall_take, Forall_drop|]. done.
Qed.

(** X10.  [readPacket] returns [true] only on a frame: the bytes it took
    from the front of the line are, with the sentinel put back when the
    first of them is not the sentinel, exactly the frame of the packet it
    returns, whose payload has at most 252 bytes.  Time has passed, nothing
    was written, and no byte left on the line had arrived before the call
    ended. *)
Theorem readPacket_accepts_only_frames
    (reply p : Packet.t) (w w' : Serial.t) :
  Communicator.readPacket reply w
  = Ret (Communicator.Decoded Packet.Parsed, p, w') ->
  exists consumed packet,
    Serial.rx w = consumed ++ Serial.rx w'
    /\ (packet = map (fun e => u8 e.2) consumed
        \/ packet = AUX_HDR :: map (fun e => u8 e.2) consumed)
    /\ packet = frame (Packet.source p) (Packet.destination p)
                  (Packet.command p) (Packet.data p)
    /\ Packet.length p = vsize (Packet.data p) + 3
    /\ vsize (Packet.data p) <= 252
    /\ Serial.now w < Serial.now w'
    /\ silent_until (Serial.now w') w'
    /\ Serial.written w' = Serial.written w.
Proof.
  intros H. apply readPacket_Parsed in H
    as (consumed & packet & H1 & H2 & H3 & H4 & H5 & _ & H6 & H7 & H8).
  by exists consumed, packet.
Qed.

Lemma readPacket_accepts_only_frames_witness :
  Communicator.readPacket Packet.Packet_default
    (Serial.mk 0 (Scenario.version_answer 5) [] [])
  = Ret (Communicator.Decoded Packet.Parsed, Scenario.version_packet,
         Serial.mk 112 [] [] [])
  /\ exists consumed packet,
    Serial.rx (Serial.mk 0 (Scenario.version_answer 5) [] [])
    = consumed ++ Serial.rx (Serial.mk 112 [] [] [])
    /\ (packet = map (fun e => u8 e.2) consumed
        \/ packet = AUX_HDR :: map (fun e => u8 e.2) consumed)
    /\ packet = frame (Packet.source Scenario.version_packet)
                  (Packet.destination Scenario.version_packet)
                  (Packet.command Scenario.version_packet)
                  (Packet.data Scenario.version_packet)
    /\ Packet.length Scenario.version_packet
       = vsize (Packet.data Scenario.version_packet) + 3
    /\ vsize (Packet.data Scenario.version_packet) <= 252
    /\ Serial.now (Serial.mk 0 (Scenario.version_answer 5) [] [])
       < Serial.now (Serial.mk 112 [] [] [])
    /\ silent_until (Serial.now (Serial.mk 112 [] [] []))
         (Serial.mk 112 [] [] [])
    /\ Serial.written (Serial.mk 112 [] [] [])
       = Serial.written (Serial.mk 0 (Scenario.version_answer 5) [] []).
Proof.
  assert (H : Communicator.readPacket Packet.Packet_default
                (Serial.mk 0 (Scenario.version_answer 5) [] [])
              = Ret (Communicator.Decoded Packet.Parsed,
                     Scenario.version_packet, Serial.mk 112 [] [] []))
    by (vm_compute; reflexivity).
  split; [exact H|].
  exact (readPacket_accepts_only_frames _ _ _ _ H).
Defined.


(** ** What [sendCommand] returns *)

Section Outcome.

Context (c : Communicator.t) (dest cmd : Z) (data : list Z).

Lemma sendCommand_body_Accepted (w w' : Serial.t) (p : Packet.t) :
  Communicator.sendCommand_body c dest cmd data w
  = Ret (Communicator.Accepted p, w') ->
  exists w1,
    Communicator.sendPacket c dest cmd data w = Ret (true, w1)
    /\ Communicator.readPacket Packet.Packet_default w1
       = Ret (Communicator.Decoded Packet.Parsed, p, w')
    /\ Packet.command p = cmd /\ Packet.destination p = Target.APP
    /\ Packet.source p = dest.
Proof.
  unfold Communicator.sendCommand_body. intros H.
  apply result_bind_Ret in H as ([sent w1] & Hsend & H).
  destruct sent; cbn [negb] in H; [|discriminate].
  apply result_bind_Ret in H as ([[s p1] w2] & Hread & H).
  destruct (negb (Communicator.returned s)) eqn:Hret; [discriminate|].
  case_decide as Hvalid; [discriminate|]. injection H as <- <-.
  destruct s as [| |[]]; try discriminate.
  exists w1. split; [done|]. split; [done|].
  repeat split; apply dec_stable; tauto.
Qed.

Lemma sendCommand_loop_success (fuel : nat) (reply : list Z) :
  forall (retryCount : Z) (w w' : Serial.t) (reply' : list Z),
    Communicator.sendCommand_loop fuel c dest cmd data reply retryCount w
    = Ret (true, reply', w') ->
    exists w0 w1 p,
      Communicator.sendPacket c dest cmd data w0 = Ret (true, w1)
      /\ Communicator.readPacket Packet.Packet_default w1
         = Ret (Communicator.Decoded Packet.Parsed, p, w')
      /\ Packet.command p = cmd /\ Packet.destination p = Target.APP
      /\ Packet.source p = dest /\ Packet.data p = reply'
      /\ (length (Serial.written w) <= length (Serial.written w0))%nat.
Proof.
  induction fuel as [|fuel IH]; intros retryCount w w' reply' H;
    [discriminate|].
  cbn [Communicator.sendCommand_loop] in H. cbv zeta in H.
  case_bool_decide; [|discriminate].
  apply result_bind_Ret in H as ([a w1] & Hbody & H).
  pose proof (sendCommand_body_written _ _ _ _ _ _ _ Hbody) as Hwr.
  destruct a as [|s|p|p];
    try (apply IH in H as (w0 & w2 & p' & ? & ? & ? & ? & ? & ? & ?);
         exists w0, w2, p'; repeat split; try done; lia).
  injection H as <- <-.
  apply sendCommand_body_Accepted in Hbody as (w2 & ? & ? & ? & ? & ?).
  exists w, w2, p. by repeat split.
Qed.

Lemma sendCommand_loop_failure (fuel : nat) (reply : list Z) :
  forall (retryCount : Z) (w w' : Serial.t) (reply' : list Z),
    0 <= retryCount <= Communicator.RETRY_COUNT ->
    Communicator.sendCommand_loop fuel c dest cmd data reply retryCount w
    = Ret (false, reply', w') ->
    after_attempts (Z.to_nat (Communicator.RETRY_COUNT - retryCount))
      c dest cmd data w = Ret w'.
Proof.
  unfold Communicator.RETRY_COUNT.
  induction fuel as [|fuel IH]; intros retryCount w w' reply' Hrc H;
    [discriminate|].
  cbn [Communicator.sendCommand_loop] in H. cbv zeta in H.
  rewrite u32_small in H by lia. unfold Communicator.RETRY_COUNT in H.
  case_bool_decide as Hlt.
  - apply result_bind_Ret in H as ([a w1] & Hbody & H).
    replace (Z.to_nat (3 - retryCount))
      with (S (Z.to_nat (3 - (retryCount + 1)))) by lia.
    cbn [after_attempts]. rewrite Hbody. cbn [mbind result_bind].
    destruct a; try (apply IH in H; [done|lia]). discriminate.
  - injection H as <- <-. by replace retryCount with 3 by lia.
Qed.

End Outcome.

Lemma sendCommand_true
    (c : Communicator.t) (dest cmd : Z) (data reply reply' : list Z)
    (w w' : Serial.t) :
  Communicator.sendCommand c dest cmd data reply w = Ret (true, reply', w') ->
  (exists w0 w1,
      Communicator.sendPacket c dest cmd data w0 = Ret (true, w1)
      /\ Communicator.readPacket Packet.Packet_default w1
         = Ret (Communicator.Decoded Packet.Parsed,
                Packet.mk (vsize reply' + 3) dest Target.APP cmd reply', w'))
  /\ vsize reply' <= 252
  /\ Forall is_u8 reply'
  /\ (length (Serial.written w) < length (Serial.written w')
      <= length (Serial.written w) + 3)%nat.
Proof.
  intros H. pose proof (sendCommand_written _ _ _ _ _ _ _ _ _ H) as Hmost.
  unfold Communicator.sendCommand in H.
  apply sendCommand_loop_success in H
    as (w0 & w1 & p & Hsend & Hread & Hcmd & Hdst & Hsrc & Hdata & Hwr).
  pose proof (sendPacket_written _ _ _ _ _ _ _ Hsend) as Hwr1.
  pose proof (readPacket_written _ _ _ _ _ Hread) as Hwr2.
  pose proof (readPacket_Parsed _ _ _ _ Hread)
    as (_ & _ & _ & _ & _ & Hlen & Hsize & Hu8 & _).
  destruct p as [plen psrc pdst pcmd pdata].
  cbn [Packet.length Packet.source Packet.destination Packet.command
       Packet.data] in *.
  subst. split; [by exists w0, w1|]. split; [done|]. split; [done|].
  rewrite Hwr2 in Hmost |- *. lia.
Qed.

(** X11.  [sendCommand] returns [true] only when, in the turn that ends the
    call, the request went out whole and [readPacket] then decoded a packet
    with the command sent, from the addressed device and addressed to
    [Target::APP]; [reply] is the payload of this packet, at most 252 bytes.
    One to three requests have been written by then. *)
Theorem sendCommand_success
    (c : Communicator.t) (dest cmd : Z) (data reply reply' : list Z)
    (w w' : Serial.t) :
  Communicator.sendCommand c dest cmd data reply w = Ret (true, reply', w') ->
  (exists w0 w1,
      Communicator.sendPacket c dest cmd data w0 = Ret (true, w1)
      /\ Communicator.readPacket Packet.Packet_default w1
         = Ret (Communicator.Decoded Packet.Parsed,
                Packet.mk (vsize reply' + 3) dest Target.APP cmd reply', w'))
  /\ vsize reply' <= 252
  /\ Forall is_u8 reply'
  /\ (length (Serial.written w) < length (Serial.written w')
      <= length (Serial.written w) + 3)%nat.
Proof. apply sendCommand_true. Qed.

Lemma sendCommand_success_witness :
  Communicator.sendCommand Communicator.Communicator_default
    Target.FOCUSER Command.GET_VER [] [] Scenario.answers_to_APP
  = Ret (true, [0x07; 0x01],
         Serial.mk 112 [] [Scenario.request]
           [Serial.mk_reaction 6 (Scenario.version_answer 5);
            Serial.mk_reaction 6 (Scenario.version_answer 5)])
  /\ (exists w0 w1,
      Communicator.sendPacket Communicator.Communicator_default
        Target.FOCUSER Command.GET_VER [] w0 = Ret (true, w1)
      /\ Communicator.readPacket Packet.Packet_default w1
         = Ret (Communicator.Decoded Packet.Parsed,
                Packet.mk (vsize [0x07; 0x01] + 3) Target.FOCUSER Target.APP
                  Command.GET_VER [0x07; 0x01],
                Serial.mk 112 [] [Scenario.request]
                  [Serial.mk_reaction 6 (Scenario.version_answer 5);
                   Serial.mk_reaction 6 (Scenario.version_answer 5)]))
  /\ vsize [0x07; 0x01] <= 252
  /\ Forall is_u8 [0x07; 0x01]
  /\ (length (Serial.written Scenario.answers_to_APP)
      < length (Serial.written
                  (Serial.mk 112 [] [Scenario.request]
                     [Serial.mk_reaction 6 (Scenario.version_answer 5);
                      Serial.mk_reaction 6 (Scenario.version_answer 5)]))
      <= length (Serial.written Scenario.answers_to_APP) + 3)%nat.
Proof.
  assert (H : Communicator.sendCommand Communicator.Communicator_default
                Target.FOCUSER Command.GET_VER [] [] Scenario.answers_to_APP
              = Ret (true, [0x07; 0x01],
                     Serial.mk 112 [] [Scenario.request]
                       [Serial.mk_reaction 6 (Scenario.version_answer 5);
                        Serial.mk_reaction 6 (Scenario.version_answer 5)]))
    by (vm_compute; reflexivity).
  split; [exact H|].
  exact (sendCommand_success _ _ _ _ _ _ _ _ H).
Defined.

(** X12.  [sendCommand] returns [false] only after [RETRY_COUNT] = 3 turns
    of its loop, none of which was accepted: three requests have been
    written, the port is as three turns leave it, and [reply] is the
    caller's. *)
Theorem sendCommand_failure
    (c : Communicator.t) (dest cmd : Z) (data reply reply' : list Z)
    (w w' : Serial.t) :
  Communicator.sendCommand c dest cmd data reply w = Ret (false, reply', w') ->
  reply' = reply
  /\ after_attempts (Z.to_nat Communicator.RETRY_COUNT) c dest cmd data w
     = Ret w'
  /\ length (Serial.written w') = (length (Serial.written w) + 3)%nat.
Proof.
  intros H. unfold Communicator.sendCommand in H.
  pose proof (sendCommand_loop_failure_keeps_reply _ _ _ _ _ _ _ _ _ _ H)
    as Hreply.
  apply sendCommand_loop_failure in H;
    [|unfold Communicator.RETRY_COUNT; lia].
  rewrite Z.sub_0_r in H. split; [done|]. split; [done|].
  by apply after_attempts_written in H.
Qed.

Lemma sendCommand_failure_witness :
  Communicator.sendCommand Communicator.Communicator_default
    Target.FOCUSER Command.GET_VER [] [0x55] (dead_line 0 [])
  = Ret (false, [0x55],
         dead_line 300 [Scenario.request; Scenario.request; Scenario.request])
  /\ [0x55] = [0x55]
  /\ after_attempts (Z.to_nat Communicator.RETRY_COUNT)
       Communicator.Communicator_default Target.FOCUSER Command.GET_VER []
       (dead_line 0 [])
     = Ret (dead_line 300
              [Scenario.request; Scenario.request; Scenario.request])
  /\ length (Serial.written
               (dead_line 300
                  [Scenario.request; Scenario.request; Scenario.request]))
     = (length (Serial.written (dead_line 0 [])) + 3)%nat.
Proof.
  assert (H : Communicator.sendCommand Communicator.Communicator_default
                Target.FOCUSER Command.GET_VER [] [0x55] (dead_line 0 [])
              = Ret (false, [0x55],
                     dead_line 300
                       [Scenario.request; Scenario.request;
                        Scenario.request]))
    by (vm_compute; reflexivity).
  split; [exact H|].
  exact (sendCommand_failure _ _ _ _ _ _ _ _ H).
Defined.

(** ** Frames with and without their sentinel *)

Lemma finalize_with_sentinel (reply : Packet.t) (s d c : Z)
    (payload : list Z) :
  vsize payload <= 252 ->
  Communicator.finalize reply (frame s d c payload)
  = Some (Communicator.Decoded Packet.Parsed,
          Packet.mk (vsize payload + 3) s d c payload).
Proof.
  intros Hlen. pose proof (vsize_nonneg payload) as Hnn.
  pose proof (parse_frame reply s d c payload Hlen) as Hparse.
  assert (Hsize : vsize (frame s d c payload) = vsize payload + 6).
  { unfold frame, vsize. cbv zeta. rewrite !length_app. cbn [length]. lia. }
  unfold Communicator.finalize.
  assert (Hbuild : Communicator.build_packet (frame s d c payload)
                   = Some (frame s d c payload)) by done.
  rewrite Hbuild. cbn [mbind option_bind].
  assert (Hget : vget (frame s d c payload) 1 = Some (vsize payload + 3)).
  { unfold vget. rewrite decide_True by lia. done. }
  rewrite Hget. cbn [mbind option_bind].
  rewrite u32_small by lia. rewrite decide_False by lia.
  by rewrite Hparse.
Qed.

(** X13.  [readPacket] decodes a frame of the wire format whether it was
    collected with its sentinel or without it, unless the payload has 56
    bytes: the packet has the fields and the payload of the frame. *)
Theorem finalize_frame (reply : Packet.t) (s d c : Z) (payload : list Z) :
  vsize payload <= 252 ->
  Communicator.finalize reply (frame s d c payload)
  = Some (Communicator.Decoded Packet.Parsed,
          Packet.mk (vsize payload + 3) s d c payload)
  /\ (vsize payload ≠ 56 ->
      Communicator.finalize reply (tail (frame s d c payload))
      = Some (Communicator.Decoded Packet.Parsed,
              Packet.mk (vsize payload + 3) s d c payload)).
Proof.
  intros Hlen. split; [by apply finalize_with_sentinel|]. intros H56.
  rewrite <- (finalize_with_sentinel reply s d c payload Hlen).
  unfold Communicator.finalize.
  assert (Hbuild : Communicator.build_packet (tail (frame s d c payload))
                   = Some (frame s d c payload)).
  { unfold frame. cbv zeta. cbn [app tail].
    unfold Communicator.build_packet.
    change (vget (vsize payload + 3 :: ?l) 0) with (Some (vsize payload + 3)).
    cbn [mbind option_bind].
    rewrite decide_False by (unfold AUX_HDR; lia).
    by rewrite push_back_loop_app. }
  rewrite Hbuild.
  assert (Hbuild' : Communicator.build_packet (frame s d c payload)
                    = Some (frame s d c payload)) by done.
  by rewrite Hbuild'.
Qed.

Lemma finalize_frame_witness :
  vsize [0x07; 0x01] <= 252
  /\ Communicator.finalize Packet.Packet_default
       (frame Target.FOCUSER Target.APP Command.GET_VER [0x07; 0x01])
     = Some (Communicator.Decoded Packet.Parsed,
             Packet.mk (vsize [0x07; 0x01] + 3) Target.FOCUSER Target.APP
               Command.GET_VER [0x07; 0x01])
  /\ (vsize [0x07; 0x01] ≠ 56 ->
      Communicator.finalize Packet.Packet_default
        (tail (frame Target.FOCUSER Target.APP Command.GET_VER [0x07; 0x01]))
      = Some (Communicator.Decoded Packet.Parsed,
              Packet.mk (vsize [0x07; 0x01] + 3) Target.FOCUSER Target.APP
                Command.GET_VER [0x07; 0x01])).
Proof.
  assert (H : vsize [0x07; 0x01] <= 252) by (vm_compute; discriminate).
  split; [exact H|].
  exact (finalize_frame Packet.Packet_default Target.FOCUSER Target.APP
           Command.GET_VER [0x07; 0x01] H).
Defined.

(** X14.  A frame with a payload of 56 bytes that was collected without its
    sentinel is never decoded: its length byte is 0x3B, the value of the
    sentinel, so the bytes are taken as they are and the source byte is read
    as the length.  The size check fails, or, when the source is 0x3A, the
    checksum. *)
Theorem finalize_length_byte_taken_for_sentinel
    (reply : Packet.t) (s d c : Z) (payload : list Z) :
  vsize payload = 56 -> Forall is_u8 (s :: d :: c :: payload) ->
  exists st reply',
    Communicator.finalize reply (tail (frame s d c payload))
    = Some (st, reply')
    /\ Communicator.returned st = false
    /\ (s ≠ 0x3A -> st = Communicator.PacketSizeMismatch /\ reply' = reply)
    /\ (s = 0x3A -> st = Communicator.Decoded Packet.ChecksumMismatch).
Proof.
  intros H56 Hu8.
  pose proof (Forall_inv Hu8) as Hs. unfold is_u8 in Hs.
  set (ck := checksum_of ([56 + 3; s; d; c] ++ payload)).
  assert (Htail : tail (frame s d c payload)
                  = AUX_HDR :: s :: d :: c :: payload ++ [ck]).
  { unfold frame. cbv zeta. cbn [app tail]. rewrite H56. reflexivity. }
  rewrite Htail. set (packet := AUX_HDR :: s :: d :: c :: payload ++ [ck]).
  assert (Hsize : vsize packet = 61).
  { unfold packet, vsize in *. cbn [length]. rewrite length_app.
    cbn [length]. lia. }
  unfold Communicator.finalize.
  assert (Hbuild : Communicator.build_packet packet = Some packet) by done.
  rewrite Hbuild. cbn [mbind option_bind].
  assert (Hget : vget packet 1 = Some s).
  { unfold vget. rewrite decide_True by lia. done. }
  rewrite Hget. cbn [mbind option_bind]. rewrite u32_small by lia.
  destruct (decide (s = 0x3A)) as [->|Hne].
  - rewrite decide_False by lia.
    assert (Hpacket : Forall is_u8 packet).
    { constructor; [by compute|].
      change (58 :: d :: c :: payload ++ [ck])
        with ((58 :: d :: c :: payload) ++ [ck]).
      apply Forall_app. split; [done|].
      constructor; [|done]. unfold ck, checksum_of, is_u8.
      apply Z.mod_pos_bound. lia. }
    rewrite parse_spec by done. cbn [mbind option_bind].
    assert (Hst : decode_status packet = Packet.ChecksumMismatch).
    { unfold decode_status. rewrite decide_False by lia.
      rewrite decide_False by (intros H; by apply H).
      change (byte_at packet 1) with 0x3A.
      rewrite decide_False by lia.
      rewrite decide_True; [done|].
      unfold packet, covered.
      change (byte_at (AUX_HDR :: 0x3A :: ?l) 1) with 0x3A.
      change (drop 1 (AUX_HDR :: ?l)) with l.
      change (Z.to_nat (0x3A + 1)) with (3 + 56)%nat.
      cbn [Nat.add take].
      replace 56%nat with (length payload) by (unfold vsize in H56; lia).
      rewrite take_app_length.
      change (AUX_HDR :: 0x3A :: d :: c :: payload ++ [ck])
        with ([AUX_HDR; 0x3A; d; c] ++ payload ++ [ck]).
      rewrite !app_assoc, last_snoc. intros [= Heq]. revert Heq.
      unfold ck, checksum_of, sum_bytes. cbn [app foldr].
      intros Heq.
      set (total := d + (c + foldr Z.add 0 payload)) in *.
      change (AUX_HDR) with 59 in *.
      pose proof (Z_div_mod_eq_full (- (58 + total)) 256).
      pose proof (Z_div_mod_eq_full (- (56 + 3 + (58 + total))) 256).
      lia. }
    rewrite Hst. eexists _, _. split; [done|]. split; [done|].
    split; [done|]. done.
  - rewrite decide_True by lia.
    eexists _, _. split; [done|]. split; [done|]. split; [done|]. done.
Qed.

Lemma finalize_length_byte_taken_for_sentinel_witness :
  (vsize (replicate 56 0) = 56
   /\ Forall is_u8 (Target.FOCUSER :: Target.APP :: Command.GET_VER
                      :: replicate 56 0))
  /\ exists st reply',
    Communicator.finalize Packet.Packet_default
      (tail (frame Target.FOCUSER Target.APP Command.GET_VER
               (replicate 56 0)))
    = Some (st, reply')
    /\ Communicator.returned st = false
    /\ (Target.FOCUSER ≠ 0x3A ->
        st = Communicator.PacketSizeMismatch
        /\ reply' = Packet.Packet_default)
    /\ (Target.FOCUSER = 0x3A ->
        st = Communicator.Decoded Packet.ChecksumMismatch).
Proof.
  assert (H1 : vsize (replicate 56 0) = 56) by reflexivity.
  assert (H2 : Forall is_u8 (Target.FOCUSER :: Target.APP :: Command.GET_VER
                               :: replicate 56 0)).
  { apply Forall_forall. intros x Hx. unfold is_u8.
    repeat (apply elem_of_cons in Hx as [->|Hx]; [by compute|]).
    by apply elem_of_nil in Hx. }
  split; [by split|].
  exact (finalize_length_byte_taken_for_sentinel Packet.Packet_default
           Target.FOCUSER Target.APP Command.GET_VER (replicate 56 0) H1 H2).
Defined.

(** ** Waiting for the sentinel *)

Lemma waitForHeader_loop_spec (timeoutMs : Z) (fuel : nat) :
  forall (t0 : Z) (w : Serial.t),
    0 <= timeoutMs < 2 ^ 32 ->
    0 <= Serial.now w - t0 <= timeoutMs ->
    (Z.to_nat (timeoutMs - (Serial.now w - t0)) < fuel)%nat ->
    exists (found : bool) (w' : Serial.t) (consumed : list (Z * Z)),
      waitForHeader_loop fuel (u32 t0) timeoutMs w = Ret (found, w')
      /\ Serial.rx w = consumed ++ Serial.rx w'
      /\ Serial.written w' = Serial.written w
      /\ Serial.line w' = Serial.line w
      /\ Serial.now w <= Serial.now w'
      /\ if found then
           Serial.now w' < t0 + timeoutMs
           /\ exists init e,
               consumed = init ++ [e] /\ u8 e.2 = AUX_HDR
               /\ Forall (fun e => u8 e.2 ≠ AUX_HDR) init
         else
           Serial.now w' = t0 + timeoutMs
           /\ Forall (fun e => u8 e.2 ≠ AUX_HDR) consumed.
Proof.
  induction fuel as [|fuel IH]; intros t0 w Hto Hnow Hfuel; [lia|].
  cbn [waitForHeader_loop]. rewrite elapsed_since by lia.
  case_decide as Hlt.
  - destruct (Serial.available w) eqn:Hav.
    + unfold Serial.available in Hav. unfold Serial.read.
      destruct w as [now rx written line].
      cbn [Serial.now Serial.rx Serial.written Serial.line] in *.
      destruct rx as [|[at_ b] rest]; [done|]. rewrite Hav. cbv zeta.
      destruct (decide (u8 b = AUX_HDR)) as [Hhdr|Hhdr].
      * exists true, (Serial.mk now rest written line), [(at_, b)].
        cbn [Serial.now Serial.rx Serial.written Serial.line].
        split; [done|]. split; [done|]. split; [done|]. split; [done|].
        split; [lia|]. split; [lia|].
        exists [], (at_, b). split; [done|]. split; [done|]. constructor.
      * destruct (IH t0 (Serial.delay 1 (Serial.mk now rest written line)))
          as (found & w' & consumed & Hloop & Hrx & Hwr & Hline & Hle & H);
          [done|cbn; lia|cbn; lia|].
        cbn [Serial.delay Serial.now Serial.rx Serial.written Serial.line]
          in *.
        exists found, w', ((at_, b) :: consumed).
        split; [done|]. split; [by rewrite Hrx|]. split; [done|].
        split; [done|]. split; [lia|].
        destruct found.
        -- destruct H as (Hend & init & e & -> & He & Hinit).
           split; [done|]. exists ((at_, b) :: init), e.
           repeat split; try done. by constructor.
        -- destruct H as [Hend Hall]. split; [done|]. by constructor.
    + destruct (IH t0 (Serial.delay 1 w))
        as (found & w' & consumed & Hloop & Hrx & Hwr & Hline & Hle & H);
        [done|cbn; lia|cbn; lia|].
      cbn [Serial.delay Serial.now Serial.rx Serial.written Serial.line] in *.
      exists found, w', consumed. repeat split; try done. lia.
  - exists false, w, [].
    split; [done|]. split; [done|]. split; [done|]. split; [done|].
    split; [lia|]. split; [lia|constructor].
Qed.

(** X15.  [waitForHeader] returns within [timeoutMs] milliseconds, having
    written nothing.  It discards the bytes it reads: when it answers [true]
    the last byte it took from the line is the sentinel, the first one that
    came, and the time was not up; when it answers [false] exactly
    [timeoutMs] milliseconds have passed and no byte it took was the
    sentinel. *)
Theorem waitForHeader_bounded (timeoutMs : Z) (w : Serial.t) :
  0 <= timeoutMs < 2 ^ 32 ->
  exists (found : bool) (w' : Serial.t) (consumed : list (Z * Z)),
    waitForHeader timeoutMs w = Ret (found, w')
    /\ Serial.rx w = consumed ++ Serial.rx w'
    /\ Serial.written w' = Serial.written w
    /\ Serial.line w' = Serial.line w
    /\ Serial.now w <= Serial.now w'
    /\ if found then
         Serial.now w' < Serial.now w + timeoutMs
         /\ exists init e,
             consumed = init ++ [e] /\ u8 e.2 = AUX_HDR
             /\ Forall (fun e => u8 e.2 ≠ AUX_HDR) init
       else
         Serial.now w' = Serial.now w + timeoutMs
         /\ Forall (fun e => u8 e.2 ≠ AUX_HDR) consumed.
Proof.
  intros Hto. unfold waitForHeader. cbv zeta.
  change (Serial.millis w) with (u32 (Serial.now w)).
  apply waitForHeader_loop_spec; lia.
Qed.

Lemma waitForHeader_bounded_witness :
  0 <= 50 < 2 ^ 32
  /\ exists (found : bool) (w' : Serial.t) (consumed : list (Z * Z)),
    waitForHeader 50 (Serial.mk 0 [(3, 0x00); (7, 0x3B); (8, 0x03)] [] [])
    = Ret (found, w')
    /\ Serial.rx (Serial.mk 0 [(3, 0x00); (7, 0x3B); (8, 0x03)] [] [])
       = consumed ++ Serial.rx w'
    /\ Serial.written w'
       = Serial.written (Serial.mk 0 [(3, 0x00); (7, 0x3B); (8, 0x03)] [] [])
    /\ Serial.line w'
       = Serial.line (Serial.mk 0 [(3, 0x00); (7, 0x3B); (8, 0x03)] [] [])
    /\ Serial.now (Serial.mk 0 [(3, 0x00); (7, 0x3B); (8, 0x03)] [] [])
       <= Serial.now w'
    /\ if found then
         Serial.now w'
         < Serial.now (Serial.mk 0 [(3, 0x00); (7, 0x3B); (8, 0x03)] [] [])
           + 50
         /\ exists init e,
             consumed = init ++ [e] /\ u8 e.2 = AUX_HDR
             /\ Forall (fun e => u8 e.2 ≠ AUX_HDR) init
       else
         Serial.now w'
         = Serial.now (Serial.mk 0 [(3, 0x00); (7, 0x3B); (8, 0x03)] [] [])
           + 50
         /\ Forall (fun e => u8 e.2 ≠ AUX_HDR) consumed.
Proof.
  assert (H : 0 <= 50 < 2 ^ 32) by lia.
  split; [exact H|].
  exact (waitForHeader_bounded 50
           (Serial.mk 0 [(3, 0x00); (7, 0x3B); (8, 0x03)] [] []) H).
Defined.

Example waitForHeader_runs :
  waitForHeader 50 (Serial.mk 0 [(3, 0x00); (7, 0x3B); (8, 0x03)] [] [])
  = Ret (true, Serial.mk 7 [(8, 0x03)] [] [])
  /\ waitForHeader 5 (Serial.mk 0 [(3, 0x00); (7, 0x3B); (8, 0x03)] [] [])
     = Ret (false, Serial.mk 5 [(7, 0x3B); (8, 0x03)] [] []).
Proof. split; vm_compute; reflexivity. Qed.

(** ** What [sendCommand] writes *)

Section Requests.

Context (c : Communicator.t) (dest cmd : Z) (data : list Z).
Hypothesis data_fits : vsize data <= 252.

Local Abbreviation request := (request_frame c dest cmd data).

Lemma sendCommand_body_request (w w' : Serial.t) (a : Communicator.attempt) :
  Communicator.sendCommand_body c dest cmd data w = Ret (a, w') ->
  exists k : nat,
    Serial.written w' = Serial.written w ++ [take k request]
    /\ ((forall s, a ≠ Communicator.ReadFailed s) ->
        a ≠ Communicator.SendFailed -> take k request = request).
Proof.
  unfold Communicator.sendCommand_body. intros H.
  destruct (sendPacket_frame c dest cmd data w data_fits)
    as (sent & w1 & k & Hsend & _ & Hwr & Hk & Hsent).
  unfold Communicator.commandBlind in Hsend. rewrite Hsend in H.
  cbn [mbind result_bind] in H. exists k.
  destruct sent; cbn [negb] in H.
  - apply result_bind_Ret in H as ([[s p] w2] & Hread & H).
    apply readPacket_written in Hread.
    assert (Hw' : Serial.written w' = Serial.written w1).
    { destruct (negb (Communicator.returned s));
        [by injection H as <- <-|].
      case_decide; by injection H as <- <-. }
    split; [by rewrite Hw', Hwr|]. intros _ _.
    apply take_ge. unfold request_frame, frame. cbv zeta.
    rewrite !length_app. cbn [length].
    assert (k = (length data + 6)%nat) by (by apply Hsent). lia.
  - injection H as <- <-. split; [done|]. by intros _ [].
Qed.

Lemma sendCommand_loop_requests (fuel : nat) (reply : list Z) :
  forall (retryCount : Z) (w w' : Serial.t) (ok : bool) (reply' : list Z),
    Communicator.sendCommand_loop fuel c dest cmd data reply retryCount w
    = Ret (ok, reply', w') ->
    exists chunks,
      Serial.written w' = Serial.written w ++ chunks
      /\ Forall (fun chunk => exists k : nat, chunk = take k request) chunks
      /\ (ok = true -> last chunks = Some request).
Proof.
  induction fuel as [|fuel IH]; intros retryCount w w' ok reply' H;
    [discriminate|].
  cbn [Communicator.sendCommand_loop] in H. cbv zeta in H.
  case_bool_decide.
  - apply result_bind_Ret in H as ([a w1] & Hbody & H).
    apply sendCommand_body_request in Hbody as (k & Hwr & Hwhole).
    destruct a as [|s|p|p];
      try (apply IH in H as (chunks & Hwr' & Hall & Hlast);
           exists (take k request :: chunks);
           split; [by rewrite Hwr', Hwr, <- app_assoc|];
           split; [constructor; eauto|];
           intros Hok; specialize (Hlast Hok);
           destruct chunks; [discriminate|done]).
    injection H as <- <- <-. exists [take k request].
    split; [done|]. split; [repeat constructor; eauto|].
    intros _. cbn [last]. by rewrite Hwhole.
  - injection H as <- <- <-. exists []. rewrite app_nil_r.
    split; [done|]. split; [constructor|done].
Qed.

End Requests.

(** X16.  Whatever [sendCommand] writes is its request: for a payload of at
    most 252 bytes every write of the call is the frame of the request, or a
    prefix of it that the port took; there are one to three of them, and
    when the call returns [true] the last one is the whole frame. *)
Theorem sendCommand_writes_requests
    (c : Communicator.t) (dest cmd : Z) (data reply reply' : list Z)
    (w w' : Serial.t) (ok : bool) :
  vsize data <= 252 ->
  Communicator.sendCommand c dest cmd data reply w = Ret (ok, reply', w') ->
  exists chunks,
    Serial.written w' = Serial.written w ++ chunks
    /\ (1 <= length chunks <= 3)%nat
    /\ Forall (fun chunk =>
                 exists k : nat,
                   chunk = take k (frame (u8 (Communicator.source c))
                                     (u8 dest) (u8 cmd) data)) chunks
    /\ (ok = true ->
        last chunks = Some (frame (u8 (Communicator.source c)) (u8 dest)
                              (u8 cmd) data)).
Proof.
  intros Hfits H.
  pose proof (sendCommand_written _ _ _ _ _ _ _ _ _ H) as Hmost.
  assert (Hleast : (length (Serial.written w)
                    < length (Serial.written w'))%nat).
  { destruct ok.
    - by apply sendCommand_true in H as (_ & _ & _ & ? & _).
    - unfold Communicator.sendCommand in H.
      apply sendCommand_loop_failure in H;
        [|unfold Communicator.RETRY_COUNT; lia].
      apply after_attempts_written in H. rewrite H.
      unfold Communicator.RETRY_COUNT. lia. }
  unfold Communicator.sendCommand in H.
  apply (sendCommand_loop_requests c dest cmd data Hfits) in H
    as (chunks & Hwr & Hall & Hlast).
  unfold request_frame in *.
  exists chunks. rewrite Hwr, length_app in Hmost, Hleast.
  split; [done|]. split; [lia|]. by split.
Qed.

Lemma sendCommand_writes_requests_witness :
  (vsize [] <= 252
   /\ Communicator.sendCommand Communicator.Communicator_default
        Target.FOCUSER Command.GET_VER [] [] Scenario.stray_then_right
      = Ret (true, [0x07; 0x01], Scenario.stray_then_right_read2))
  /\ exists chunks,
    Serial.written Scenario.stray_then_right_read2
    = Serial.written Scenario.stray_then_right ++ chunks
    /\ (1 <= length chunks <= 3)%nat
    /\ Forall (fun chunk =>
                 exists k : nat,
                   chunk = take k (frame
                                     (u8 (Communicator.source
                                            Communicator.Communicator_default))
                                     (u8 Target.FOCUSER) (u8 Command.GET_VER)
                                     [])) chunks
    /\ (true = true ->
        last chunks
        = Some (frame (u8 (Communicator.source
                             Communicator.Communicator_default))
                  (u8 Target.FOCUSER) (u8 Command.GET_VER) [])).
Proof.
  assert (H1 : vsize [] <= 252) by (vm_compute; discriminate).
  assert (H2 : Communicator.sendCommand Communicator.Communicator_default
                 Target.FOCUSER Command.GET_VER [] []
                 Scenario.stray_then_right
               = Ret (true, [0x07; 0x01], Scenario.stray_then_right_read2))
    by (vm_compute; reflexivity).
  split; [by split|].
  exact (sendCommand_writes_requests _ _ _ _ _ _ _ _ _ H1 H2).
Defined.

(** * Properties of the focuser controller *)

Lemma position_bytes (position : Z) :
  let b2 := u8 (Z.land (Z.shiftr position 16) 0xFF) in
  let b1 := u8 (Z.land (Z.shiftr position 8) 0xFF) in
  let b0 := u8 (Z.land position 0xFF) in
  is_u8 b2 /\ is_u8 b1 /\ is_u8 b0
  /\ 65536 * b2 + 256 * b1 + b0 = position mod 2 ^ 24.
Proof.
  cbv zeta. rewrite !land_0xFF, !Z.shiftr_div_pow2 by lia. unfold u8, is_u8.
  rewrite !Z.mod_mod by lia.
  change (2 ^ 16) with 65536. change (2 ^ 8) with 256.
  change (2 ^ 24) with 16777216.
  pose proof (Z.mod_pos_bound (position / 65536) 256).
  pose proof (Z.mod_pos_bound (position / 256) 256).
  pose proof (Z.mod_pos_bound position 256).
  repeat split; try lia.
  pose proof (Z_div_mod_eq_full position 256).
  pose proof (Z_div_mod_eq_full (position / 256) 256).
  pose proof (Z_div_mod_eq_full (position / 256 / 256) 256).
  pose proof (Z_div_mod_eq_full position 16777216).
  pose proof (Z.mod_pos_bound position 16777216).
  assert (H65536 : position / 65536 = position / 256 / 256)
    by (rewrite Z.div_div by lia; done).
  assert (H24 : position / 16777216 = position / 256 / 256 / 256)
    by (rewrite !Z.div_div by lia; done).
  rewrite H65536. lia.
Qed.

Lemma gotoPosition_frame (position : Z) (w : Serial.t) :
  exists (sent : bool) (w' : Serial.t) (k : nat) (b2 b1 b0 : Z),
    Main.gotoPosition position w = Ret (sent, w')
    /\ is_u8 b2 /\ is_u8 b1 /\ is_u8 b0
    /\ 65536 * b2 + 256 * b1 + b0 = position mod 2 ^ 24
    /\ (exists dropped remaining,
          Serial.rx w = dropped ++ remaining
          /\ Forall (fun e => e.1 <= Serial.now w) dropped
          /\ Serial.rx w' = remaining ++ next_answer w)
    /\ Serial.written w'
       = Serial.written w
         ++ [take k (frame Target.APP Target.FOCUSER Command.MC_GOTO_FAST
                       [b2; b1; b0])]
    /\ (k <= 9)%nat
    /\ (sent = true <-> k = 9%nat).
Proof.
  unfold Main.gotoPosition. cbv zeta.
  destruct (position_bytes position) as (H2 & H1 & H0 & Hsum).
  set (b2 := u8 (Z.land (Z.shiftr position 16) 0xFF)) in *.
  set (b1 := u8 (Z.land (Z.shiftr position 8) 0xFF)) in *.
  set (b0 := u8 (Z.land position 0xFF)) in *.
  destruct (sendPacket_frame Main.communicator Target.FOCUSER
              Command.MC_GOTO_FAST [b2; b1; b0] w)
    as (sent & w' & k & Hsend & Hleft & Hwr & Hk & Hsent);
    [by compute|].
  exists sent, w', k, b2, b1, b0.
  split; [done|]. split; [done|]. split; [done|]. split; [done|].
  split; [done|]. split; [done|]. split; [exact Hwr|].
  split; [exact Hk | exact Hsent].
Qed.

(** X17.  [gotoPosition] sends the low 24 bits of the position, high byte
    first, in one [MC_GOTO_FAST] frame from [APP] to [FOCUSER]: a position
    of 2^24 or more goes out as its remainder modulo 2^24.  It answers
    [true] exactly when the port took the nine bytes of the frame.  It does
    not read an answer: of the received bytes it has taken only bytes that
    had arrived before the call, and what the focuser answers is left on the
    line. *)
Theorem gotoPosition_sends_24_bits (position : Z) (w : Serial.t) :
  exists (sent : bool) (w' : Serial.t) (k : nat) (b2 b1 b0 : Z),
    Main.gotoPosition position w = Ret (sent, w')
    /\ is_u8 b2 /\ is_u8 b1 /\ is_u8 b0
    /\ 65536 * b2 + 256 * b1 + b0 = position mod 2 ^ 24
    /\ (exists dropped remaining,
          Serial.rx w = dropped ++ remaining
          /\ Forall (fun e => e.1 <= Serial.now w) dropped
          /\ Serial.rx w' = remaining ++ next_answer w)
    /\ Serial.written w'
       = Serial.written w
         ++ [take k (frame Target.APP Target.FOCUSER Command.MC_GOTO_FAST
                       [b2; b1; b0])]
    /\ (k <= 9)%nat
    /\ (sent = true <-> k = 9%nat).
Proof. apply gotoPosition_frame. Qed.

Example gotoPosition_100000 :
  Main.gotoPosition 100000 (dead_line 0 [])
  = Ret (true, dead_line 0 [[0x3B; 0x06; 0x20; 0x12; 0x02; 0x01; 0x86; 0xA0;
                             0x9F]])
  /\ Main.gotoPosition (2 ^ 24 + 100000) (dead_line 0 [])
     = Main.gotoPosition 100000 (dead_line 0 []).
Proof. split; vm_compute; reflexivity. Qed.

(** X18.  [stepFocuser] sends the target with [gotoPosition]: inward
    (direction 1) the current position plus the steps, outward (any other
    direction) the current position minus the steps, or 0 when there are
    more steps than the position; what goes out is the target modulo 2^24.
    The speed is not used, and the globals are not changed. *)
Theorem stepFocuser_target
    (direction steps speed : Z) (st : Main.state) (w : Serial.t) :
  0 <= Main.currentPosition st < 2 ^ 32 -> 0 <= steps < 2 ^ 32 ->
  exists (sent : bool) (w' : Serial.t) (k : nat) (b2 b1 b0 : Z),
    Main.stepFocuser direction steps speed st w = Ret (sent, w')
    /\ is_u8 b2 /\ is_u8 b1 /\ is_u8 b0
    /\ 65536 * b2 + 256 * b1 + b0
       = (if decide (direction = 1)
          then Main.currentPosition st + steps
          else Z.max 0 (Main.currentPosition st - steps)) mod 2 ^ 24
    /\ Serial.written w'
       = Serial.written w
         ++ [take k (frame Target.APP Target.FOCUSER Command.MC_GOTO_FAST
                       [b2; b1; b0])]
    /\ (sent = true <-> k = 9%nat).
Proof.
  intros Hcur Hsteps. unfold Main.stepFocuser. cbv zeta.
  set (target := if decide (direction = 1) then _ else _).
  destruct (gotoPosition_frame target w)
    as (sent & w' & k & b2 & b1 & b0 & Hgoto & H2 & H1 & H0 & Hsum & _ & Hwr
        & _ & Hsent).
  exists sent, w', k, b2, b1, b0.
  split; [done|]. split; [done|]. split; [done|]. split; [done|].
  split; [|by split].
  rewrite Hsum. unfold target, u32.
  destruct (decide (direction = 1)).
  - change (2 ^ 32) with (2 ^ 24 * 2 ^ 8).
    rewrite Z.rem_mul_r by lia.
    rewrite Z.mul_comm, Z.mod_add by lia. by rewrite Z.mod_mod by lia.
  - case_decide.
    + by rewrite Z.max_l by lia.
    + rewrite Z.max_r by lia. by rewrite (Z.mod_small _ (2 ^ 32)) by lia.
Qed.

Lemma stepFocuser_target_witness :
  (0 <= Main.currentPosition (Main.mk 1000 0 5 false true) < 2 ^ 32
   /\ 0 <= 5000 < 2 ^ 32)
  /\ exists (sent : bool) (w' : Serial.t) (k : nat) (b2 b1 b0 : Z),
    Main.stepFocuser 0 5000 5 (Main.mk 1000 0 5 false true) (dead_line 0 [])
    = Ret (sent, w')
    /\ is_u8 b2 /\ is_u8 b1 /\ is_u8 b0
    /\ 65536 * b2 + 256 * b1 + b0
       = (if decide (0 = 1)
          then Main.currentPosition (Main.mk 1000 0 5 false true) + 5000
          else Z.max 0 (Main.currentPosition (Main.mk 1000 0 5 false true)
                        - 5000)) mod 2 ^ 24
    /\ Serial.written w'
       = Serial.written (dead_line 0 [])
         ++ [take k (frame Target.APP Target.FOCUSER Command.MC_GOTO_FAST
                       [b2; b1; b0])]
    /\ (sent = true <-> k = 9%nat).
Proof.
  assert (H1 : 0 <= Main.currentPosition (Main.mk 1000 0 5 false true)
               < 2 ^ 32) by (cbn; lia).
  assert (H2 : 0 <= 5000 < 2 ^ 32) by lia.
  split; [by split|].
  exact (stepFocuser_target 0 5000 5 (Main.mk 1000 0 5 false true)
           (dead_line 0 []) H1 H2).
Defined.

(** ** Reading the position *)

Lemma sendCommand_written_bounds
    (c : Communicator.t) (dest cmd : Z) (data reply reply' : list Z)
    (w w' : Serial.t) (ok : bool) :
  Communicator.sendCommand c dest cmd data reply w = Ret (ok, reply', w') ->
  (length (Serial.written w) < length (Serial.written w')
   <= length (Serial.written w) + 3)%nat.
Proof.
  intros H. pose proof (sendCommand_written _ _ _ _ _ _ _ _ _ H) as Hmost.
  split; [|done]. destruct ok.
  - by apply sendCommand_true in H as (_ & _ & _ & ? & _).
  - unfold Communicator.sendCommand in H.
    apply sendCommand_loop_failure in H;
      [|unfold Communicator.RETRY_COUNT; lia].
    apply after_attempts_written in H. rewrite H.
    unfold Communicator.RETRY_COUNT. lia.
Qed.

Lemma getFocuserPosition_inv (st st' : Main.state) (w w' : Serial.t)
    (ok : bool) :
  Main.getFocuserPosition st w = Ret (ok, st', w') ->
  Main.targetPosition st' = Main.targetPosition st
  /\ Main.currentSpeed st' = Main.currentSpeed st
  /\ Main.isMoving st' = Main.isMoving st
  /\ Main.focuserConnected st' = Main.focuserConnected st
  /\ (if ok then 0 <= Main.currentPosition st' < 2 ^ 24 else st' = st)
  /\ (length (Serial.written w) < length (Serial.written w')
      <= length (Serial.written w) + 3)%nat.
Proof.
  unfold Main.getFocuserPosition, Communicator.sendCommand_nodata.
  cbv zeta. intros H.
  apply result_bind_Ret in H as ([[ok1 reply] w1] & Hsend & H).
  pose proof (sendCommand_written_bounds _ _ _ _ _ _ _ _ _ Hsend) as Hwr.
  destruct ok1; [|by injection H as <- <- <-].
  apply sendCommand_true in Hsend as (_ & _ & Hu8 & _).
  case_decide as Hsize; [|by injection H as <- <- <-].
  destruct reply as [|r0 [|r1 [|r2 rest]]];
    try (unfold vsize in Hsize; cbn [length] in Hsize; lia).
  rewrite !vget_nonneg in H by lia.
  cbn [checked mbind result_bind lookup list_lookup Z.to_nat Pos.to_nat
       Pos.iter_op Nat.add] in H.
  change ((r0 :: r1 :: r2 :: rest) !! Z.to_nat 0) with (Some r0) in H.
  change ((r0 :: r1 :: r2 :: rest) !! Z.to_nat 1) with (Some r1) in H.
  change ((r0 :: r1 :: r2 :: rest) !! Z.to_nat 2) with (Some r2) in H.
  cbn [checked mbind result_bind] in H.
  injection H as <- <- <-. cbn [Main.targetPosition Main.currentSpeed
    Main.isMoving Main.focuserConnected Main.currentPosition].
  repeat split; try done; try lia.
  - unfold u32. apply Z.mod_pos_bound. lia.
  - apply Forall_cons in Hu8 as [H0 Hu8].
    apply Forall_cons in Hu8 as [H1 Hu8].
    apply Forall_cons in Hu8 as [H2 _].
    unfold is_u8 in *. rewrite !Z.shiftl_mul_pow2 by lia.
    rewrite u32_small by lia. lia.
Qed.

Lemma getFocuserPosition_answer (st st' : Main.state) (w w' : Serial.t)
    (ok : bool) :
  Main.getFocuserPosition st w = Ret (ok, st', w') ->
  exists (answered : bool) (reply : list Z),
    Communicator.sendCommand_nodata Main.communicator Target.FOCUSER
      Command.MC_GET_POSITION [] w
    = Ret (answered, reply, w')
    /\ ok = answered && bool_decide (3 <= vsize reply)
    /\ if ok then
         exists r0 r1 r2 rest,
           reply = r0 :: r1 :: r2 :: rest
           /\ is_u8 r0 /\ is_u8 r1 /\ is_u8 r2
           /\ st' = Main.mk (65536 * r0 + 256 * r1 + r2)
                      (Main.targetPosition st) (Main.currentSpeed st)
                      (Main.isMoving st) (Main.focuserConnected st)
       else st' = st.
Proof.
  unfold Main.getFocuserPosition. cbv zeta. intros H.
  apply result_bind_Ret in H as ([[answered reply] w1] & Hsend & H).
  exists answered, reply.
  destruct answered.
  - pose proof Hsend as Hu8. unfold Communicator.sendCommand_nodata in Hu8.
    apply sendCommand_true in Hu8 as (_ & _ & Hu8 & _).
    case_decide as Hsize.
    + destruct reply as [|r0 [|r1 [|r2 rest]]];
        try (unfold vsize in Hsize; cbn [length] in Hsize; lia).
      rewrite !vget_nonneg in H by lia.
      change ((r0 :: r1 :: r2 :: rest) !! Z.to_nat 0) with (Some r0) in H.
      change ((r0 :: r1 :: r2 :: rest) !! Z.to_nat 1) with (Some r1) in H.
      change ((r0 :: r1 :: r2 :: rest) !! Z.to_nat 2) with (Some r2) in H.
      cbn [checked mbind result_bind] in H.
      injection H as <- <- <-.
      apply Forall_cons in Hu8 as [H0 Hu8].
      apply Forall_cons in Hu8 as [H1 Hu8].
      apply Forall_cons in Hu8 as [H2 _].
      split; [done|].
      rewrite bool_decide_eq_true_2 by lia. split; [done|].
      cbn [andb]. exists r0, r1, r2, rest.
      split; [done|]. split; [done|]. split; [done|]. split; [done|].
      f_equal. unfold is_u8 in *. rewrite !Z.shiftl_mul_pow2 by lia.
      rewrite u32_small by lia. lia.
    + injection H as <- <- <-. split; [done|].
      by rewrite bool_decide_eq_false_2 by lia.
  - by injection H as <- <- <-.
Qed.

(** X19.  [getFocuserPosition] asks for the position with [sendCommand] and
    returns [true] exactly when that succeeds with an answer of at least
    three bytes.  Then [currentPosition] becomes the number that the first
    three bytes of the answer denote, high byte first, which is below 2^24,
    and the other globals are kept; otherwise no global is changed.  The
    port is left as [sendCommand] leaves it. *)
Theorem getFocuserPosition_24_bits
    (st st' : Main.state) (w w' : Serial.t) (ok : bool) :
  Main.getFocuserPosition st w = Ret (ok, st', w') ->
  exists (answered : bool) (reply : list Z),
    Communicator.sendCommand_nodata Main.communicator Target.FOCUSER
      Command.MC_GET_POSITION [] w
    = Ret (answered, reply, w')
    /\ ok = answered && bool_decide (3 <= vsize reply)
    /\ if ok then
         exists r0 r1 r2 rest,
           reply = r0 :: r1 :: r2 :: rest
           /\ is_u8 r0 /\ is_u8 r1 /\ is_u8 r2
           /\ st' = Main.mk (65536 * r0 + 256 * r1 + r2)
                      (Main.targetPosition st) (Main.currentSpeed st)
                      (Main.isMoving st) (Main.focuserConnected st)
       else st' = st.
Proof. apply getFocuserPosition_answer. Qed.

Lemma getFocuserPosition_24_bits_witness :
  Main.getFocuserPosition Main.initial focuser_at_100000
  = Ret (true, Main.mk 100000 0 5 false false,
         Serial.mk 113 [] [[0x3B; 0x03; 0x20; 0x12; 0x01; 0xCA]] [])
  /\ exists (answered : bool) (reply : list Z),
    Communicator.sendCommand_nodata Main.communicator Target.FOCUSER
      Command.MC_GET_POSITION [] focuser_at_100000
    = Ret (answered, reply,
           Serial.mk 113 [] [[0x3B; 0x03; 0x20; 0x12; 0x01; 0xCA]] [])
    /\ true = answered && bool_decide (3 <= vsize reply)
    /\ exists r0 r1 r2 rest,
        reply = r0 :: r1 :: r2 :: rest
        /\ is_u8 r0 /\ is_u8 r1 /\ is_u8 r2
        /\ Main.mk 100000 0 5 false false
           = Main.mk (65536 * r0 + 256 * r1 + r2)
               (Main.targetPosition Main.initial)
               (Main.currentSpeed Main.initial)
               (Main.isMoving Main.initial)
               (Main.focuserConnected Main.initial).
Proof.
  assert (H : Main.getFocuserPosition Main.initial focuser_at_100000
              = Ret (true, Main.mk 100000 0 5 false false,
                     Serial.mk 113 []
                       [[0x3B; 0x03; 0x20; 0x12; 0x01; 0xCA]] []))
    by (vm_compute; reflexivity).
  split; [exact H|].
  exact (getFocuserPosition_24_bits _ _ _ _ _ H).
Defined.

(** ** Polling the slew *)

(** X20.  [checkFocuserStatus] always answers [true].  When the focuser is
    not moving it sends nothing and changes nothing.  It never sets
    [isMoving], and changes the state only when it clears it (then
    [currentPosition] may have been read anew); [targetPosition],
    [currentSpeed] and [focuserConnected] are kept.  When the focuser is
    moving, one to six requests have been written. *)
Theorem checkFocuserStatus_effects
    (st st' : Main.state) (w w' : Serial.t) (r : bool) :
  Main.checkFocuserStatus st w = Ret (r, st', w') ->
  r = true
  /\ Main.targetPosition st' = Main.targetPosition st
  /\ Main.currentSpeed st' = Main.currentSpeed st
  /\ Main.focuserConnected st' = Main.focuserConnected st
  /\ (Main.isMoving st = false -> st' = st /\ w' = w)
  /\ (Main.isMoving st' = true -> st' = st)
  /\ (Main.isMoving st = true ->
      (length (Serial.written w) < length (Serial.written w')
       <= length (Serial.written w) + 6)%nat).
Proof.
  unfold Main.checkFocuserStatus, Communicator.sendCommand_nodata.
  cbv zeta. intros H.
  destruct (Main.isMoving st) eqn:Hmoving; cbn [negb] in H;
    [|by injection H as <- <- <-].
  apply result_bind_Ret in H as ([[ok reply] w1] & Hsend & H).
  pose proof (sendCommand_written_bounds _ _ _ _ _ _ _ _ _ Hsend) as Hwr.
  assert (Hsame : Ret (true, st, w1) = Ret (r, st', w') ->
                  r = true
                  /\ Main.targetPosition st' = Main.targetPosition st
                  /\ Main.currentSpeed st' = Main.currentSpeed st
                  /\ Main.focuserConnected st' = Main.focuserConnected st
                  /\ (true = false -> st' = st /\ w' = w)
                  /\ (Main.isMoving st' = true -> st' = st)
                  /\ (true = true ->
                      (length (Serial.written w)
                       < length (Serial.written w')
                       <= length (Serial.written w) + 6)%nat)).
  { intros [= <- <- <-]. repeat split; try done; lia. }
  destruct ok; [|by apply Hsame].
  case_bool_decide as Hempty; cbn [negb] in H; [by apply Hsame|].
  apply result_bind_Ret in H as (status & _ & H).
  case_bool_decide as Hstatus; cbn [negb] in H; [by apply Hsame|].
  apply result_bind_Ret in H as ([[ok2 st2] w2] & Hget & H).
  injection H as <- <- <-.
  apply getFocuserPosition_inv in Hget
    as (Htarget & Hspeed & Hmov & Hconn & _ & Hwr2).
  cbn [Main.targetPosition Main.currentSpeed Main.isMoving
       Main.focuserConnected] in *.
  repeat split; try done; try lia.
  intros Habs. congruence.
Qed.

Lemma checkFocuserStatus_effects_witness :
  Main.checkFocuserStatus (Main.mk 0 100000 5 true true) focuser_arrived
  = Ret (true, Main.mk 100000 100000 5 false true,
         Serial.mk 224 []
           [[0x3B; 0x03; 0x20; 0x12; 0x13; 0xB8];
            [0x3B; 0x03; 0x20; 0x12; 0x01; 0xCA]] [])
  /\ true = true
  /\ Main.targetPosition (Main.mk 100000 100000 5 false true)
     = Main.targetPosition (Main.mk 0 100000 5 true true)
  /\ Main.currentSpeed (Main.mk 100000 100000 5 false true)
     = Main.currentSpeed (Main.mk 0 100000 5 true true)
  /\ Main.focuserConnected (Main.mk 100000 100000 5 false true)
     = Main.focuserConnected (Main.mk 0 100000 5 true true)
  /\ (Main.isMoving (Main.mk 0 100000 5 true true) = false ->
      Main.mk 100000 100000 5 false true = Main.mk 0 100000 5 true true
      /\ Serial.mk 224 []
           [[0x3B; 0x03; 0x20; 0x12; 0x13; 0xB8];
            [0x3B; 0x03; 0x20; 0x12; 0x01; 0xCA]] []
         = focuser_arrived)
  /\ (Main.isMoving (Main.mk 100000 100000 5 false true) = true ->
      Main.mk 100000 100000 5 false true = Main.mk 0 100000 5 true true)
  /\ (Main.isMoving (Main.mk 0 100000 5 true true) = true ->
      (length (Serial.written focuser_arrived)
       < length (Serial.written
                   (Serial.mk 224 []
                      [[0x3B; 0x03; 0x20; 0x12; 0x13; 0xB8]%Z;
                       [0x3B; 0x03; 0x20; 0x12; 0x01; 0xCA]%Z] []))
       <= length (Serial.written focuser_arrived) + 6)%nat).
Proof.
  assert (H : Main.checkFocuserStatus (Main.mk 0 100000 5 true true)
                focuser_arrived
              = Ret (true, Main.mk 100000 100000 5 false true,
                     Serial.mk 224 []
                       [[0x3B; 0x03; 0x20; 0x12; 0x13; 0xB8];
                        [0x3B; 0x03; 0x20; 0x12; 0x01; 0xCA]] []))
    by (vm_compute; reflexivity).
  split; [exact H|].
  exact (checkFocuserStatus_effects _ _ _ _ _ H).
Defined.

(** ** Positions typed by the user *)

Lemma isdigit_facts (c : ascii) :
  isdigit c = true ->
  isspace c = false
  /\ digit_value c = Some (Z.of_nat (nat_of_ascii c) - 48)
  /\ 0 <= Z.of_nat (nat_of_ascii c) - 48 < 10.
Proof.
  unfold isdigit, isspace, digit_value. cbv zeta.
  intros [H1 H2]%andb_prop. rewrite H1, H2. cbn [andb].
  apply Nat.leb_le in H1, H2.
  repeat split; try lia.
  apply orb_false_intro.
  - apply Nat.eqb_neq. lia.
  - apply andb_false_intro2. apply Nat.leb_gt. lia.
Qed.

Lemma strtol_sign_digit (c : ascii) (rest : list ascii) :
  isdigit c = true -> strtol_sign (c :: rest) = (false, c :: rest).
Proof.
  intros H.
  destruct c as [[] [] [] [] [] [] [] []];
    try reflexivity; vm_compute in H; discriminate.
Qed.

Lemma strtol_digits_decimal (digits : list ascii) :
  forall acc : Z,
    forallb isdigit digits = true ->
    strtol_digits 10 digits acc
    = fold_left (fun acc c => 10 * acc + (Z.of_nat (nat_of_ascii c) - 48))
        digits acc.
Proof.
  induction digits as [|c rest IH]; intros acc H; [done|].
  cbn [forallb] in H. apply andb_prop in H as [Hc Hrest].
  destruct (isdigit_facts c Hc) as (_ & Hvalue & Hrange).
  cbn [strtol_digits fold_left]. rewrite Hvalue.
  rewrite decide_True by lia. by apply IH.
Qed.

Lemma fold_decimal_nonneg (digits : list ascii) :
  forall acc : Z,
    forallb isdigit digits = true -> 0 <= acc ->
    0 <= fold_left (fun acc c => 10 * acc + (Z.of_nat (nat_of_ascii c) - 48))
           digits acc.
Proof.
  induction digits as [|c rest IH]; intros acc H Hacc; [done|].
  cbn [forallb] in H. apply andb_prop in H as [Hc Hrest].
  destruct (isdigit_facts c Hc) as (_ & _ & Hrange).
  cbn [fold_left]. apply IH; [done|lia].
Qed.

Lemma String_toInt_decimal (digits : list ascii) :
  digits ≠ [] -> forallb isdigit digits = true ->
  String_toInt digits = Z.min (2 ^ 31 - 1) (decimal digits).
Proof.
  intros Hne Hdigits. destruct digits as [|c rest]; [done|].
  pose proof Hdigits as Hall.
  cbn [forallb] in Hdigits. apply andb_prop in Hdigits as [Hc _].
  destruct (isdigit_facts c Hc) as (Hspace & _ & _).
  unfold String_toInt, strtol. cbn [strtol_spaces]. rewrite Hspace.
  rewrite strtol_sign_digit by done.
  unfold strtol_prefix. rewrite decide_False by lia.
  by rewrite strtol_digits_decimal.
Qed.

(** X21.  [parsePosition] reads the text without the white space at its
    ends: when what is left is a non-empty run of decimal digits the result
    is the number they denote, or 2^31 - 1 when the number is larger;
    otherwise it is 0.  The result is never above 2^31 - 1. *)
Theorem parsePosition_decimal (value : list ascii) :
  Main.parsePosition value
  = (let digits := String_trim value in
     if forallb isdigit digits && negb (bool_decide (digits = []))
     then Z.min (2 ^ 31 - 1) (decimal digits) else 0)
  /\ 0 <= Main.parsePosition value <= 2 ^ 31 - 1.
Proof.
  unfold Main.parsePosition. cbv zeta.
  destruct (String_trim value) as [|c rest] eqn:Htrim.
  - rewrite decide_True by done. cbn. lia.
  - rewrite decide_False by done.
    rewrite (bool_decide_eq_false_2 (c :: rest = [])) by done.
    cbn [negb]. rewrite andb_true_r.
    destruct (forallb isdigit (c :: rest)) eqn:Hdigits; cbn [negb];
      [|lia].
    rewrite String_toInt_decimal by done.
    pose proof (fold_decimal_nonneg (c :: rest) 0 Hdigits ltac:(lia)) as Hnn.
    fold (decimal (c :: rest)) in Hnn.
    rewrite u32_small by lia. lia.
Qed.

Example parsePosition_examples :
  Main.parsePosition [" "; "4"; "2"; " "]%char = 42
  /\ Main.parsePosition ["4"; "2"; "9"; "4"; "9"; "6"; "7"; "2"; "9"; "5"]%char
     = 2147483647
  /\ Main.parsePosition ["-"; "5"]%char = 0
  /\ Main.parsePosition ["1"; "2"; "a"]%char = 0
  /\ Main.parsePosition ["1"; " "; "2"]%char = 0
  /\ Main.parsePosition []%char = 0.
Proof. repeat split; vm_compute; reflexivity. Qed.

(** ** The goto command *)

(** X22.  [handleGotoCommand] returns.  When the focuser is connected and
    the text is a position ([parsePosition] gives a number other than 0, or
    the text is exactly [0]) it calls [gotoPosition] on the position: one
    write, of the [MC_GOTO_FAST] frame of the position modulo 2^24 or of the
    prefix of it that the port took; when the port took the whole frame
    [targetPosition] becomes the position (not reduced) and [isMoving] is
    set, the other globals being kept, and otherwise no global is changed.
    In every other case it sends nothing and changes nothing. *)
Theorem handleGotoCommand_effects (value : list ascii) (st : Main.state)
    (w : Serial.t) :
  exists (st' : Main.state) (w' : Serial.t),
    Main.handleGotoCommand value st w = Ret (st', w')
    /\ if bool_decide (Main.focuserConnected st = true
                       /\ (Main.parsePosition value ≠ 0
                           \/ value = ["0"%char]))
       then
         exists (sent : bool) (k : nat) (b2 b1 b0 : Z),
           Main.gotoPosition (Main.parsePosition value) w = Ret (sent, w')
           /\ is_u8 b2 /\ is_u8 b1 /\ is_u8 b0
           /\ 65536 * b2 + 256 * b1 + b0
              = Main.parsePosition value mod 2 ^ 24
           /\ Serial.written w'
              = Serial.written w
                ++ [take k (frame Target.APP Target.FOCUSER
                              Command.MC_GOTO_FAST [b2; b1; b0])]
           /\ (k <= 9)%nat
           /\ (sent = true <-> k = 9%nat)
           /\ st' = (if sent
                     then Main.mk (Main.currentPosition st)
                            (Main.parsePosition value)
                            (Main.currentSpeed st) true
                            (Main.focuserConnected st)
                     else st)
       else st' = st /\ w' = w.
Proof.
  unfold Main.handleGotoCommand. cbv zeta.
  destruct (Main.focuserConnected st) eqn:Hconn; cbn [negb].
  2:{ exists st, w. split; [done|].
      rewrite bool_decide_eq_false_2; [done|]. by intros [? _]. }
  case_decide as Hinvalid.
  { exists st, w. split; [done|].
    rewrite bool_decide_eq_false_2; [done|].
    intros [_ [Hpos|Hzero]]; tauto. }
  assert (Hvalid : Main.parsePosition value ≠ 0 \/ value = ["0"%char]).
  { destruct (decide (Main.parsePosition value = 0)); [|by left].
    right. apply dec_stable. tauto. }
  rewrite bool_decide_eq_true_2 by done.
  destruct (gotoPosition_frame (Main.parsePosition value) w)
    as (sent & w' & k & b2 & b1 & b0 & Hgoto & H2 & H1 & H0 & Hsum & _ & Hwr
        & Hk & Hsent).
  rewrite Hgoto. cbn [mbind result_bind].
  destruct sent.
  - eexists _, w'. split; [done|]. exists true, k, b2, b1, b0.
    split; [done|]. split; [done|]. split; [done|]. split; [done|].
    split; [done|]. split; [done|]. split; [done|]. by split.
  - exists st, w'. split; [done|]. exists false, k, b2, b1, b0.
    split; [done|]. split; [done|]. split; [done|]. split; [done|].
    split; [done|]. split; [done|]. split; [done|]. by split.
Qed.

Example handleGotoCommand_examples :
  Main.handleGotoCommand ["1"; "0"; "0"; "0"; "0"; "0"]%char
    (Main.mk 0 0 5 false true) (dead_line 0 [])
  = Ret (Main.mk 0 100000 5 true true,
         dead_line 0 [[0x3B; 0x06; 0x20; 0x12; 0x02; 0x01; 0x86; 0xA0;
                       0x9F]])
  /\ Main.handleGotoCommand ["1"; "6"; "7"; "7"; "7"; "2"; "1"; "6"]%char
       (Main.mk 500 0 5 false true) (dead_line 0 [])
     = Ret (Main.mk 500 16777216 5 true true,
            dead_line 0 [[0x3B; 0x06; 0x20; 0x12; 0x02; 0x00; 0x00; 0x00;
                          0xC6]])
  /\ Main.handleGotoCommand ["0"; "0"]%char
       (Main.mk 500 0 5 false true) (dead_line 0 [])
     = Ret (Main.mk 500 0 5 false true, dead_line 0 [])
  /\ Main.handleGotoCommand ["1"; "0"; "0"]%char
       (Main.mk 0 0 5 false false) (dead_line 0 [])
     = Ret (Main.mk 0 0 5 false false, dead_line 0 []).
Proof. repeat split; vm_compute; reflexivity. Qed.

(** ** Moving and stopping *)

(** X23.  [moveFocuser] asks for a move inward ([MC_MOVE_POS]) when the
    direction is 1 and for a move outward ([MC_MOVE_NEG]) for every other
    direction, with the speed as the one byte of payload: the one to three
    writes of the call are this request from [APP] to [FOCUSER] or prefixes
    of it, and the last one is the whole request when the call returns
    [true]. *)
Theorem moveFocuser_requests
    (direction speed : Z) (w w' : Serial.t) (ok : bool) :
  Main.moveFocuser direction speed w = Ret (ok, w') ->
  exists chunks,
    Serial.written w' = Serial.written w ++ chunks
    /\ (1 <= length chunks <= 3)%nat
    /\ Forall (fun chunk =>
                 exists k : nat,
                   chunk = take k (frame Target.APP Target.FOCUSER
                                     (if decide (direction = 1)
                                      then Command.MC_MOVE_POS
                                      else Command.MC_MOVE_NEG)
                                     [speed])) chunks
    /\ (ok = true ->
        last chunks = Some (frame Target.APP Target.FOCUSER
                              (if decide (direction = 1)
                               then Command.MC_MOVE_POS
                               else Command.MC_MOVE_NEG)
                              [speed])).
Proof.
  unfold Main.moveFocuser. cbv zeta. intros H.
  apply result_bind_Ret in H as ([[ok1 reply] w1] & Hsend & H).
  injection H as <- <-.
  pose proof (sendCommand_written_bounds _ _ _ _ _ _ _ _ _ Hsend) as Hwr.
  unfold Communicator.sendCommand in Hsend.
  apply sendCommand_loop_requests in Hsend
    as (chunks & Hchunks & Hall & Hlast); [|by compute].
  exists chunks. rewrite Hchunks, length_app in Hwr.
  split; [done|]. split; [lia|].
  unfold request_frame in *.
  by destruct (decide (direction = 1)).
Qed.

Lemma moveFocuser_requests_witness :
  Main.moveFocuser 0 5 (dead_line 0 [])
  = Ret (false,
         dead_line 300
           [[0x3B; 0x04; 0x20; 0x12; 0x25; 0x05; 0xA0];
            [0x3B; 0x04; 0x20; 0x12; 0x25; 0x05; 0xA0];
            [0x3B; 0x04; 0x20; 0x12; 0x25; 0x05; 0xA0]])
  /\ exists chunks,
    Serial.written
      (dead_line 300
         [[0x3B; 0x04; 0x20; 0x12; 0x25; 0x05; 0xA0];
          [0x3B; 0x04; 0x20; 0x12; 0x25; 0x05; 0xA0];
          [0x3B; 0x04; 0x20; 0x12; 0x25; 0x05; 0xA0]])
    = Serial.written (dead_line 0 []) ++ chunks
    /\ (1 <= length chunks <= 3)%nat
    /\ Forall (fun chunk =>
                 exists k : nat,
                   chunk = take k (frame Target.APP Target.FOCUSER
                                     (if decide (0 = 1)
                                      then Command.MC_MOVE_POS
                                      else Command.MC_MOVE_NEG)
                                     [5])) chunks
    /\ (false = true ->
        last chunks = Some (frame Target.APP Target.FOCUSER
                              (if decide (0 = 1)
                               then Command.MC_MOVE_POS
                               else Command.MC_MOVE_NEG)
                              [5])).
Proof.
  assert (H : Main.moveFocuser 0 5 (dead_line 0 [])
              = Ret (false,
                     dead_line 300
                       [[0x3B; 0x04; 0x20; 0x12; 0x25; 0x05; 0xA0];
                        [0x3B; 0x04; 0x20; 0x12; 0x25; 0x05; 0xA0];
                        [0x3B; 0x04; 0x20; 0x12; 0x25; 0x05; 0xA0]]))
    by (vm_compute; reflexivity).
  split; [exact H|].
  exact (moveFocuser_requests _ _ _ _ _ H).
Defined.

(** X24.  [stopFocuser] sends the request for a move inward at rate 0:
    one write, of the frame 3B 04 20 12 24 00 A6 or of the prefix of it that
    the port took, and it answers [true] exactly when the port took the
    seven bytes.  It does not read the answer that the focuser gives to a
    move request: of the received bytes it has taken only bytes that had
    arrived before the call, and the answer is left on the line. *)
Theorem stopFocuser_sends_rate_0 (w : Serial.t) :
  exists (sent : bool) (w' : Serial.t) (k : nat),
    Main.stopFocuser w = Ret (sent, w')
    /\ (exists dropped remaining,
          Serial.rx w = dropped ++ remaining
          /\ Forall (fun e => e.1 <= Serial.now w) dropped
          /\ Serial.rx w' = remaining ++ next_answer w)
    /\ Serial.written w'
       = Serial.written w
         ++ [take k [0x3B; 0x04; 0x20; 0x12; 0x24; 0x00; 0xA6]]
    /\ (k <= 7)%nat
    /\ (sent = true <-> k = 7%nat).
Proof.
  unfold Main.stopFocuser. cbv zeta.
  destruct (sendPacket_frame Main.communicator Target.FOCUSER
              Command.MC_MOVE_POS [0] w)
    as (sent & w' & k & Hsend & Hleft & Hwr & Hk & Hsent); [by compute|].
  exists sent, w', k. split; [done|]. split; [done|].
  split; [exact Hwr|]. split; [exact Hk | exact Hsent].
Qed.

(** ** Command lines *)

Lemma take_31_app (text more : list ascii) :
  take 31 (take 31 text ++ more) = take 31 (text ++ more).
Proof.
  destruct (decide (length text <= 31)%nat) as [Hle|Hgt].
  - by rewrite (take_ge text) by done.
  - rewrite !take_app_le by (rewrite ?length_take; lia).
    rewrite take_take. by rewrite Nat.min_id.
Qed.

Lemma processCommands_printable (text : list ascii) :
  forall (commandBuffer rest : list ascii),
    forallb printable text = true ->
    (length commandBuffer <= 31)%nat ->
    Main.processCommands (text ++ rest) commandBuffer false
    = Main.processCommands rest (take 31 (commandBuffer ++ text)) false.
Proof.
  induction text as [|c text IH]; intros commandBuffer rest Hprintable Hlen.
  - rewrite app_nil_r, take_ge by done. done.
  - cbn [forallb] in Hprintable.
    apply andb_prop in Hprintable as [Hc Htext].
    cbn [app Main.processCommands]. cbv zeta.
    unfold printable in Hc. cbv zeta in Hc.
    assert (Hnl : ((nat_of_ascii c =? 10) || (nat_of_ascii c =? 13))%nat
                  = false).
    { apply andb_prop in Hc as [H32 _]. apply Nat.leb_le in H32.
      apply orb_false_intro; apply Nat.eqb_neq; lia. }
    rewrite Hnl, Hc. unfold Main.MAX_COMMAND_LEN, String_substring.
    rewrite length_app, drop_0. cbn [length].
    change (32 - 1 - 0)%nat with 31%nat.
    case_decide as Hfull.
    + rewrite IH by (rewrite ?length_take; done || lia).
      rewrite take_31_app. by rewrite <- app_assoc.
    + rewrite IH by (rewrite ?length_app; cbn [length]; done || lia).
      by rewrite <- app_assoc.
Qed.

(** X25.  [processCommands] on a line: printable characters followed by a
    line feed or a carriage return, read with an empty command buffer.  An
    empty line calls nothing.  Otherwise exactly one handler is called, on
    the first 31 characters of the line: [handleCommand] when that is a
    single character, [handleGotoCommand] on what follows a first [g], and
    the unknown-command error otherwise.  The buffer is empty again
    afterwards, and the rest of the input is processed the same way. *)
Theorem processCommands_line (text rest : list ascii) (eol : ascii) :
  forallb printable text = true -> end_of_line eol = true ->
  Main.processCommands (text ++ eol :: rest) [] false
  = let '(calls, commandBuffer, commandReady) :=
      Main.processCommands rest [] false in
    (if decide (text = []) then calls
     else Main.dispatch (take 31 text) :: calls,
     commandBuffer, commandReady).
Proof.
  intros Hprintable Heol.
  rewrite processCommands_printable by (done || cbn; lia).
  cbn [app Main.processCommands]. cbv zeta.
  unfold end_of_line in Heol. cbv zeta in Heol. rewrite Heol.
  destruct text as [|c text].
  - cbn [app take length]. rewrite decide_False by lia.
    destruct (Main.processCommands rest [] false) as [[calls b] r].
    by rewrite decide_True.
  - cbn [app take length]. rewrite decide_True by lia.
    destruct (Main.processCommands rest [] false) as [[calls b] r].
    by rewrite decide_False.
Qed.

Lemma processCommands_line_witness :
  (forallb printable ["g"; "1"; "0"; "0"]%char = true
   /\ end_of_line "010"%char = true)
  /\ Main.processCommands
       (["g"; "1"; "0"; "0"]%char ++ "010"%char :: ["p"; "013"; "010"]%char)
       [] false
     = let '(calls, commandBuffer, commandReady) :=
         Main.processCommands ["p"; "013"; "010"]%char [] false in
       (if decide (["g"; "1"; "0"; "0"]%char = []) then calls
        else Main.dispatch (take 31 ["g"; "1"; "0"; "0"]%char) :: calls,
        commandBuffer, commandReady).
Proof.
  assert (H1 : forallb printable ["g"; "1"; "0"; "0"]%char = true)
    by reflexivity.
  assert (H2 : end_of_line "010"%char = true) by reflexivity.
  split; [by split|].
  exact (processCommands_line ["g"; "1"; "0"; "0"]%char
           ["p"; "013"; "010"]%char "010"%char H1 H2).
Defined.

Example processCommands_example :
  Main.processCommands
    (["g"; "1"; "0"; "0"]%char ++ "010"%char :: ["p"; "013"; "010"; "+"]%char)
    [] false
  = ([Main.Goto ["1"; "0"; "0"]%char; Main.Single "p"%char], ["+"]%char,
     false).
Proof. reflexivity. Qed.
